(** * telegram-mcqs-maker: the [/make_mcq] message handler of [src/index.ts]

    A shallow embedding of the Telegram bot's message handler (the second,
    model-selecting version of [index.ts]) together with the JavaScript
    built-ins it relies on ([String.prototype] methods, [JSON.parse],
    property access on parsed values), and the properties of the
    generation-and-dispatch pipeline stated over that embedding.

    Conventions.
    - A JavaScript string is a sequence of UTF-16 code units; a code unit is
      a number [N].  Literals of the source are written with [lit].
    - Effects (messages, polls, LLM calls, console output) are recorded in a
      trace that is threaded through the handler; exceptions are an explicit
      [Throw] completion.
    - What the source imports but does not define (the model table
      [supportedModels], the Unicode case mapping, the rendering of error
      values, the LLM and the chat transport) is a parameter.
    - [bot.sendMessage] is never awaited by the handler, so a call only
      leaves an event and the handler goes on; whether its promise is
      rejected afterwards is the transport's answer, and such a rejection
      is listed by [unhandled_rejections]. *)

From Stdlib Require Import List NArith ZArith QArith Bool Ascii String Lia.
From Stdlib Require Import DecimalString.
Import ListNotations.

Local Open Scope Z_scope.
Set Warnings "-register-all".

(* ================================================================== *)
(** * JavaScript strings *)
(* ================================================================== *)

Module JS.

Abbreviation code_unit := N (only parsing).
Definition jsstring := list code_unit.

(** A source literal, one code unit per character. *)
Definition lit (s : string) : jsstring :=
  map N_of_ascii (list_ascii_of_string s).

(** A source literal in which every apostrophe stands for a double quote
    (code unit 34); used for texts that contain JSON. *)
Definition litq (s : string) : jsstring :=
  map (fun c => if N.eqb c 39 then 34%N else c) (lit s).

Definition jsstring_eqb (a b : jsstring) : bool :=
  if list_eq_dec N.eq_dec a b then true else false.

(** [s.length] *)
Definition length (s : jsstring) : Z := Z.of_nat (List.length s).

(** [s.startsWith(p)] *)
Fixpoint startsWith (p s : jsstring) : bool :=
  match p, s with
  | [], _ => true
  | _ :: _, [] => false
  | a :: p', b :: s' => N.eqb a b && startsWith p' s'
  end.

(** [s.includes(p)] *)
Fixpoint includes (p s : jsstring) : bool :=
  startsWith p s ||
  match s with
  | [] => false
  | _ :: s' => includes p s'
  end.

(** [s.indexOf(c)] for a one-character needle: the index of the first
    occurrence, or -1. *)
Fixpoint indexOf (c : code_unit) (s : jsstring) : Z :=
  match s with
  | [] => -1
  | x :: s' =>
      if N.eqb x c then 0
      else let i := indexOf c s' in if i <? 0 then -1 else i + 1
  end.

(** [s.lastIndexOf(c)] for a one-character needle: the index of the last
    occurrence, or -1. *)
Fixpoint lastIndexOf (c : code_unit) (s : jsstring) : Z :=
  match s with
  | [] => -1
  | x :: s' =>
      let i := lastIndexOf c s' in
      if 0 <=? i then i + 1
      else if N.eqb x c then 0 else -1
  end.

(** The clamping of an index argument to [0 .. len]. *)
Definition clamp (len i : Z) : Z := Z.min (Z.max i 0) len.

(** [s.substring(start, end)]: both arguments are clamped to [0 .. length]
    and swapped when [start > end]. *)
Definition substring (s : jsstring) (start end_ : Z) : jsstring :=
  let a := clamp (length s) start in
  let b := clamp (length s) end_ in
  let lo := Z.min a b in
  let hi := Z.max a b in
  firstn (Z.to_nat (hi - lo)) (skipn (Z.to_nat lo) s).

(** [x.slice(0, n)] on a string or an array, for [n >= 0]. *)
Definition slice0 {A} (n : nat) (l : list A) : list A := firstn n l.

(** [s.split(sep)] for a one-character separator. *)
Fixpoint split (sep : code_unit) (s : jsstring) : list jsstring :=
  match s with
  | [] => [[]]
  | c :: s' =>
      if N.eqb c sep then [] :: split sep s'
      else match split sep s' with
           | [] => [[c]]
           | h :: t => (c :: h) :: t
           end
  end.

(** [parts.join(sep)] on an array of strings. *)
Fixpoint join (sep : jsstring) (parts : list jsstring) : jsstring :=
  match parts with
  | [] => []
  | [p] => p
  | p :: rest => p ++ sep ++ join sep rest
  end.

(** The decimal rendering of a non-negative integer in a template
    literal. *)
Definition of_nat (n : nat) : jsstring :=
  lit (NilZero.string_of_uint (Nat.to_uint n)).

End JS.

(* ================================================================== *)
(** * JSON values and [JSON.parse] *)
(* ================================================================== *)

Module JSON.
Import JS.

(** A parsed JSON value.  A number keeps its exact decimal value
    [(-1)^neg * mantissa * 10^exp10]; an object keeps its members in source
    order, duplicates included (the last one wins on lookup). *)
Inductive json :=
| JNull
| JBool (b : bool)
| JNum (neg : bool) (mantissa : N) (exp10 : Z)
| JStr (s : jsstring)
| JArr (items : list json)
| JObj (members : list (jsstring * json)).

Inductive token :=
| TLBracket | TRBracket | TLBrace | TRBrace | TComma | TColon
| TTrue | TFalse | TNull
| TString (s : jsstring)
| TNumber (neg : bool) (mantissa : N) (exp10 : Z).

Definition is_ws (c : code_unit) : bool :=
  N.eqb c 32 || N.eqb c 9 || N.eqb c 10 || N.eqb c 13.

Definition is_digit (c : code_unit) : bool :=
  N.leb 48 c && N.leb c 57.

Definition hex_value (c : code_unit) : option N :=
  if N.leb 48 c && N.leb c 57 then Some (c - 48)%N
  else if N.leb 97 c && N.leb c 102 then Some (c - 87)%N
  else if N.leb 65 c && N.leb c 70 then Some (c - 55)%N
  else None.

Fixpoint strip_prefix (p s : jsstring) : option jsstring :=
  match p, s with
  | [], _ => Some s
  | _ :: _, [] => None
  | a :: p', b :: s' => if N.eqb a b then strip_prefix p' s' else None
  end.

(** The body of a string token, after its opening quote: up to the closing
    quote, with the escapes decoded.  Control characters (below 32) must be
    escaped. *)
Fixpoint lex_string (s : jsstring) (acc : jsstring)
  : option (jsstring * jsstring) :=
  match s with
  | [] => None
  | c :: r =>
      if N.eqb c 34 then Some (rev acc, r)
      else if N.eqb c 92 then
        match r with
        | [] => None
        | e :: r1 =>
            if N.eqb e 34 then lex_string r1 (34%N :: acc)
            else if N.eqb e 92 then lex_string r1 (92%N :: acc)
            else if N.eqb e 47 then lex_string r1 (47%N :: acc)
            else if N.eqb e 98 then lex_string r1 (8%N :: acc)
            else if N.eqb e 102 then lex_string r1 (12%N :: acc)
            else if N.eqb e 110 then lex_string r1 (10%N :: acc)
            else if N.eqb e 114 then lex_string r1 (13%N :: acc)
            else if N.eqb e 116 then lex_string r1 (9%N :: acc)
            else if N.eqb e 117 then
              match r1 with
              | h1 :: h2 :: h3 :: h4 :: r2 =>
                  match hex_value h1, hex_value h2, hex_value h3, hex_value h4 with
                  | Some a, Some b, Some c', Some d =>
                      lex_string r2 ((a * 4096 + b * 256 + c' * 16 + d)%N :: acc)
                  | _, _, _, _ => None
                  end
              | _ => None
              end
            else None
        end
      else if N.ltb c 32 then None
      else lex_string r (c :: acc)
  end.

(** The longest run of decimal digits at the head of [s]. *)
Fixpoint take_digits (s : jsstring) : list N * jsstring :=
  match s with
  | [] => ([], [])
  | c :: r =>
      if is_digit c
      then let '(ds, r') := take_digits r in ((c - 48)%N :: ds, r')
      else ([], s)
  end.

Definition digits_value (ds : list N) : N :=
  fold_left (fun acc d => (acc * 10 + d)%N) ds 0%N.

(** The integer part of a number: a single 0, or a digit 1-9 followed by
    digits. *)
Definition lex_int (s : jsstring) : option (list N * jsstring) :=
  match s with
  | [] => None
  | c :: r =>
      if N.eqb c 48 then Some ([0%N], r)
      else if is_digit c then Some (take_digits s)
      else None
  end.

(** The optional fraction: a dot followed by at least one digit. *)
Definition lex_frac (s : jsstring) : option (list N * jsstring) :=
  match s with
  | c :: r =>
      if N.eqb c 46 then
        match take_digits r with
        | ([], _) => None
        | (ds, r') => Some (ds, r')
        end
      else Some ([], s)
  | [] => Some ([], s)
  end.

(** The optional exponent: e or E, an optional sign, at least one digit. *)
Definition lex_exp (s : jsstring) : option (Z * jsstring) :=
  match s with
  | c :: r =>
      if N.eqb c 101 || N.eqb c 69 then
        let '(sign, r1) :=
          match r with
          | x :: r' =>
              if N.eqb x 45 then (-1, r')
              else if N.eqb x 43 then (1, r')
              else (1, r)
          | [] => (1, r)
          end in
        match take_digits r1 with
        | ([], _) => None
        | (ds, r2) => Some (sign * Z.of_N (digits_value ds), r2)
        end
      else Some (0, s)
  | [] => Some (0, s)
  end.

Definition lex_number (s : jsstring) : option (token * jsstring) :=
  let '(neg, s1) :=
    match s with
    | c :: r => if N.eqb c 45 then (true, r) else (false, s)
    | [] => (false, s)
    end in
  match lex_int s1 with
  | None => None
  | Some (ids, s2) =>
      match lex_frac s2 with
      | None => None
      | Some (fds, s3) =>
          match lex_exp s3 with
          | None => None
          | Some (e, s4) =>
              Some (TNumber neg (digits_value (ids ++ fds))
                            (e - Z.of_nat (List.length fds)), s4)
          end
      end
  end.

Definition cons_token (t : token) (r : option (list token)) : option (list token) :=
  option_map (cons t) r.

(** The token at the head of [s], which does not start with white space,
    and the text after it. *)
Definition lex_token (s : jsstring) : option (token * jsstring) :=
  match s with
  | [] => None
  | c :: r =>
      if N.eqb c 91 then Some (TLBracket, r)
      else if N.eqb c 93 then Some (TRBracket, r)
      else if N.eqb c 123 then Some (TLBrace, r)
      else if N.eqb c 125 then Some (TRBrace, r)
      else if N.eqb c 44 then Some (TComma, r)
      else if N.eqb c 58 then Some (TColon, r)
      else if N.eqb c 34 then
        match lex_string r [] with
        | Some (str, r') => Some (TString str, r')
        | None => None
        end
      else match strip_prefix (lit "true") s with
      | Some r' => Some (TTrue, r')
      | None =>
      match strip_prefix (lit "false") s with
      | Some r' => Some (TFalse, r')
      | None =>
      match strip_prefix (lit "null") s with
      | Some r' => Some (TNull, r')
      | None => lex_number s
      end end end
  end.

Fixpoint lex_fuel (fuel : nat) (s : jsstring) : option (list token) :=
  match fuel with
  | O => None
  | S fuel' =>
      match s with
      | [] => Some []
      | c :: r =>
          if is_ws c then lex_fuel fuel' r
          else match lex_token s with
               | Some (t, r') => cons_token t (lex_fuel fuel' r')
               | None => None
               end
      end
  end.

(** Every token consumes at least one character, so the length of the text
    bounds the number of steps. *)
Definition lex (s : jsstring) : option (list token) :=
  lex_fuel (S (List.length s)) s.

(** Recursive descent over the tokens.  Each call consumes a token before
    it recurses, so the number of tokens bounds the depth. *)
Fixpoint parse_value (fuel : nat) (ts : list token) : option (json * list token) :=
  match fuel with
  | O => None
  | S fuel' =>
      match ts with
      | TNull :: r => Some (JNull, r)
      | TTrue :: r => Some (JBool true, r)
      | TFalse :: r => Some (JBool false, r)
      | TString s :: r => Some (JStr s, r)
      | TNumber neg m e :: r => Some (JNum neg m e, r)
      | TLBracket :: TRBracket :: r => Some (JArr [], r)
      | TLBracket :: r => parse_elements fuel' r []
      | TLBrace :: TRBrace :: r => Some (JObj [], r)
      | TLBrace :: r => parse_members fuel' r []
      | _ => None
      end
  end
with parse_elements (fuel : nat) (ts : list token) (acc : list json)
  : option (json * list token) :=
  match fuel with
  | O => None
  | S fuel' =>
      match parse_value fuel' ts with
      | Some (v, TComma :: r) => parse_elements fuel' r (v :: acc)
      | Some (v, TRBracket :: r) => Some (JArr (rev (v :: acc)), r)
      | _ => None
      end
  end
with parse_members (fuel : nat) (ts : list token) (acc : list (jsstring * json))
  : option (json * list token) :=
  match fuel with
  | O => None
  | S fuel' =>
      match ts with
      | TString k :: TColon :: r =>
          match parse_value fuel' r with
          | Some (v, TComma :: r') => parse_members fuel' r' ((k, v) :: acc)
          | Some (v, TRBrace :: r') => Some (JObj (rev ((k, v) :: acc)), r')
          | _ => None
          end
      | _ => None
      end
  end.

(** [JSON.parse(text)]: [None] stands for the [SyntaxError] it throws. *)
Definition parse (text : jsstring) : option json :=
  match lex text with
  | None => None
  | Some ts =>
      match parse_value (S (List.length ts)) ts with
      | Some (v, []) => Some v
      | _ => None
      end
  end.

End JSON.

(* ================================================================== *)
(** * The bot: values, effects and the message handler *)
(* ================================================================== *)

Module Bot.
Import JS JSON.

(** ** Inbound message *)

(** [msg.chat.id] and the optional [msg.text]. *)
Record message := { chat_id : Z; text : option jsstring }.

(** ** Thrown values *)

(** A value that can be thrown or be the reason of a rejected promise:
    an error raised by the engine, or one raised by a collaborator (the LLM
    client or the chat transport). *)
Inductive js_error :=
| TypeError (what : string)
| SyntaxError
| ExternalError (description : jsstring).

(** ** Effects *)

Inductive provider := Anthropic | OpenAI.

(** The last argument of [bot.sendPoll]; [None] is [undefined]. *)
Record poll_options := {
  type_ : jsstring;
  correct_option_id : option json;
  explanation : option json;
  is_anonymous : bool
}.

(** What the handler does to the outside world.  [ConsoleError label error]
    is [console.error(label, x)]; [error] is [x] when [x] is a caught
    value. *)
Inductive event :=
| SendMessage (chatId : Z) (text : jsstring)
| SendPoll (chatId : Z) (question : json) (options : option (list json))
           (opts : poll_options)
| NewLLM (p : provider) (temperature : Q) (modelName : jsstring)
| Invoke (prompt : jsstring)
| ConsoleError (label : jsstring) (error : option js_error).

(** ** LLM responses *)

(** [gptResponse.content] is a string or an array of content blocks. *)
Inductive content_block :=
| TextBlock (text : jsstring)
| OtherBlock.

Inductive message_content :=
| ContentString (s : jsstring)
| ContentBlocks (blocks : list content_block).

(** ** The collaborators *)

(** The behaviour of the outside world: whether constructing the client
    throws, what [llm.invoke] resolves to or rejects with, and whether the
    promise of a [sendPoll] or of a [sendMessage] call, issued after the
    events of the given trace, is rejected.  [bot.sendPoll] is awaited, so
    its rejection is thrown where it is called.  [bot.sendMessage] is never
    awaited: the call only leaves an event, and the handler goes on
    whatever becomes of the promise. *)
Record env := {
  llm_construct : provider -> Q -> jsstring -> option js_error;
  llm_invoke : provider -> Q -> jsstring -> jsstring -> js_error + message_content;
  sendPoll_outcome :
    list event -> Z -> json -> option (list json) -> poll_options -> option js_error;
  sendMessage_outcome : list event -> Z -> jsstring -> option js_error
}.

(** ** Promises the handler does not wait for *)

(** Each call of [bot.sendMessage] (lines 225, 233, 244, 322, 357, 366,
    372 and 379) is a statement of its own: the promise it returns is
    neither awaited nor given a rejection handler, so it is settled after
    the handler has moved on and its rejection is thrown into no [try]
    block.  [unhandled_rejections world pre t] lists, in order, the reasons
    of the promises rejected among the messages of [t], which were sent
    after the events of [pre]. *)
Fixpoint unhandled_rejections (world : env) (pre t : list event) : list js_error :=
  match t with
  | [] => []
  | e :: rest =>
      match e with
      | SendMessage chatId txt =>
          match sendMessage_outcome world pre chatId txt with
          | Some reason => [reason]
          | None => []
          end
      | _ => []
      end ++ unhandled_rejections world (pre ++ [e]) rest
  end.

(** ** Completions and the effect monad *)

Inductive completion (A : Type) :=
| Normal (a : A)
| Throw (e : js_error).
Arguments Normal {A} a.
Arguments Throw {A} e.

(** A computation extends the trace of events and completes normally or
    abruptly. *)
Definition M (A : Type) := list event -> completion A * list event.

Definition ret {A} (a : A) : M A := fun t => (Normal a, t).

Definition bind {A B} (m : M A) (k : A -> M B) : M B :=
  fun t =>
    match m t with
    | (Normal a, t') => k a t'
    | (Throw e, t') => (Throw e, t')
    end.

Definition lift {A} (c : completion A) : M A := fun t => (c, t).

Definition emit (e : event) : M unit := fun t => (Normal tt, t ++ [e]).

(** [try { body } catch (error) { handler error }] *)
Definition try_catch {A} (body : M A) (handler : js_error -> M A) : M A :=
  fun t =>
    match body t with
    | (Normal a, t') => (Normal a, t')
    | (Throw e, t') => handler e t'
    end.

Notation "x <- m ;; k" := (bind m (fun x => k))
  (at level 61, m at next level, right associativity).
Notation "m ;; k" := (bind m (fun _ => k))
  (at level 61, right associativity).

(** ** Truthiness and property access on parsed values *)

(** A parsed number is the double nearest to its decimal value; that double
    is zero exactly when the mantissa is zero or the value does not exceed
    2^-1075, half the smallest subnormal. *)
Definition num_is_zero (mantissa : N) (exp10 : Z) : bool :=
  N.eqb mantissa 0 ||
  ((exp10 <? 0) && (Z.of_N mantissa * 2 ^ 1075 <=? 10 ^ (- exp10))).

(** [!!v]; [None] is [undefined]. *)
Definition truthy (v : option json) : bool :=
  match v with
  | None => false
  | Some JNull => false
  | Some (JBool b) => b
  | Some (JNum _ m e) => negb (num_is_zero m e)
  | Some (JStr s) => match s with [] => false | _ => true end
  | Some (JArr _) => true
  | Some (JObj _) => true
  end.

(** [v == null] *)
Definition nullish (v : option json) : bool :=
  match v with
  | None => true
  | Some JNull => true
  | Some _ => false
  end.

(** The member of an object with the given key, the last one when the key
    is repeated. *)
Fixpoint lookup (key : jsstring) (members : list (jsstring * json)) : option json :=
  match members with
  | [] => None
  | (k, v) :: rest =>
      match lookup key rest with
      | Some v' => Some v'
      | None => if jsstring_eqb k key then Some v else None
      end
  end.

(** [v.key] for the four keys the handler reads, none of which is a
    built-in property of strings, arrays, numbers or booleans: reading a
    property of [null] throws, an object yields its member, any other value
    yields [undefined]. *)
Definition get (v : json) (key : jsstring) : completion (option json) :=
  match v with
  | JNull => Throw (TypeError "cannot read properties of null")
  | JObj members => Normal (lookup key members)
  | _ => Normal None
  end.

(** [option.slice(0, 100)] on an element of [q.options]: strings and arrays
    have [slice]; nothing else does. *)
Definition slice_option (o : json) : completion json :=
  match o with
  | JStr s => Normal (JStr (slice0 100 s))
  | JArr l => Normal (JArr (slice0 100 l))
  | JNull => Throw (TypeError "cannot read properties of null")
  | _ => Throw (TypeError "option.slice is not a function")
  end.

(** [array.map(f)], the callback applied from left to right. *)
Fixpoint map_completion {A B} (f : A -> completion B) (l : list A)
  : completion (list B) :=
  match l with
  | [] => Normal []
  | x :: rest =>
      match f x with
      | Throw e => Throw e
      | Normal y =>
          match map_completion f rest with
          | Throw e => Throw e
          | Normal ys => Normal (y :: ys)
          end
      end
  end.

(** [q.options?.map((option) => option.slice(0, 100))] *)
Definition truncate_options (o : option json) : completion (option (list json)) :=
  match o with
  | None => Normal None
  | Some JNull => Normal None
  | Some (JArr l) =>
      match map_completion slice_option l with
      | Normal l' => Normal (Some l')
      | Throw e => Throw e
      end
  | Some _ => Throw (TypeError "q.options.map is not a function")
  end.

(** [questionText?.slice(0, 200) || ""] *)
Definition poll_question (questionText : option json) : completion json :=
  match questionText with
  | None => Normal (JStr [])
  | Some JNull => Normal (JStr [])
  | Some (JStr s) =>
      let r := JStr (slice0 200 s) in
      Normal (if truthy (Some r) then r else JStr [])
  | Some (JArr l) =>
      let r := JArr (slice0 200 l) in
      Normal (if truthy (Some r) then r else JStr [])
  | Some _ => Throw (TypeError "questionText.slice is not a function")
  end.

(** The iteration of a string yields its code points: a high surrogate
    followed by a low surrogate is one element. *)
Fixpoint code_points (s : jsstring) : list jsstring :=
  match s with
  | [] => []
  | c :: r =>
      match r with
      | d :: r' =>
          if (N.leb 55296 c && N.leb c 56319 && N.leb 56320 d && N.leb d 57343)%bool
          then [c; d] :: code_points r'
          else [c] :: code_points r
      | [] => [[c]]
      end
  end.

(** The elements [for (const q of questions)] visits: arrays and strings
    are iterable, no other parsed value is. *)
Definition iterate (questions : json) : completion (list json) :=
  match questions with
  | JArr l => Normal l
  | JStr s => Normal (map JStr (code_points s))
  | _ => Throw (TypeError "questions is not iterable")
  end.

(** [`${questions.length}`] *)
Definition length_text (questions : json) : jsstring :=
  match questions with
  | JArr l => of_nat (List.length l)
  | JStr s => of_nat (List.length s)
  | _ => lit "undefined"
  end.

(** ** Texts of the source *)

Definition trigger : jsstring := lit "/make_mcq".

Definition missing_content_text : jsstring :=
  lit "Please provide the content to generate MCQ questions from.".

Definition missing_model_text : jsstring :=
  lit "Please provide the model name to generate MCQ questions from.".

Definition invalid_model_text : jsstring :=
  lit "Please provide a valid model name to generate MCQ questions from.".

Definition invalid_json_text : jsstring :=
  lit "Sorry, the AI returned invalid JSON. Please try again.".

Definition generation_failed_text : jsstring :=
  lit "Oops, something went wrong while generating MCQs.".

Definition poll_failed_prefix : jsstring :=
  lit "Oops, something went wrong while sending the poll: ".

Definition summary_prefix : jsstring := lit "Done! I have created ".
Definition summary_suffix : jsstring := lit " MCQ question polls.".

Definition summary_text (questions : json) : jsstring :=
  summary_prefix ++ length_text questions ++ summary_suffix.

Definition help_prefix : jsstring :=
  lit "Hello! Use /make_mcq <model> <prompt> to generate MCQs, supported models are: 

 ".

Definition prompt_head : jsstring := litq "
            You are a test question generator. 
            Given the following content, instructions create multiple-choice questions in JSON format. 
            Each question should have:
              - question: The question text
              - options: An array of possible answers
              - correctOptionIndex: The index (0-based) of the correct answer in the options array
              - explanation: Explanation of the correct answer
            Content:
            ".

Definition prompt_tail : jsstring := litq "
      
            Return ONLY valid JSON; do not include additional text.
            Example of the JSON structure:
            [
              {
                'question': 'Sample question?',
                'options': ['Option A', 'Option B', 'Option C', 'Option D'],
                'correctOptionIndex': 2,
                'explanation': 'Explanation of the correct answer'
              },
              ...
            ]
          ".

(** The prompt template with the user's content spliced in. *)
Definition build_prompt (content : jsstring) : jsstring :=
  prompt_head ++ content ++ prompt_tail.

(** ** The handler *)

Section Handler.

(** The table exported by [./zod_stuff], which is not among the sources. *)
Variable supportedModels : list jsstring.

(** [String.prototype.toLowerCase], the Unicode case mapping. *)
Variable toLowerCase : jsstring -> jsstring.

(** [error.toString()] *)
Variable error_toString : js_error -> jsstring.

Variable world : env.

(** [supportedModels.find((model) => model.toLowerCase() ===
    modelName.toLowerCase())] *)
Definition find_model (modelName : jsstring) : option jsstring :=
  find (fun model => jsstring_eqb (toLowerCase model) (toLowerCase modelName))
       supportedModels.

(** The provider and the sampling temperature chosen for a model name. *)
Definition llm_config (parsedModelName : jsstring) : provider * Q :=
  if includes (lit "claude") parsedModelName
  then (Anthropic, 7 # 10)
  else (OpenAI,
        if jsstring_eqb parsedModelName (lit "o1-preview") then 1%Q else 7 # 10).

(** [new ChatAnthropic({...})] or [new ChatOpenAI({...})] *)
Definition new_llm (parsedModelName : jsstring) : M (provider * Q * jsstring) :=
  let '(p, temperature) := llm_config parsedModelName in
  emit (NewLLM p temperature parsedModelName) ;;
  match llm_construct world p temperature parsedModelName with
  | Some e => lift (Throw e)
  | None => ret (p, temperature, parsedModelName)
  end.

(** [await llm.invoke(prompt)] *)
Definition invoke (llm : provider * Q * jsstring) (prompt : jsstring)
  : M message_content :=
  let '(p, temperature, modelName) := llm in
  emit (Invoke prompt) ;;
  match llm_invoke world p temperature modelName prompt with
  | inl e => lift (Throw e)
  | inr content => ret content
  end.

(** The text of the response: the content itself when it is a string, else
    the text of the first block when that is a text block, else the empty
    string.  Reading the type of the first block of an empty array throws. *)
Definition response_text (content : message_content) : completion jsstring :=
  match content with
  | ContentString s => Normal s
  | ContentBlocks [] => Throw (TypeError "cannot read properties of undefined")
  | ContentBlocks (TextBlock s :: _) => Normal s
  | ContentBlocks (OtherBlock :: _) => Normal []
  end.

(** [text.substring(text.indexOf("["), text.lastIndexOf("]") + 1)] *)
Definition json_text (text : jsstring) : jsstring :=
  substring text (indexOf 91%N text) (lastIndexOf 93%N text + 1).

(** The body of the inner [try] that assigns [questions]. *)
Definition extract_questions (content : message_content) : completion json :=
  match response_text content with
  | Throw e => Throw e
  | Normal text =>
      match parse (json_text text) with
      | Some questions => Normal questions
      | None => Throw SyntaxError
      end
  end.

(** [await bot.sendPoll(chatId, question, options, opts)] *)
Definition sendPoll (chatId : Z) (question : json) (options : option (list json))
                    (opts : poll_options) : M unit :=
  fun t =>
    match sendPoll_outcome world t chatId question options opts with
    | None => (Normal tt, t ++ [SendPoll chatId question options opts])
    | Some e => (Throw e, t ++ [SendPoll chatId question options opts])
    end.

(** The body of the [for] loop for one element [q] of [questions]. *)
Definition process_question (chatId : Z) (q : json) : M unit :=
  questionText <- lift (get q (lit "question")) ;;
  rawOptions <- lift (get q (lit "options")) ;;
  options <- lift (truncate_options rawOptions) ;;
  correctOptionIndex <- lift (get q (lit "correctOptionIndex")) ;;
  explanation <- lift (get q (lit "explanation")) ;;
  if negb (truthy questionText)
     || match options with None => true | Some _ => false end
     || nullish correctOptionIndex
  then ret tt
  else
    try_catch
      (question <- lift (poll_question questionText) ;;
       sendPoll chatId question options
         {| type_ := lit "quiz";
            correct_option_id := correctOptionIndex;
            explanation := explanation;
            is_anonymous := false |})
      (fun error =>
         emit (ConsoleError (lit "Error sending poll:") (Some error)) ;;
         emit (SendMessage chatId (poll_failed_prefix ++ error_toString error))).

(** [for (const q of questions) { ... }] over the elements visited. *)
Fixpoint process_questions (chatId : Z) (qs : list json) : M unit :=
  match qs with
  | [] => ret tt
  | q :: rest => process_question chatId q ;; process_questions chatId rest
  end.

(** The loop followed by the summary message. *)
Definition dispatch (chatId : Z) (questions : json) : M unit :=
  qs <- lift (iterate questions) ;;
  process_questions chatId qs ;;
  emit (SendMessage chatId (summary_text questions)).

(** The outer [try] of the command branch: invocation, extraction,
    dispatch and summary, with its [catch]. *)
Definition generate (chatId : Z) (llm : provider * Q * jsstring)
                    (prompt : jsstring) : M unit :=
  try_catch
    (gptResponse <- invoke llm prompt ;;
     match extract_questions gptResponse with
     | Throw _ =>
         emit (ConsoleError (lit "Failed to parse JSON from GPT:") None) ;;
         emit (SendMessage chatId invalid_json_text)
     | Normal questions => dispatch chatId questions
     end)
    (fun err =>
       emit (ConsoleError (lit "Error creating MCQ via GPT:") (Some err)) ;;
       emit (SendMessage chatId generation_failed_text)).

(** The branch taken when the text starts with the trigger. *)
Definition make_mcq (chatId : Z) (text : jsstring) : M unit :=
  match split 32%N text with
  | _ :: numQsStr :: contentArr =>
      let modelName := nth 0 (split 32%N numQsStr) [] in
      let content := join (lit " ") contentArr in
      match content with
      | [] => emit (SendMessage chatId missing_content_text)
      | _ :: _ =>
          match modelName with
          | [] => emit (SendMessage chatId missing_model_text)
          | _ :: _ =>
              match find_model modelName with
              | None => emit (SendMessage chatId invalid_model_text)
              | Some [] => emit (SendMessage chatId invalid_model_text)
              | Some parsedModelName =>
                  llm <- new_llm parsedModelName ;;
                  generate chatId llm (build_prompt content)
              end
          end
      end
  | _ =>
      (* [numQsStr] is [undefined]: [numQsStr.split] throws *)
      lift (Throw (TypeError "cannot read properties of undefined"))
  end.

(** The text of the fallback reply. *)
Definition help_text : jsstring :=
  help_prefix ++ join (lit ", ") supportedModels.

(** The body of the top-level [try]. *)
Definition on_message_body (msg : message) : M unit :=
  let chatId := chat_id msg in
  match text msg with
  | None => ret tt
  | Some [] => ret tt
  | Some text =>
      if startsWith trigger text
      then make_mcq chatId text
      else emit (SendMessage chatId help_text)
  end.

(** [bot.on("message", async (msg) => { try { ... } catch (error) {
    console.error("Error processing message:", error); } })] *)
Definition on_message (msg : message) : M unit :=
  try_catch (on_message_body msg)
    (fun error =>
       emit (ConsoleError (lit "Error processing message:") (Some error))).

End Handler.

End Bot.

(* ================================================================== *)
(** * Concrete collaborators, for running the handler *)
(* ================================================================== *)

Module Demo.
Import JS JSON Bot.

(** Modelled from the spec: the model table of [./zod_stuff] is not among
    the sources; this instance holds the identifier the spec's scenarios
    use, the reasoning-tier identifier the handler names, and one
    identifier of the alternate provider. *)
Definition demo_models : list jsstring :=
  [lit "gpt-4o"; lit "o1-preview"; lit "claude-3-5-sonnet-latest"].

(** The case mapping restricted to the letters A-Z; it agrees with
    [toLowerCase] on every text made of ASCII characters. *)
Definition ascii_toLowerCase (s : jsstring) : jsstring :=
  map (fun c => if (N.leb 65 c && N.leb c 90)%bool then (c + 32)%N else c) s.

(** A rendering of error values. *)
Definition show_error (e : js_error) : jsstring :=
  match e with
  | TypeError what => lit "TypeError: " ++ lit what
  | SyntaxError => lit "SyntaxError"
  | ExternalError description => lit "Error: " ++ description
  end.

Definition polls_in (t : list event) : nat :=
  List.length (filter (fun e => match e with SendPoll _ _ _ _ => true | _ => false end) t).

(** A world whose LLM answers [response] and whose transport rejects the
    poll sends with the given indices (counted from 0). *)
Definition scripted (response : message_content) (rejected : list nat) : env :=
  {| llm_construct := fun _ _ _ => None;
     llm_invoke := fun _ _ _ _ => inr response;
     sendPoll_outcome := fun t _ _ _ _ =>
       if existsb (Nat.eqb (polls_in t)) rejected
       then Some (ExternalError (lit "ETELEGRAM: 400 Bad Request"))
       else None;
     sendMessage_outcome := fun _ _ _ => None |}.

(** The handler run on a text message from chat 1, from the empty trace. *)
Definition run (w : env) (text : jsstring) : completion unit * list event :=
  on_message demo_models ascii_toLowerCase show_error w
             {| chat_id := 1; text := Some text |} [].

(** A record whose index is a string. *)
Definition record_with_text_index : json :=
  JObj [(lit "question", JStr (lit "Q"));
        (lit "options", JArr [JStr (lit "A"); JStr (lit "B")]);
        (lit "correctOptionIndex", JStr (lit "zero"))].

(** Four records: a question with an index beyond its options, one with
    null options, one whose question is a number, and a complete one. *)
Definition sample_records : list json :=
  [JObj [(lit "question", JStr (lit "Q1"));
         (lit "options", JArr [JStr (lit "A"); JStr (lit "B")]);
         (lit "correctOptionIndex", JNum false 7 0)];
   JObj [(lit "question", JStr (lit "Q2"));
         (lit "options", JNull);
         (lit "correctOptionIndex", JNum false 0 0)];
   JObj [(lit "question", JNum false 5 0);
         (lit "options", JArr [JStr (lit "A"); JStr (lit "B")]);
         (lit "correctOptionIndex", JNum false 0 0)];
   JObj [(lit "question", JStr (lit "Q4"));
         (lit "options", JArr [JStr (lit "C"); JStr (lit "D")]);
         (lit "correctOptionIndex", JNum false 1 0);
         (lit "explanation", JStr (lit "because"))]].

(** Two validated questions, the first with an index beyond its options. *)
Definition validated_records : list json :=
  [nth 0 sample_records JNull; nth 3 sample_records JNull].

End Demo.

(* ================================================================== *)
(** * Vocabulary of the properties *)
(* ================================================================== *)

Module Spec.
Import JS JSON Bot.

(** The value of [q.key] when reading it does not throw. *)
Definition field (q : json) (key : jsstring) : option json :=
  match q with
  | JObj members => lookup key members
  | _ => None
  end.

Definition is_null (q : json) : bool :=
  match q with JNull => true | _ => false end.

(** The values that have a [slice] method. *)
Definition sliceable (v : json) : bool :=
  match v with
  | JStr _ => true
  | JArr _ => true
  | _ => false
  end.

(** [q.options] is absent, null, or an array whose elements can be
    sliced (strings, as the source expects, or arrays). *)
Definition options_shaped (q : json) : bool :=
  match field q (lit "options") with
  | None => true
  | Some JNull => true
  | Some (JArr l) => forallb sliceable l
  | Some _ => false
  end.

(** A record the loop can read without raising outside its per-item
    [try]: it is not [null] and its options are shaped. *)
Definition readable (q : json) : bool :=
  negb (is_null q) && options_shaped q.

(** The condition of the [continue]: the question is absent, null or
    otherwise falsy, or the options or the index are absent or null. *)
Definition missing_data (q : json) : bool :=
  negb (truthy (field q (lit "question")))
  || nullish (field q (lit "options"))
  || nullish (field q (lit "correctOptionIndex")).

(** A record that reaches [bot.sendPoll]. *)
Definition survives (q : json) : bool :=
  negb (missing_data q)
  && match field q (lit "question") with
     | Some v => sliceable v
     | None => false
     end.

(** A validated question: readable, and it survives the checks. *)
Definition validated (q : json) : bool := readable q && survives q.

(** The length of a string or an array. *)
Definition size (v : json) : nat :=
  match v with
  | JStr s => List.length s
  | JArr l => List.length l
  | _ => O
  end.

Definition truncated (n : nat) (v : json) : json :=
  match v with
  | JStr s => JStr (firstn n s)
  | JArr l => JArr (firstn n l)
  | _ => v
  end.

Definition entity_question (q : json) : json :=
  match field q (lit "question") with
  | Some v => truncated 200 v
  | None => JStr []
  end.

Definition entity_options (q : json) : list json :=
  match field q (lit "options") with
  | Some (JArr l) => map (truncated 100) l
  | _ => []
  end.

Definition entity_config (q : json) : poll_options :=
  {| type_ := lit "quiz";
     correct_option_id := field q (lit "correctOptionIndex");
     explanation := field q (lit "explanation");
     is_anonymous := false |}.

(** The poll a surviving record is dispatched as. *)
Definition poll_of (chatId : Z) (q : json) : event :=
  SendPoll chatId (entity_question q) (Some (entity_options q)) (entity_config q).

Definition is_poll (e : event) : bool :=
  match e with SendPoll _ _ _ _ => true | _ => false end.

(** The poll sends of a trace, in order. *)
Definition polls (t : list event) : list event := filter is_poll t.

(** The messages of a trace, in order. *)
Definition messages (t : list event) : list jsstring :=
  flat_map (fun e => match e with SendMessage _ txt => [txt] | _ => [] end) t.

Definition is_summary (e : event) : bool :=
  match e with
  | SendMessage _ txt => startsWith summary_prefix txt
  | _ => false
  end.

(** What a limit of [n] bounds.  A text holds at most [n] characters
    (UTF-16 code units, which is what [length] counts and [slice] cuts).
    An array, which has a [slice] method as well, holds at most [n]
    elements, whatever the length of each.  No other value is within a
    limit. *)
Definition bounded (n : nat) (v : json) : Prop :=
  match v with
  | JStr s => (List.length s <= n)%nat
  | JArr l => (List.length l <= n)%nat
  | _ => False
  end.

(** The channel limits hold for a poll send: the question is bounded by
    200, the options are defined and each is bounded by 100. *)
Definition within_limits (e : event) : Prop :=
  match e with
  | SendPoll _ question (Some options) _ =>
      bounded 200 question /\ Forall (bounded 100) options
  | _ => False
  end.

(** [s] contains [p]: some text before, [p], some text after. *)
Definition contains (p s : jsstring) : Prop :=
  exists before after, s = before ++ p ++ after.

(** [s] is [r] with something before it whose last character is a digit. *)
Definition ends_with_digit (s r : jsstring) : Prop :=
  exists pre d, s = pre ++ d :: r /\ is_digit d = true.

(** The events the loop over the questions can leave: poll sends, console
    output, and per-item failure messages. *)
Definition is_loop_event (e : event) : bool :=
  match e with
  | SendPoll _ _ _ _ => true
  | ConsoleError _ _ => true
  | SendMessage _ txt => startsWith poll_failed_prefix txt
  | _ => false
  end.

(** The events the generation stage can leave: the invocation, what the
    loop leaves, console output, and messages other than the help text. *)
Definition is_generate_event (e : event) : bool :=
  match e with
  | Invoke _ => true
  | SendPoll _ _ _ _ => true
  | ConsoleError _ _ => true
  | SendMessage _ txt => negb (startsWith help_prefix txt)
  | NewLLM _ _ _ => false
  end.

(** The events the command branch can leave: those of the generation
    stage, and the construction of the client for a model of the table,
    with the provider and temperature of [llm_config]. *)
Definition command_event (supportedModels : list jsstring) (e : event) : Prop :=
  is_generate_event e = true \/
  exists m, In m supportedModels /\
            e = NewLLM (fst (llm_config m)) (snd (llm_config m)) m.

(** The construction of an LLM client. *)
Definition is_construction (e : event) : bool :=
  match e with NewLLM _ _ _ => true | _ => false end.

(** Two worlds that agree on the client [(p, temperature, name)], on
    constructing it and on what it answers to every prompt, and on the
    transport; they may differ in everything any other client does. *)
Definition same_client (w w' : env) (p : provider) (temperature : Q)
                       (name : jsstring) : Prop :=
  llm_construct w' p temperature name = llm_construct w p temperature name /\
  (forall prompt,
      llm_invoke w' p temperature name prompt =
      llm_invoke w p temperature name prompt) /\
  (forall t chatId question options opts,
      sendPoll_outcome w' t chatId question options opts =
      sendPoll_outcome w t chatId question options opts).

Section Reports.

Variable error_toString : js_error -> jsstring.
Variable world : env.

(** What the [catch] of a poll send leaves: the console line and the chat
    message naming the error. *)
Definition failure_report (chatId : Z) (e : js_error) : list event :=
  [ConsoleError (lit "Error sending poll:") (Some e);
   SendMessage chatId (poll_failed_prefix ++ error_toString e)].

(** The transport's answer to the poll of [q], sent after trace [t]. *)
Definition outcome_of (chatId : Z) (t : list event) (q : json) : option js_error :=
  sendPoll_outcome world t chatId
    (entity_question q) (Some (entity_options q)) (entity_config q).

(** One send attempt: the poll, then the failure report if it was
    rejected. *)
Definition attempt (chatId : Z) (q : json) (o : option js_error) : list event :=
  poll_of chatId q ::
  match o with
  | None => []
  | Some e => failure_report chatId e
  end.

(** The attempts for a sequence of questions, one after the other. *)
Fixpoint attempts (chatId : Z) (t : list event) (qs : list json) : list event :=
  match qs with
  | [] => []
  | q :: rest =>
      let new := attempt chatId q (outcome_of chatId t q) in
      new ++ attempts chatId (t ++ new) rest
  end.

End Reports.

End Spec.

(* ================================================================== *)
(** * Vocabulary of the further properties *)
(* ================================================================== *)

Module Observe.
Import JS JSON Bot Spec.

(** A value that has a [slice] method and holds at most [n] elements. *)
Definition fits (n : nat) (v : json) : Prop :=
  sliceable v = true /\ (size v <= n)%nat.

(** What every outbound event must satisfy: a message or a poll goes to
    the chat [chatId]; a poll carries a question of at most 200 elements,
    a defined list of options of at most 100 elements each, the kind
    [quiz], no anonymity, and a correct option that is neither [null] nor
    [undefined]. *)
Definition sound (chatId : Z) (e : event) : Prop :=
  match e with
  | SendMessage c _ => c = chatId
  | SendPoll c question options opts =>
      c = chatId /\
      fits 200 question /\
      (exists l, options = Some l /\ Forall (fits 100) l) /\
      type_ opts = lit "quiz" /\
      is_anonymous opts = false /\
      nullish (correct_option_id opts) = false
  | _ => True
  end.

(** The events that are not about the LLM client: messages, polls and
    console output. *)
Definition is_reply_event (e : event) : bool :=
  match e with
  | SendMessage _ _ => true
  | SendPoll _ _ _ _ => true
  | ConsoleError _ _ => true
  | NewLLM _ _ _ => false
  | Invoke _ => false
  end.

Definition sound_reply (chatId : Z) (e : event) : Prop :=
  sound chatId e /\ is_reply_event e = true.

(** The console line of the top-level [catch]. *)
Definition top_level_log (e : js_error) : event :=
  ConsoleError (lit "Error processing message:") (Some e).

End Observe.

(* ================================================================== *)
(** * The first handler: a number of questions instead of a model *)
(* ================================================================== *)

(** The earlier [index.ts]: the second token of the command is the number
    of questions, the LLM client is a module-level constant, the polls
    are sent without truncation and without a [try] of their own, and the
    handler has no top-level [try]. *)
Module BotV1.
Import JS JSON Spec.

(** The last argument of [bot.sendPoll]. *)
Record poll_options := {
  type_ : jsstring;
  correct_option_id : option json;
  explanation : jsstring;
  is_anonymous : bool
}.

(** What the handler does to the outside world; [ConsoleLog] is the
    [console.log] of the response. *)
Inductive event :=
| SendMessage (chatId : Z) (text : jsstring)
| SendPoll (chatId : Z) (question : option json) (options : option json)
           (opts : poll_options)
| Invoke (prompt : jsstring)
| ConsoleLog (label : jsstring)
| ConsoleError (label : jsstring) (error : option Bot.js_error).

(** The behaviour of the outside world: the text of the response
    ([gptResponse.text], [None] when it is [undefined]) or the rejection of
    [llm.invoke]; the text of [options[correctOptionIndex]] inside the
    template literal of the explanation, or what the conversion throws;
    and whether a [sendPoll] call is rejected. *)
Record env := {
  llm_invoke : jsstring -> Bot.js_error + option jsstring;
  answer_text : option json -> option json -> Bot.js_error + jsstring;
  sendPoll_outcome :
    list event -> Z -> option json -> option json -> poll_options ->
    option Bot.js_error
}.

Definition M (A : Type) := list event -> Bot.completion A * list event.

Definition ret {A} (a : A) : M A := fun t => (Bot.Normal a, t).

Definition bind {A B} (m : M A) (k : A -> M B) : M B :=
  fun t =>
    match m t with
    | (Bot.Normal a, t') => k a t'
    | (Bot.Throw e, t') => (Bot.Throw e, t')
    end.

Definition lift {A} (c : Bot.completion A) : M A := fun t => (c, t).

Definition emit (e : event) : M unit := fun t => (Bot.Normal tt, t ++ [e]).

Definition try_catch {A} (body : M A) (handler : Bot.js_error -> M A) : M A :=
  fun t =>
    match body t with
    | (Bot.Normal a, t') => (Bot.Normal a, t')
    | (Bot.Throw e, t') => handler e t'
    end.

Notation "x <- m ;; k" := (bind m (fun x => k))
  (at level 61, m at next level, right associativity).
Notation "m ;; k" := (bind m (fun _ => k))
  (at level 61, right associativity).

(** ** [parseInt(numQsStr, 10) || 10] *)

(** White space and line terminators, which [parseInt] skips at the start
    of its argument. *)
Definition is_js_whitespace (c : code_unit) : bool :=
  existsb (N.eqb c)
    [9; 10; 11; 12; 13; 32; 160; 5760; 8232; 8233; 8239; 8287; 12288; 65279]%N
  || (N.leb 8192 c && N.leb c 8202).

Fixpoint trim_start (s : jsstring) : jsstring :=
  match s with
  | [] => []
  | c :: r => if is_js_whitespace c then trim_start r else s
  end.

(** [parseInt(s, 10)]: the sign and the magnitude of the integer written
    at the start of [s], after white space and an optional sign; [None] is
    [NaN].  The argument [undefined] is read as the text [undefined]. *)
Definition parseInt10 (arg : option jsstring) : option (bool * N) :=
  let s := match arg with Some s => s | None => lit "undefined" end in
  let s1 := trim_start s in
  let '(negative, s2) :=
    match s1 with
    | c :: r =>
        if N.eqb c 45 then (true, r)
        else if N.eqb c 43 then (false, r)
        else (false, s1)
    | [] => (false, s1)
    end in
  match take_digits s2 with
  | ([], _) => None
  | (ds, _) => Some (negative, digits_value ds)
  end.

(** [parseInt(numQsStr, 10) || 10]: [NaN] and zero give 10. *)
Definition num_questions (numQsStr : option jsstring) : bool * N :=
  match parseInt10 numQsStr with
  | None => (false, 10%N)
  | Some (negative, n) => if N.eqb n 0 then (false, 10%N) else (negative, n)
  end.

(** ** Texts of the source *)

Definition help_text : jsstring :=
  lit "Hello! Use /make_mcq <number> <content> to generate MCQs.".

Definition answer_prefix : jsstring := lit "The correct answer is: ".

Definition prompt_head : jsstring := litq "
      You are a test question generator. 
      Given the following content, create ".

Definition prompt_middle : jsstring := litq " multiple-choice questions in JSON format. 
      Each question should have:
        - question: The question text
        - options: An array of possible answers
        - correctOptionIndex: The index (0-based) of the correct answer in the options array

      Content:
      ".

Definition prompt_tail : jsstring := litq "

      Return ONLY valid JSON; do not include additional text.
      Example of the JSON structure:
      [
        {
          'question': 'Sample question?',
          'options': ['Option A', 'Option B', 'Option C', 'Option D'],
          'correctOptionIndex': 2
        },
        ...
      ]
    ".

Section Handler.

(** The text a template literal gives for a number whose magnitude is
    2^53 or more, where the number is no longer the integer that was
    written. *)
Variable big_number_text : bool -> N -> jsstring.

Variable world : env.

(** [`${numQuestions}`] *)
Definition number_text (number : bool * N) : jsstring :=
  let '(negative, n) := number in
  if N.ltb n 9007199254740992
  then (if negative then lit "-" else []) ++
       lit (NilZero.string_of_uint (N.to_uint n))
  else big_number_text negative n.

Definition build_prompt (numQuestions : bool * N) (content : jsstring) : jsstring :=
  prompt_head ++ number_text numQuestions ++ prompt_middle ++ content ++ prompt_tail.

(** [await llm.invoke(prompt)], followed by the [console.log] of the
    response. *)
Definition invoke (prompt : jsstring) : M (option jsstring) :=
  emit (Invoke prompt) ;;
  match llm_invoke world prompt with
  | inl e => lift (Bot.Throw e)
  | inr text => emit (ConsoleLog (lit "response?")) ;; ret text
  end.

(** The body of the inner [try] that assigns [questions]. *)
Definition extract_questions (text : option jsstring) : Bot.completion json :=
  match text with
  | None => Bot.Throw (Bot.TypeError "cannot read properties of undefined")
  | Some text =>
      match parse (Bot.json_text text) with
      | Some questions => Bot.Normal questions
      | None => Bot.Throw Bot.SyntaxError
      end
  end.

(** [await bot.sendPoll(chatId, questionText, options, opts)] *)
Definition sendPoll (chatId : Z) (question options : option json)
                    (opts : poll_options) : M unit :=
  fun t =>
    match sendPoll_outcome world t chatId question options opts with
    | None => (Bot.Normal tt, t ++ [SendPoll chatId question options opts])
    | Some e => (Bot.Throw e, t ++ [SendPoll chatId question options opts])
    end.

(** The body of the [for] loop for one element [q] of [questions]. *)
Definition process_question (chatId : Z) (q : json) : M unit :=
  questionText <- lift (Bot.get q (lit "question")) ;;
  options <- lift (Bot.get q (lit "options")) ;;
  correctOptionIndex <- lift (Bot.get q (lit "correctOptionIndex")) ;;
  if negb (Bot.truthy questionText)
     || negb (Bot.truthy options)
     || Bot.nullish correctOptionIndex
  then ret tt
  else
    match answer_text world options correctOptionIndex with
    | inl e => lift (Bot.Throw e)
    | inr answer =>
        sendPoll chatId questionText options
          {| type_ := lit "quiz";
             correct_option_id := correctOptionIndex;
             explanation := answer_prefix ++ answer;
             is_anonymous := false |}
    end.

Fixpoint process_questions (chatId : Z) (qs : list json) : M unit :=
  match qs with
  | [] => ret tt
  | q :: rest => process_question chatId q ;; process_questions chatId rest
  end.

(** The [try] of the command branch, with its [catch]. *)
Definition generate (chatId : Z) (prompt : jsstring) : M unit :=
  try_catch
    (gptResponse <- invoke prompt ;;
     match extract_questions gptResponse with
     | Bot.Throw _ =>
         emit (ConsoleError (lit "Failed to parse JSON from GPT:") None) ;;
         emit (SendMessage chatId Bot.invalid_json_text)
     | Bot.Normal questions =>
         qs <- lift (Bot.iterate questions) ;;
         process_questions chatId qs ;;
         emit (SendMessage chatId (Bot.summary_text questions))
     end)
    (fun err =>
       emit (ConsoleError (lit "Error creating MCQ via GPT:") (Some err)) ;;
       emit (SendMessage chatId Bot.generation_failed_text)).

(** [bot.on('message', async (msg) => { ... })] *)
Definition on_message (msg : Bot.message) : M unit :=
  let chatId := Bot.chat_id msg in
  match Bot.text msg with
  | None => ret tt
  | Some [] => ret tt
  | Some text =>
      if startsWith Bot.trigger text then
        let parts := split 32%N text in
        let numQsStr := nth_error parts 1 in
        let contentArr := skipn 2 parts in
        let numQuestions := num_questions numQsStr in
        let content := join (lit " ") contentArr in
        match content with
        | [] => emit (SendMessage chatId Bot.missing_content_text)
        | _ :: _ => generate chatId (build_prompt numQuestions content)
        end
      else emit (SendMessage chatId help_text)
  end.

End Handler.

(** ** Vocabulary of its properties *)

Definition is_poll (e : event) : bool :=
  match e with SendPoll _ _ _ _ => true | _ => false end.

Definition polls (t : list event) : list event := filter is_poll t.

(** A record that passes the checks of the loop. *)
Definition passes (q : json) : bool :=
  negb (is_null q)
  && Bot.truthy (field q (lit "question"))
  && Bot.truthy (field q (lit "options"))
  && negb (Bot.nullish (field q (lit "correctOptionIndex"))).

End BotV1.

(* ================================================================== *)
(** * More concrete collaborators *)
(* ================================================================== *)

Module Demo2.
Import JS JSON Bot Demo.

(** A world whose LLM rejects every invocation. *)
Definition overloaded : env :=
  {| llm_construct := fun _ _ _ => None;
     llm_invoke := fun _ _ _ _ => inl (ExternalError (lit "429 Too Many Requests"));
     sendPoll_outcome := fun _ _ _ _ _ => None;
     sendMessage_outcome := fun _ _ _ => None |}.

(** A world in which constructing the client throws. *)
Definition keyless : env :=
  {| llm_construct := fun _ _ _ => Some (ExternalError (lit "API key not found"));
     llm_invoke := fun _ _ _ _ => inr (ContentString []);
     sendPoll_outcome := fun _ _ _ _ _ => None;
     sendMessage_outcome := fun _ _ _ => None |}.

(** A world whose transport delivers no message: the user has blocked the
    bot, so every [sendMessage] promise is rejected. *)
Definition blocked : env :=
  {| llm_construct := fun _ _ _ => None;
     llm_invoke := fun _ _ _ _ => inr (ContentString (lit "[]"));
     sendPoll_outcome := fun _ _ _ _ _ => None;
     sendMessage_outcome := fun _ _ _ =>
       Some (ExternalError
               (lit "ETELEGRAM: 403 Forbidden: bot was blocked by the user")) |}.

(** A world in which only a client of the given provider, temperature and
    model answers, with [response]; every other client rejects the
    invocation. *)
Definition only_client (p : provider) (temperature : Q) (name : jsstring)
                       (response : message_content) : env :=
  {| llm_construct := fun _ _ _ => None;
     llm_invoke := fun p' temperature' name' _ =>
       match p, p' with
       | Anthropic, Anthropic | OpenAI, OpenAI =>
           if (Qeq_bool temperature temperature' && jsstring_eqb name name')%bool
           then inr response
           else inl (ExternalError (lit "404 model not found"))
       | _, _ => inl (ExternalError (lit "401 Unauthorized"))
       end;
     sendPoll_outcome := fun _ _ _ _ _ => None;
     sendMessage_outcome := fun _ _ _ => None |}.

(** A command whose content holds a double space and a trailing space. *)
Definition spaced_content : jsstring := lit "The  water cycle ".

Definition spaced_command : message :=
  {| chat_id := 1; text := Some (lit "/make_mcq gpt-4o The  water cycle ") |}.

(** A command that names the alternate provider's model in another case. *)
Definition claude_command : message :=
  {| chat_id := 1; text := Some (lit "/make_mcq Claude-3-5-Sonnet-Latest x") |}.

(** A response with one complete question. *)
Definition one_question : message_content :=
  ContentString
    (litq "[{'question':'Q','options':['A','B'],'correctOptionIndex':1}]").

(** A text that is not a command. *)
Definition greeting : message := {| chat_id := 1; text := Some (lit "hello") |}.

(** A response whose second record is [null]. *)
Definition null_in_the_middle : message_content :=
  ContentString
    (litq "[{'question':'Q1','options':['A','B'],'correctOptionIndex':7},null,{'question':'Q4','options':['C','D'],'correctOptionIndex':1,'explanation':'because'}]").

(** The members of a complete record. *)
Definition complete_members : list (jsstring * json) :=
  [(lit "question", JStr (lit "Q4"));
   (lit "options", JArr (map JStr [lit "C"; lit "D"]));
   (lit "correctOptionIndex", JNum false 1 0);
   (lit "explanation", JStr (lit "because"))].

(** A world for the first handler: the LLM answers [response], the text of
    the answer is [B], and the transport rejects the poll sends with the
    given indices. *)
Definition scripted1 (response : option jsstring) (rejected : list nat) : BotV1.env :=
  {| BotV1.llm_invoke := fun _ => inr response;
     BotV1.answer_text := fun _ _ => inr (lit "B");
     BotV1.sendPoll_outcome := fun t _ _ _ _ =>
       if existsb (Nat.eqb (List.length (BotV1.polls t))) rejected
       then Some (ExternalError (lit "ETELEGRAM: 400 Bad Request"))
       else None |}.

(** A rendering of the numbers beyond 2^53; no run below reaches it. *)
Definition no_big_number (negative : bool) (n : N) : jsstring := lit "Infinity".

End Demo2.

(* ================================================================== *)
(** * Properties *)
(* ================================================================== *)

Import JS JSON Bot Spec.

Arguments lit : simpl never.

(** ** Strings *)

Lemma jsstring_eqb_eq (a b : jsstring) : jsstring_eqb a b = true <-> a = b.
Proof.
  unfold jsstring_eqb. destruct (list_eq_dec N.eq_dec a b); split; congruence.
Qed.

Lemma jsstring_eqb_refl (a : jsstring) : jsstring_eqb a a = true.
Proof. now apply jsstring_eqb_eq. Qed.

Lemma startsWith_app (p s : jsstring) : startsWith p (p ++ s) = true.
Proof.
  induction p as [|a p IH]; simpl; [reflexivity|].
  now rewrite N.eqb_refl, IH.
Qed.

Lemma startsWith_prefix (p s : jsstring) :
  startsWith p s = true -> exists rest, s = p ++ rest.
Proof.
  revert s. induction p as [|a p IH]; intros s H.
  - now exists s.
  - destruct s as [|b s]; simpl in H; [discriminate|].
    apply andb_true_iff in H. destruct H as [Hab Hp].
    apply N.eqb_eq in Hab. subst b.
    destruct (IH _ Hp) as [rest ->]. now exists rest.
Qed.

Lemma includes_unfold (p s : jsstring) :
  includes p s =
  startsWith p s || match s with [] => false | _ :: s' => includes p s' end.
Proof. destruct s; reflexivity. Qed.

Lemma includes_contains (p s : jsstring) :
  includes p s = true <-> contains p s.
Proof.
  split.
  - induction s as [|c s IH]; simpl; intros H.
    + rewrite orb_false_r in H. apply startsWith_prefix in H.
      destruct H as [rest E]. exists [], rest. exact E.
    + apply orb_true_iff in H. destruct H as [H|H].
      * apply startsWith_prefix in H. destruct H as [rest E].
        exists [], rest. exact E.
      * destruct (IH H) as (b & a & E). exists (c :: b), a.
        simpl. now rewrite E.
  - intros (b & a & E). subst s. induction b as [|c b IH].
    + change ([] ++ p ++ a) with (p ++ a).
      rewrite includes_unfold, startsWith_app. reflexivity.
    + change ((c :: b) ++ p ++ a) with (c :: (b ++ p ++ a)).
      rewrite includes_unfold, IH. apply orb_true_r.
Qed.

Lemma split_nonempty (sep : code_unit) (s : jsstring) : split sep s <> [].
Proof.
  destruct s as [|c s]; simpl; [discriminate|].
  destruct (N.eqb c sep); [discriminate|].
  destruct (split sep s); discriminate.
Qed.

(** A piece produced by [split] holds no separator. *)
Lemma split_pieces (sep : code_unit) (s : jsstring) :
  Forall (fun piece => ~ In sep piece) (split sep s).
Proof.
  induction s as [|c s IH]; simpl.
  - constructor; [intros []|constructor].
  - destruct (N.eqb c sep) eqn:E.
    + constructor; [intros []|exact IH].
    + destruct (split sep s) as [|h t]; inversion IH; subst.
      * constructor; [|constructor]. intros [->|[]].
        now rewrite N.eqb_refl in E.
      * constructor; [|assumption]. intros [->|Hin].
        -- now rewrite N.eqb_refl in E.
        -- contradiction.
Qed.

Lemma split_without_separator (sep : code_unit) (s : jsstring) :
  ~ In sep s -> split sep s = [s].
Proof.
  induction s as [|c s IH]; simpl; intros H; [reflexivity|].
  destruct (N.eqb c sep) eqn:E.
  - apply N.eqb_eq in E. subst c. exfalso. apply H. now left.
  - rewrite IH; [reflexivity|]. intros Hin. apply H. now right.
Qed.

(** ** The effect monad *)

Lemma truncated_bounded (n : nat) (v : json) :
  sliceable v = true -> bounded n (truncated n v).
Proof.
  destruct v; simpl; try discriminate; intros _; apply firstn_le_length.
Qed.

Lemma get_field (q : json) (key : jsstring) :
  is_null q = false -> get q key = Normal (field q key).
Proof. destruct q; simpl; intros H; try reflexivity. discriminate. Qed.

Lemma map_slice_shaped (l : list json) :
  forallb sliceable l = true ->
  map_completion slice_option l = Normal (map (truncated 100) l).
Proof.
  induction l as [|o l IH]; simpl; intros H; [reflexivity|].
  apply andb_true_iff in H. destruct H as [Ho Hl].
  rewrite (IH Hl).
  destruct o; simpl in Ho; try discriminate; reflexivity.
Qed.

Lemma truncate_options_shaped (q : json) :
  options_shaped q = true ->
  truncate_options (field q (lit "options")) =
  Normal (if nullish (field q (lit "options")) then None
          else Some (entity_options q)).
Proof.
  unfold options_shaped, entity_options.
  destruct (field q (lit "options")) as [[| | | |l|]|]; simpl;
    intros H; try discriminate; try reflexivity.
  now rewrite (map_slice_shaped l H).
Qed.

(** ** One iteration of the loop *)

Section Pipeline.

Variable supportedModels : list jsstring.
Variable toLowerCase : jsstring -> jsstring.
Variable error_toString : js_error -> jsstring.
Variable world : env.

Local Abbreviation process_question := (Bot.process_question error_toString world).
Local Abbreviation process_questions := (Bot.process_questions error_toString world).
Local Abbreviation dispatch := (Bot.dispatch error_toString world).
Local Abbreviation generate := (Bot.generate error_toString world).
Local Abbreviation make_mcq :=
  (Bot.make_mcq supportedModels toLowerCase error_toString world).
Local Abbreviation on_message :=
  (Bot.on_message supportedModels toLowerCase error_toString world).
Local Abbreviation on_message_body :=
  (Bot.on_message_body supportedModels toLowerCase error_toString world).
Local Abbreviation find_model := (Bot.find_model supportedModels toLowerCase).
Local Abbreviation help_text := (Bot.help_text supportedModels).
Local Abbreviation failure_report := (Spec.failure_report error_toString).
Local Abbreviation attempt := (Spec.attempt error_toString).
Local Abbreviation attempts := (Spec.attempts error_toString world).
Local Abbreviation outcome_of := (Spec.outcome_of world).

Ltac run := unfold bind, lift, ret, emit, try_catch, Bot.sendPoll.

(** Case analysis on an innermost scrutinee of the goal. *)
Ltac case_step :=
  match goal with
  | |- context [match ?x with _ => _ end] =>
      lazymatch x with
      | context [match _ with _ => _ end] => fail
      | (_, _) => fail
      | _ => destruct x
      end
  end.

Lemma readable_inv (q : json) :
  readable q = true -> is_null q = false /\ options_shaped q = true.
Proof.
  unfold readable. intros H. apply andb_true_iff in H.
  destruct H as [H1 H2]. split; [|exact H2].
  now destruct (is_null q).
Qed.

(** A record with missing data leaves no event. *)
Lemma process_question_missing (chatId : Z) (q : json) (t : list event) :
  readable q = true -> missing_data q = true ->
  process_question chatId q t = (Normal tt, t).
Proof.
  intros Hr Hm. destruct (readable_inv q Hr) as [Hn Ho].
  unfold Bot.process_question. run.
  rewrite !(get_field q _ Hn), (truncate_options_shaped q Ho).
  unfold missing_data in Hm.
  destruct (truthy (field q (lit "question"))); simpl in *; [|reflexivity].
  destruct (nullish (field q (lit "options"))); simpl in *; [reflexivity|].
  now rewrite Hm.
Qed.

Lemma poll_question_sliceable (v : json) :
  truthy (Some v) = true -> sliceable v = true ->
  poll_question (Some v) = Normal (truncated 200 v).
Proof.
  destruct v as [| | |s|l|]; simpl; try discriminate; intros Ht _.
  - destruct s as [|c s]; [discriminate|]. reflexivity.
  - reflexivity.
Qed.

Lemma poll_question_unsliceable (v : json) :
  truthy (Some v) = true -> sliceable v = false ->
  exists e, poll_question (Some v) = Throw e.
Proof.
  destruct v; simpl; try discriminate; intros; eexists; reflexivity.
Qed.

(** A surviving record leaves one send attempt. *)
Lemma process_question_survives (chatId : Z) (q : json) (t : list event) :
  readable q = true -> survives q = true ->
  process_question chatId q t =
  (Normal tt, t ++ attempt chatId q (outcome_of chatId t q)).
Proof.
  intros Hr Hs. destruct (readable_inv q Hr) as [Hn Ho].
  unfold survives in Hs. apply andb_true_iff in Hs. destruct Hs as [Hm Hq].
  apply negb_true_iff in Hm. unfold missing_data in Hm.
  apply orb_false_iff in Hm. destruct Hm as [Hm Hc].
  apply orb_false_iff in Hm. destruct Hm as [Ht Hopt].
  apply negb_false_iff in Ht.
  unfold Bot.process_question. run.
  rewrite !(get_field q _ Hn), (truncate_options_shaped q Ho).
  rewrite Ht, Hopt, Hc. simpl.
  unfold Spec.attempt, Spec.outcome_of, poll_of, entity_question, entity_config.
  destruct (field q (lit "question")) as [v|] eqn:Ev; [|discriminate].
  rewrite (poll_question_sliceable v Ht Hq).
  destruct (sendPoll_outcome world t chatId _ _ _) as [e|]; [|reflexivity].
  unfold Spec.failure_report. now rewrite <- !app_assoc.
Qed.

(** A record whose question is present but cannot be sliced leaves only a
    failure report. *)
Lemma process_question_unsliceable (chatId : Z) (q : json) (t : list event) :
  readable q = true -> missing_data q = false -> survives q = false ->
  exists e, process_question chatId q t = (Normal tt, t ++ failure_report chatId e).
Proof.
  intros Hr Hm Hs. destruct (readable_inv q Hr) as [Hn Ho].
  unfold survives in Hs. rewrite Hm in Hs. simpl in Hs.
  unfold missing_data in Hm.
  apply orb_false_iff in Hm. destruct Hm as [Hm Hc].
  apply orb_false_iff in Hm. destruct Hm as [Ht Hopt].
  apply negb_false_iff in Ht.
  destruct (field q (lit "question")) as [v|] eqn:Ev; [|discriminate].
  destruct (poll_question_unsliceable v Ht Hs) as [e He].
  exists e. unfold Bot.process_question. run.
  rewrite !(get_field q _ Hn), (truncate_options_shaped q Ho).
  rewrite Ev, Ht, Hopt, Hc, He. simpl.
  unfold Spec.failure_report. now rewrite <- !app_assoc.
Qed.

(** ** The loop *)

Lemma polls_app (a b : list event) : polls (a ++ b) = polls a ++ polls b.
Proof. apply filter_app. Qed.

Lemma polls_attempt (chatId : Z) (q : json) (o : option js_error) :
  polls (attempt chatId q o) = [poll_of chatId q].
Proof. destruct o; reflexivity. Qed.

Lemma failure_message_is_loop_event (chatId : Z) (x : jsstring) :
  is_loop_event (SendMessage chatId (poll_failed_prefix ++ x)) = true.
Proof. apply startsWith_app. Qed.

Lemma process_questions_app (chatId : Z) (l1 l2 : list json) (t : list event) :
  process_questions chatId (l1 ++ l2) t =
  (process_questions chatId l1 ;; process_questions chatId l2) t.
Proof.
  revert t. induction l1 as [|q l1 IH]; intros t; simpl.
  - reflexivity.
  - unfold bind in *. destruct (process_question chatId q t) as [[[]|e] t'].
    + apply IH.
    + reflexivity.
Qed.

(** Whatever the records are, one iteration only extends the trace, and
    only with events of the loop. *)
Lemma process_question_events (chatId : Z) (q : json) (t : list event) :
  exists c new,
    process_question chatId q t = (c, t ++ new) /\
    Forall (fun e => is_loop_event e = true) new.
Proof.
  unfold Bot.process_question. run. simpl.
  repeat (case_step; simpl);
    try (eexists; exists []; rewrite app_nil_r; split; [reflexivity|constructor]);
    eexists; eexists; (split; [rewrite <- ?app_assoc; reflexivity|]);
    repeat constructor.
Qed.

Lemma process_questions_events (chatId : Z) (qs : list json) (t : list event) :
  exists c new,
    process_questions chatId qs t = (c, t ++ new) /\
    Forall (fun e => is_loop_event e = true) new.
Proof.
  revert t. induction qs as [|q qs IH]; intros t; simpl.
  - exists (Normal tt), []. rewrite app_nil_r. split; [reflexivity|constructor].
  - unfold bind.
    destruct (process_question_events chatId q t) as (c & new & E & F).
    rewrite E. destruct c as [[]|e].
    + destruct (IH (t ++ new)) as (c' & new' & E' & F').
      exists c', (new ++ new'). rewrite E', app_assoc. split; [reflexivity|].
      apply Forall_app. now split.
    + exists (Throw e), new. now split.
Qed.

(** On readable records the loop completes, and the polls it sends are
    those of the surviving records, in order. *)
Lemma process_questions_readable (chatId : Z) (qs : list json) (t : list event) :
  Forall (fun q => readable q = true) qs ->
  exists new,
    process_questions chatId qs t = (Normal tt, t ++ new) /\
    polls new = map (poll_of chatId) (filter survives qs).
Proof.
  intros H. revert t. induction H as [|q qs Hq Hqs IH]; intros t; simpl.
  - exists []. now rewrite app_nil_r.
  - unfold bind. destruct (missing_data q) eqn:Hm.
    + rewrite (process_question_missing chatId q t Hq Hm).
      assert (survives q = false) as -> by (unfold survives; now rewrite Hm).
      apply IH.
    + destruct (survives q) eqn:Hs.
      * rewrite (process_question_survives chatId q t Hq Hs).
        destruct (IH (t ++ attempt chatId q (outcome_of chatId t q)))
          as (new & E & P).
        exists (attempt chatId q (outcome_of chatId t q) ++ new).
        rewrite E, app_assoc, polls_app, polls_attempt, P. now split.
      * destruct (process_question_unsliceable chatId q t Hq Hm Hs) as [e E].
        rewrite E.
        destruct (IH (t ++ failure_report chatId e)) as (new & E' & P).
        exists (failure_report chatId e ++ new).
        rewrite E', app_assoc, polls_app, P. now split.
Qed.

Lemma poll_of_within_limits (chatId : Z) (q : json) :
  readable q = true -> survives q = true -> within_limits (poll_of chatId q).
Proof.
  intros Hr Hs. destruct (readable_inv q Hr) as [_ Ho].
  unfold survives in Hs. apply andb_true_iff in Hs. destruct Hs as [_ Hq].
  unfold poll_of, within_limits, entity_question, entity_options.
  split.
  - destruct (field q (lit "question")) as [v|]; [|discriminate].
    now apply truncated_bounded.
  - unfold options_shaped in Ho.
    destruct (field q (lit "options")) as [[| | | |l|]|]; try constructor.
    apply Forall_forall. intros o Hin. apply in_map_iff in Hin.
    destruct Hin as (o' & <- & Hin').
    apply truncated_bounded. rewrite forallb_forall in Ho. now apply Ho.
Qed.

(** On validated questions the loop is exactly the sequence of attempts. *)
Lemma process_questions_validated (chatId : Z) (qs : list json) (t : list event) :
  Forall (fun q => validated q = true) qs ->
  process_questions chatId qs t = (Normal tt, t ++ attempts chatId t qs).
Proof.
  intros H. revert t. induction H as [|q qs Hq Hqs IH]; intros t; simpl.
  - now rewrite app_nil_r.
  - unfold validated in Hq. apply andb_true_iff in Hq. destruct Hq as [Hr Hs].
    unfold bind. rewrite (process_question_survives chatId q t Hr Hs).
    rewrite IH, <- app_assoc. reflexivity.
Qed.

Lemma polls_attempts (chatId : Z) (qs : list json) (t : list event) :
  polls (attempts chatId t qs) = map (poll_of chatId) qs.
Proof.
  revert t. induction qs as [|q qs IH]; intros t; simpl; [reflexivity|].
  rewrite polls_app, IH. now destruct (outcome_of chatId t q).
Qed.

Lemma attempts_app (chatId : Z) (l1 l2 : list json) (t : list event) :
  attempts chatId t (l1 ++ l2) =
  attempts chatId t l1 ++ attempts chatId (t ++ attempts chatId t l1) l2.
Proof.
  revert t. induction l1 as [|q l1 IH]; intros t; simpl.
  - now rewrite app_nil_r.
  - rewrite IH, <- !app_assoc. reflexivity.
Qed.

Lemma loop_event_not_summary (e : event) :
  is_loop_event e = true -> is_summary e = false.
Proof.
  destruct e; cbv beta iota delta [is_loop_event is_summary];
    try reflexivity; try discriminate.
  intros H. apply startsWith_prefix in H. destruct H as [rest ->].
  reflexivity.
Qed.

Lemma no_summary_in_loop (new : list event) :
  Forall (fun e => is_loop_event e = true) new -> filter is_summary new = [].
Proof.
  induction 1 as [|e new He _ IH]; simpl; [reflexivity|].
  now rewrite (loop_event_not_summary e He).
Qed.

(** ** Validation: claim C2 *)

(** C2, as amended.  For every sequence of extracted records the loop can
    read (no record is [null]; every [options] field is absent, null, or an
    array of strings or arrays), validation is a filtering map: the loop
    completes; the polls it sends are those of the surviving records, in
    input order, so at most as many as there are records; every poll is
    sent with a question that is a text of at most 200 characters or an
    array of at most 200 elements, and with options each of which is a
    text of at most 100 characters or an array of at most 100 elements
    (the elements of such an array are not cut); and a record whose
    question is absent, null or falsy, or whose options or
    correctOptionIndex are absent or null, is discarded silently, the run
    being the run on the sequence without it. *)
Theorem validation_is_filtering_map
    (chatId : Z) (records : list json) (t : list event) :
  Forall (fun q => readable q = true) records ->
  exists new,
    process_questions chatId records t = (Normal tt, t ++ new) /\
    polls new = map (poll_of chatId) (filter survives records) /\
    (List.length (polls new) <= List.length records)%nat /\
    Forall within_limits (polls new) /\
    (forall before q after,
        records = before ++ q :: after -> missing_data q = true ->
        survives q = false /\
        process_questions chatId records t =
        process_questions chatId (before ++ after) t).
Proof.
  intros H.
  destruct (process_questions_readable chatId records t H) as (new & E & P).
  exists new. split; [exact E|]. split; [exact P|]. split; [|split].
  - rewrite P, length_map. apply filter_length_le.
  - rewrite P. apply Forall_forall. intros e He.
    apply in_map_iff in He. destruct He as (q & <- & Hq).
    apply filter_In in Hq. destruct Hq as [Hin Hs].
    rewrite Forall_forall in H. apply poll_of_within_limits; auto.
  - intros before q after -> Hm. split.
    + unfold survives. now rewrite Hm.
    + rewrite !process_questions_app. unfold bind.
      destruct (process_questions chatId before t) as [[[]|e] t1]; [|reflexivity].
      simpl. unfold bind.
      apply Forall_app in H. destruct H as [_ H]. inversion H; subst.
      now rewrite process_question_missing.
Qed.

(** ** Dispatch: claim C3 *)

(** C3.  For every sequence of N validated questions the loop completes
    and leaves exactly the N send attempts, one after the other in input
    order; each poll carries the record's correctOptionIndex as it is, no
    range being checked; the attempt at index k is followed by its own
    failure report (the chat message naming the error) exactly when the
    transport rejected it, and the attempts after it still occur. *)
Theorem dispatch_attempts_every_question
    (chatId : Z) (records : list json) (t : list event) :
  Forall (fun q => validated q = true) records ->
  process_questions chatId records t =
    (Normal tt, t ++ attempts chatId t records) /\
  polls (attempts chatId t records) = map (poll_of chatId) records /\
  List.length (polls (attempts chatId t records)) = List.length records /\
  Forall2 (fun q e => exists question options opts,
               e = SendPoll chatId question options opts /\
               correct_option_id opts = field q (lit "correctOptionIndex"))
          records (polls (attempts chatId t records)) /\
  (forall k q, nth_error records k = Some q ->
     exists before after,
       attempts chatId t records =
         before ++ attempt chatId q (outcome_of chatId (t ++ before) q) ++ after /\
       polls before = map (poll_of chatId) (firstn k records) /\
       polls after = map (poll_of chatId) (skipn (S k) records)).
Proof.
  intros H. split; [now apply process_questions_validated|].
  split; [apply polls_attempts|]. split; [|split].
  - now rewrite polls_attempts, length_map.
  - rewrite polls_attempts. clear H. induction records as [|q qs IH]; simpl.
    + constructor.
    + constructor; [|exact IH].
      eexists; eexists; eexists. split; reflexivity.
  - intros k q Hk. apply nth_error_split in Hk.
    destruct Hk as (l1 & l2 & -> & Hlen).
    exists (attempts chatId t l1).
    exists (attempts chatId
              ((t ++ attempts chatId t l1) ++
               attempt chatId q (outcome_of chatId (t ++ attempts chatId t l1) q))
              l2).
    split; [|split].
    + rewrite attempts_app. reflexivity.
    + rewrite polls_attempts. f_equal. subst k.
      rewrite firstn_app, firstn_all, Nat.sub_diag. simpl.
      now rewrite app_nil_r.
    + rewrite polls_attempts. f_equal. subst k.
      rewrite skipn_app, skipn_all2 by lia.
      replace (S (List.length l1) - List.length l1)%nat with 1%nat by lia.
      reflexivity.
Qed.

(** ** Summary: claim C4 *)

(** C4, as amended.  When the loop over the extracted records completes,
    exactly one summary message is sent, after everything the loop left,
    and the number it reports is the number of extracted records (the
    length of the parsed array), whether a record was skipped, attempted,
    rejected or sent. *)
Theorem summary_reports_record_count
    (chatId : Z) (records : list json) (t t' : list event) :
  process_questions chatId records t = (Normal tt, t') ->
  let summary :=
    SendMessage chatId
      (summary_prefix ++ of_nat (List.length records) ++ summary_suffix) in
  exists new,
    t' = t ++ new /\
    dispatch chatId (JArr records) t = (Normal tt, t ++ new ++ [summary]) /\
    filter is_summary (new ++ [summary]) = [summary].
Proof.
  intros H summary.
  destruct (process_questions_events chatId records t) as (c & new & E & F).
  rewrite E in H. injection H as -> <-.
  exists new. split; [reflexivity|]. split.
  - unfold Bot.dispatch. run. simpl. rewrite E. now rewrite <- app_assoc.
  - rewrite filter_app, (no_summary_in_loop new F).
    assert (Hs : is_summary summary = true) by apply startsWith_app.
    cbn [filter app]. now rewrite Hs.
Qed.

(** ** The generation stage and the command branch *)

Lemma loop_event_is_generate_event (e : event) :
  is_loop_event e = true -> is_generate_event e = true.
Proof.
  destruct e; cbv beta iota delta [is_loop_event is_generate_event];
    try reflexivity; try discriminate.
  intros H. apply startsWith_prefix in H. destruct H as [rest ->].
  reflexivity.
Qed.

Lemma dispatch_events (chatId : Z) (questions : json) (t : list event) :
  exists c new,
    dispatch chatId questions t = (c, t ++ new) /\
    Forall (fun e => is_generate_event e = true) new.
Proof.
  unfold Bot.dispatch. run.
  destruct (iterate questions) as [qs|e].
  - destruct (process_questions_events chatId qs t) as (c & new & E & F).
    rewrite E. destruct c as [[]|e].
    + exists (Normal tt), (new ++ [SendMessage chatId (summary_text questions)]).
      rewrite app_assoc. split; [reflexivity|].
      apply Forall_app. split.
      * eapply Forall_impl; [|exact F]. apply loop_event_is_generate_event.
      * repeat constructor.
    + exists (Throw e), new. split; [reflexivity|].
      eapply Forall_impl; [|exact F]. apply loop_event_is_generate_event.
  - exists (Throw e), []. rewrite app_nil_r. split; [reflexivity|constructor].
Qed.

(** The generation stage never throws: whatever the LLM, the extraction
    or the loop raise is caught by its own [catch]. *)
Lemma generate_events
    (chatId : Z) (llm : provider * Q * jsstring) (prompt : jsstring)
    (t : list event) :
  exists new,
    generate chatId llm prompt t = (Normal tt, t ++ new) /\
    Forall (fun e => is_generate_event e = true) new.
Proof.
  destruct llm as [[p temperature] modelName].
  unfold Bot.generate, Bot.invoke. run.
  destruct (llm_invoke world p temperature modelName prompt) as [e|content].
  - eexists. rewrite <- !app_assoc. split; [reflexivity|repeat constructor].
  - destruct (extract_questions content) as [questions|e].
    + destruct (dispatch_events chatId questions (t ++ [Invoke prompt]))
        as (c & new & E & F).
      rewrite E. destruct c as [[]|e].
      * exists (Invoke prompt :: new). rewrite <- app_assoc.
        split; [reflexivity|]. constructor; [reflexivity|exact F].
      * eexists. rewrite <- !app_assoc. split; [reflexivity|].
        constructor; [reflexivity|].
        apply Forall_app. split; [exact F|repeat constructor].
    + eexists. rewrite <- !app_assoc. split; [reflexivity|repeat constructor].
Qed.

Lemma find_model_some (token m : jsstring) :
  find_model token = Some m ->
  In m supportedModels /\ toLowerCase m = toLowerCase token.
Proof.
  unfold Bot.find_model. intros H. apply find_some in H.
  destruct H as [Hin Heq]. split; [exact Hin|]. now apply jsstring_eqb_eq.
Qed.

Lemma find_model_none (token : jsstring) :
  (forall m, In m supportedModels -> toLowerCase m <> toLowerCase token) ->
  find_model token = None.
Proof.
  unfold Bot.find_model. induction supportedModels as [|m l IH]; intros H; simpl.
  - reflexivity.
  - destruct (jsstring_eqb (toLowerCase m) (toLowerCase token)) eqn:E.
    + apply jsstring_eqb_eq in E. exfalso. apply (H m); [now left|exact E].
    + apply IH. intros m' Hin. apply H. now right.
Qed.

Lemma find_model_match (token m : jsstring) :
  In m supportedModels -> toLowerCase m = toLowerCase token ->
  exists m', find_model token = Some m'.
Proof.
  intros Hin Heq. destruct (find_model token) as [m'|] eqn:E.
  - now exists m'.
  - unfold Bot.find_model in E.
    apply (find_none _ _ E) in Hin. rewrite Heq, jsstring_eqb_refl in Hin.
    discriminate.
Qed.

(** Whatever the text is, the command branch only extends the trace, and
    only with events of the command. *)
Lemma make_mcq_events (chatId : Z) (txt : jsstring) (t : list event) :
  exists c new,
    make_mcq chatId txt t = (c, t ++ new) /\
    Forall (command_event supportedModels) new.
Proof.
  unfold Bot.make_mcq.
  assert (Hthrow : forall e : js_error,
             exists c new, lift (A := unit) (Throw e) t = (c, t ++ new) /\
                           Forall (command_event supportedModels) new).
  { intros e. exists (Throw e), []. rewrite app_nil_r.
    split; [reflexivity|constructor]. }
  assert (Hmsg : forall m : jsstring,
             startsWith help_prefix m = false ->
             exists c new, emit (SendMessage chatId m) t = (c, t ++ new) /\
                           Forall (command_event supportedModels) new).
  { intros m Hm. exists (Normal tt), [SendMessage chatId m].
    split; [reflexivity|]. constructor; [|constructor].
    left. cbv beta iota delta [is_generate_event]. now rewrite Hm. }
  destruct (split 32%N txt) as [|kw [|numQsStr contentArr]]; try apply Hthrow.
  destruct (join (lit " ") contentArr) as [|c0 content'] eqn:Ec;
    [apply Hmsg; reflexivity|].
  destruct (nth 0 (split 32%N numQsStr) []) as [|m0 modelName'] eqn:Em;
    [apply Hmsg; reflexivity|].
  destruct (find_model (m0 :: modelName')) as [[|p0 parsed']|] eqn:Ef;
    try (apply Hmsg; reflexivity).
  apply find_model_some in Ef. destruct Ef as [Hin _].
  unfold Bot.new_llm. run.
  destruct (llm_config (p0 :: parsed')) as [p temperature] eqn:Ecfg.
  remember (NewLLM p temperature (p0 :: parsed')) as ev eqn:Eev.
  assert (Hev : command_event supportedModels ev).
  { right. exists (p0 :: parsed'). split; [exact Hin|].
    now rewrite Eev, Ecfg. }
  cbv beta iota.
  destruct (llm_construct world p temperature (p0 :: parsed')) as [e|].
  - exists (Throw e), [ev]. split; [reflexivity|]. now constructor.
  - destruct (generate_events chatId (p, temperature, p0 :: parsed')
                (build_prompt (c0 :: content')) (t ++ [ev])) as (new & E & F).
    exists (Normal tt), (ev :: new). rewrite <- app_assoc in E.
    split; [exact E|]. constructor; [exact Hev|].
    eapply Forall_impl; [|exact F]. intros a Ha. now left.
Qed.

(** ** The handler *)

Lemma on_message_body_command (msg : message) (txt : jsstring) (t : list event) :
  text msg = Some txt -> startsWith trigger txt = true ->
  on_message_body msg t = make_mcq (chat_id msg) txt t.
Proof.
  intros Ht Hs. unfold Bot.on_message_body. rewrite Ht.
  destruct txt as [|c txt]; [discriminate|]. now rewrite Hs.
Qed.

Lemma on_message_body_events (msg : message) (t : list event) :
  exists c new,
    on_message_body msg t = (c, t ++ new) /\
    Forall (fun e => command_event supportedModels e \/
                     e = SendMessage (chat_id msg) help_text) new.
Proof.
  unfold Bot.on_message_body.
  assert (Hret : exists c new,
             ret tt t = (c, t ++ new) /\
             Forall (fun e => command_event supportedModels e \/
                              e = SendMessage (chat_id msg) help_text) new).
  { exists (Normal tt), []. rewrite app_nil_r. split; [reflexivity|constructor]. }
  destruct (text msg) as [[|c0 txt]|]; try exact Hret.
  destruct (startsWith trigger (c0 :: txt)).
  - destruct (make_mcq_events (chat_id msg) (c0 :: txt) t) as (c & new & E & F).
    exists c, new. split; [exact E|].
    eapply Forall_impl; [|exact F]. intros a Ha. now left.
  - exists (Normal tt), [SendMessage (chat_id msg) help_text].
    split; [reflexivity|]. constructor; [now right|constructor].
Qed.

Lemma token_of_split (txt kw token : jsstring) (contentArr : list jsstring) :
  split 32%N txt = kw :: token :: contentArr ->
  nth 0 (split 32%N token) [] = token.
Proof.
  intros H. pose proof (split_pieces 32%N txt) as F. rewrite H in F.
  inversion F as [|? ? _ F']; subst. inversion F' as [|? ? Htok _]; subst.
  now rewrite (split_without_separator _ _ Htok).
Qed.

Lemma contains_join (sep m : jsstring) (l : list jsstring) :
  In m l -> contains m (join sep l).
Proof.
  induction l as [|p l IH]; intros Hin; [contradiction|].
  destruct Hin as [->|Hin].
  - destruct l as [|p' l].
    + exists [], []. simpl. now rewrite app_nil_r.
    + exists [], (sep ++ join sep (p' :: l)). reflexivity.
  - destruct (IH Hin) as (b & a & E). destruct l as [|p' l]; [contradiction|].
    exists (p ++ sep ++ b), a.
    change (join sep (p :: p' :: l)) with (p ++ sep ++ join sep (p' :: l)).
    rewrite E, <- !app_assoc. reflexivity.
Qed.

Lemma contains_app_right (p pre s : jsstring) :
  contains p s -> contains p (pre ++ s).
Proof.
  intros (b & a & ->). exists (pre ++ b), a. now rewrite <- app_assoc.
Qed.

(** *** Model resolution: claim C5 *)

(** C5, as amended.  Resolution of a model-name token succeeds if and only
    if some identifier of the table equals the token once both are
    lower-cased, and it resolves to such an identifier of the table; and
    for every command whose content and model-name token are not empty and
    whose token matches no identifier, exactly one message, the
    invalid-model error, is sent, with no LLM construction or invocation
    and no poll send. *)
Theorem model_resolution :
  (forall token m,
      find_model token = Some m ->
      In m supportedModels /\ toLowerCase m = toLowerCase token) /\
  (forall token,
      (exists m, In m supportedModels /\ toLowerCase m = toLowerCase token) <->
      (exists m, find_model token = Some m)) /\
  (forall msg txt kw token contentArr t,
      text msg = Some txt ->
      startsWith trigger txt = true ->
      split 32%N txt = kw :: token :: contentArr ->
      join (lit " ") contentArr <> [] ->
      token <> [] ->
      (forall m, In m supportedModels -> toLowerCase m <> toLowerCase token) ->
      on_message msg t =
        (Normal tt, t ++ [SendMessage (chat_id msg) invalid_model_text])).
Proof.
  split; [|split].
  - intros token m. apply find_model_some.
  - intros token. split.
    + intros (m & Hin & Heq). now apply (find_model_match token m).
    + intros (m & Hm). exists m. now apply find_model_some.
  - intros msg txt kw token contentArr t Ht Hs Hsplit Hcontent Htoken Hnone.
    unfold Bot.on_message, try_catch.
    rewrite (on_message_body_command msg txt t Ht Hs).
    unfold Bot.make_mcq. rewrite Hsplit, (token_of_split _ _ _ _ Hsplit).
    destruct (join (lit " ") contentArr) as [|c0 content']; [congruence|].
    destruct token as [|m0 token']; [congruence|].
    now rewrite (find_model_none _ Hnone).
Qed.

(** *** Command recognition and the help reply: claim C6 *)

(** C6, as amended.  A message with a non-empty text is processed as the
    quiz command if and only if the text starts with the trigger
    [/make_mcq]: a text that does not start with it receives exactly the
    help reply, a text that starts with it is handed to the command branch
    and never receives the help reply; and the help reply is the fixed
    introduction followed by the identifiers of the table joined by commas,
    so it contains every one of them. *)
Theorem command_iff_trigger_prefix (msg : message) (txt : jsstring) (t : list event) :
  text msg = Some txt -> txt <> [] ->
  (startsWith trigger txt = false ->
     on_message msg t = (Normal tt, t ++ [SendMessage (chat_id msg) help_text])) /\
  (startsWith trigger txt = true ->
     on_message_body msg t = make_mcq (chat_id msg) txt t /\
     exists new,
       on_message msg t = (Normal tt, t ++ new) /\
       forall chatId, ~ In (SendMessage chatId help_text) new) /\
  help_text = help_prefix ++ join (lit ", ") supportedModels /\
  (forall m, In m supportedModels -> contains m help_text).
Proof.
  intros Ht Hne. split; [|split; [|split]].
  - intros Hs. unfold Bot.on_message, try_catch, Bot.on_message_body.
    rewrite Ht. destruct txt as [|c0 txt]; [congruence|]. now rewrite Hs.
  - intros Hs. split; [now apply on_message_body_command|].
    unfold Bot.on_message, try_catch.
    rewrite (on_message_body_command msg txt t Ht Hs).
    destruct (make_mcq_events (chat_id msg) txt t) as (c & new & E & F).
    rewrite E.
    assert (Hnohelp : forall l, Forall (command_event supportedModels) l ->
                                forall chatId, ~ In (SendMessage chatId help_text) l).
    { intros l Hl chatId Hin. rewrite Forall_forall in Hl.
      destruct (Hl _ Hin) as [Hg|(m & _ & Hm)]; [|discriminate].
      cbv beta iota delta [is_generate_event] in Hg.
      unfold Bot.help_text in Hg. now rewrite startsWith_app in Hg. }
    destruct c as [[]|e].
    + exists new. split; [reflexivity|]. now apply Hnohelp.
    + exists (new ++ [ConsoleError (lit "Error processing message:") (Some e)]).
      unfold emit. rewrite app_assoc. split; [reflexivity|].
      intros chatId Hin. apply in_app_or in Hin. destruct Hin as [Hin|Hin].
      * now apply (Hnohelp new F chatId).
      * destruct Hin as [Hin|[]]. discriminate.
  - reflexivity.
  - intros m Hin. unfold Bot.help_text. apply contains_app_right.
    now apply contains_join.
Qed.

(** *** Missing content and missing model name: claim C7 *)

(** A command with a model-name token and no content is answered with the
    missing-content message. *)
Lemma missing_content_reply
    (msg : message) (txt kw token : jsstring) (contentArr : list jsstring)
    (t : list event) :
  text msg = Some txt -> startsWith trigger txt = true ->
  split 32%N txt = kw :: token :: contentArr ->
  join (lit " ") contentArr = [] ->
  on_message msg t =
    (Normal tt, t ++ [SendMessage (chat_id msg) missing_content_text]).
Proof.
  intros Ht Hs Hsplit Hc. unfold Bot.on_message, try_catch.
  rewrite (on_message_body_command msg txt t Ht Hs).
  unfold Bot.make_mcq. now rewrite Hsplit, Hc.
Qed.

(** A command with content and an empty model-name token is answered with
    the missing-model message. *)
Lemma missing_model_reply
    (msg : message) (txt kw : jsstring) (contentArr : list jsstring)
    (t : list event) :
  text msg = Some txt -> startsWith trigger txt = true ->
  split 32%N txt = kw :: [] :: contentArr ->
  join (lit " ") contentArr <> [] ->
  on_message msg t =
    (Normal tt, t ++ [SendMessage (chat_id msg) missing_model_text]).
Proof.
  intros Ht Hs Hsplit Hc. unfold Bot.on_message, try_catch.
  rewrite (on_message_body_command msg txt t Ht Hs).
  unfold Bot.make_mcq. rewrite Hsplit.
  destruct (join (lit " ") contentArr); [congruence|reflexivity].
Qed.

(** C7, at the input where the handler departs from it.  The command that
    is the bare trigger, with no content and no model-name token, receives
    no reply at all: reading [numQsStr.split] throws before either check is
    reached, and the top-level [catch] only writes to the console. *)
Theorem bare_trigger_is_left_unanswered (chatId : Z) (t : list event) :
  exists new,
    on_message {| chat_id := chatId; text := Some (lit "/make_mcq") |} t =
      (Normal tt, t ++ new) /\
    new = [ConsoleError (lit "Error processing message:")
             (Some (TypeError "cannot read properties of undefined"))] /\
    messages new = [].
Proof. eexists. split; [reflexivity|]. split; reflexivity. Qed.

(** *** Messages without text: claim C10 *)

(** C10.  A message that carries no text leaves no event at all: no
    reply, no LLM activity, no poll. *)
Theorem no_text_no_reply (chatId : Z) (t : list event) :
  on_message {| chat_id := chatId; text := None |} t = (Normal tt, t).
Proof. reflexivity. Qed.

End Pipeline.

(** ** Extraction: the span between the brackets *)

Lemma indexOf_absent (c : code_unit) (s : jsstring) :
  ~ In c s -> indexOf c s = -1.
Proof.
  induction s as [|x s IH]; simpl; intros H; [reflexivity|].
  destruct (N.eqb x c) eqn:E.
  - apply N.eqb_eq in E. exfalso. apply H. now left.
  - rewrite IH; [reflexivity|]. intros Hin. apply H. now right.
Qed.

Lemma indexOf_first (c : code_unit) (before rest : jsstring) :
  ~ In c before -> indexOf c (before ++ c :: rest) = JS.length before.
Proof.
  unfold JS.length. induction before as [|x before IH]; intros H.
  - simpl. now rewrite N.eqb_refl.
  - cbn [app indexOf]. destruct (N.eqb x c) eqn:E.
    + apply N.eqb_eq in E. exfalso. apply H. now left.
    + rewrite IH by (intros Hin; apply H; now right).
      cbn [List.length]. destruct (Z.ltb_spec (Z.of_nat (List.length before)) 0); lia.
Qed.

Lemma lastIndexOf_absent (c : code_unit) (s : jsstring) :
  ~ In c s -> lastIndexOf c s = -1.
Proof.
  induction s as [|x s IH]; simpl; intros H; [reflexivity|].
  rewrite IH by (intros Hin; apply H; now right). simpl.
  destruct (N.eqb x c) eqn:E; [|reflexivity].
  apply N.eqb_eq in E. exfalso. apply H. now left.
Qed.

Lemma lastIndexOf_last (c : code_unit) (before rest : jsstring) :
  ~ In c rest -> lastIndexOf c (before ++ c :: rest) = JS.length before.
Proof.
  unfold JS.length. intros H. induction before as [|x before IH].
  - cbn [app lastIndexOf]. rewrite (lastIndexOf_absent c rest H). simpl.
    now rewrite N.eqb_refl.
  - cbn [app lastIndexOf]. rewrite IH. cbn [List.length].
    destruct (Z.leb_spec 0 (Z.of_nat (List.length before))); lia.
Qed.

(** The index is -1 exactly when the character is absent. *)
Lemma indexOf_absent_iff (c : code_unit) (s : jsstring) :
  indexOf c s = -1 <-> ~ In c s.
Proof.
  split; [|apply indexOf_absent].
  induction s as [|x s IH]; simpl; intros H; [tauto|].
  destruct (N.eqb x c) eqn:E; [lia|]. apply N.eqb_neq in E.
  destruct (Z.ltb_spec (indexOf c s) 0) as [Hlt|Hge]; [|lia].
  intros [Hx|Hin]; [contradiction|].
  assert (Hi : indexOf c s = -1).
  { clear -Hlt. induction s as [|y s IH]; simpl in *; [reflexivity|].
    destruct (N.eqb y c); [lia|].
    destruct (Z.ltb_spec (indexOf c s) 0); [reflexivity|lia]. }
  now apply IH.
Qed.

Lemma lastIndexOf_absent_iff (c : code_unit) (s : jsstring) :
  lastIndexOf c s = -1 <-> ~ In c s.
Proof.
  split; [|apply lastIndexOf_absent].
  induction s as [|x s IH]; simpl; intros H; [tauto|].
  destruct (Z.leb_spec 0 (lastIndexOf c s)) as [Hge|Hlt]; [lia|].
  destruct (N.eqb x c) eqn:E; [lia|]. apply N.eqb_neq in E.
  intros [Hx|Hin]; [contradiction|].
  assert (Hi : lastIndexOf c s = -1).
  { clear -Hlt. induction s as [|y s IH]; simpl in *; [reflexivity|].
    destruct (Z.leb_spec 0 (lastIndexOf c s)); [lia|].
    destruct (N.eqb y c); [lia|reflexivity]. }
  now apply IH.
Qed.

Lemma substring_middle (a b c : jsstring) :
  substring (a ++ b ++ c) (JS.length a) (JS.length a + JS.length b) = b.
Proof.
  unfold substring, clamp, JS.length. rewrite !length_app.
  set (x := List.length a). set (y := List.length b). set (z := List.length c).
  replace (Z.min (Z.max (Z.of_nat x) 0) (Z.of_nat (x + (y + z))))
    with (Z.of_nat x) by lia.
  replace (Z.min (Z.max (Z.of_nat x + Z.of_nat y) 0) (Z.of_nat (x + (y + z))))
    with (Z.of_nat (x + y)) by lia.
  replace (Z.min (Z.of_nat x) (Z.of_nat (x + y))) with (Z.of_nat x) by lia.
  replace (Z.max (Z.of_nat x) (Z.of_nat (x + y))) with (Z.of_nat (x + y)) by lia.
  replace (Z.to_nat (Z.of_nat (x + y) - Z.of_nat x)) with y by lia.
  rewrite Nat2Z.id. unfold x, y.
  rewrite skipn_app, skipn_all, Nat.sub_diag. cbn [app skipn].
  rewrite firstn_app, firstn_all, Nat.sub_diag. cbn [firstn].
  apply app_nil_r.
Qed.

(** When the first opening bracket comes before the last closing one, the
    text handed to the parser is the span from the one to the other, both
    included. *)
Lemma json_text_between (before middle after : jsstring) :
  ~ In 91%N before -> ~ In 93%N after ->
  json_text (before ++ 91%N :: middle ++ 93%N :: after) =
  91%N :: middle ++ [93%N].
Proof.
  intros Hb Ha. unfold json_text.
  rewrite (indexOf_first 91%N before _ Hb).
  replace (before ++ 91%N :: middle ++ 93%N :: after)
    with ((before ++ 91%N :: middle) ++ 93%N :: after)
    by (now rewrite <- app_assoc).
  rewrite (lastIndexOf_last 93%N _ _ Ha).
  replace ((before ++ 91%N :: middle) ++ 93%N :: after)
    with (before ++ (91%N :: middle ++ [93%N]) ++ after)
    by (cbn [app]; now rewrite <- !app_assoc).
  replace (JS.length (before ++ 91%N :: middle) + 1)
    with (JS.length before + JS.length (91%N :: middle ++ [93%N])).
  - apply substring_middle.
  - unfold JS.length. cbn [List.length]. rewrite !length_app.
    cbn [List.length]. lia.
Qed.

(** Without any bracket the parser is handed the empty text. *)
Lemma json_text_without_brackets (text : jsstring) :
  ~ In 91%N text -> ~ In 93%N text -> json_text text = [].
Proof.
  intros Ho Hc. unfold json_text.
  rewrite (indexOf_absent _ _ Ho), (lastIndexOf_absent _ _ Hc).
  unfold substring, clamp.
  change (-1 + 1) with 0.
  replace (Z.min (Z.max (-1) 0) (JS.length text)) with 0
    by (unfold JS.length; lia).
  replace (Z.min (Z.max 0 0) (JS.length text)) with 0
    by (unfold JS.length; lia).
  reflexivity.
Qed.

(** ** Extraction: what the parser returns for a bracketed text *)

Lemma parse_elements_array
    (fuel : nat) (ts : list token) (acc : list json) (v : json) (r : list token) :
  parse_elements fuel ts acc = Some (v, r) -> exists items, v = JArr items.
Proof.
  revert ts acc. induction fuel as [|fuel IH]; intros ts acc H;
    [discriminate|].
  cbn [parse_elements] in H.
  destruct (parse_value fuel ts) as [[v' [|[] r']]|]; try discriminate.
  - injection H as <- _. eexists. reflexivity.
  - now apply IH in H.
Qed.

Lemma parse_bracketed_is_array (s : jsstring) (v : json) :
  parse (91%N :: s) = Some v -> exists items, v = JArr items.
Proof.
  unfold parse, lex. cbn [List.length lex_fuel].
  change (is_ws 91%N) with false. cbv beta iota.
  change (lex_token (91%N :: s)) with (Some (TLBracket, s)). cbv beta iota.
  match goal with
  | |- context [cons_token TLBracket ?x] => destruct x as [ts|]
  end; [|discriminate].
  cbn [cons_token option_map List.length parse_value].
  destruct ts as [|t0 ts]; [discriminate|].
  destruct t0;
    try (destruct (parse_elements _ _ _) as [[v' [|? ?]]|] eqn:E;
         try discriminate; intros H; injection H as <-;
         now apply parse_elements_array in E).
  destruct ts as [|? ?]; [|discriminate].
  intros H. injection H as <-. eexists. reflexivity.
Qed.

(** ** The lexer: what a token consumes *)

Lemma shape_cons {A} (c : A) (s t : list A) :
  (exists pre, s = pre ++ t) -> exists pre, c :: s = pre ++ t.
Proof. intros [pre ->]. now exists (c :: pre). Qed.

Lemma ends_with_digit_cons (c : code_unit) (s r : jsstring) :
  ends_with_digit s r -> ends_with_digit (c :: s) r.
Proof. intros (pre & d & -> & Hd). now exists (c :: pre), d. Qed.

Lemma ends_with_digit_trans (s r r' : jsstring) :
  ends_with_digit s r -> ends_with_digit r r' -> ends_with_digit s r'.
Proof.
  intros (p1 & d1 & -> & _) (p2 & d2 & -> & H2).
  exists (p1 ++ d1 :: p2), d2. split; [|exact H2].
  now rewrite <- app_assoc.
Qed.

Lemma lex_string_shape (s acc str r : jsstring) :
  lex_string s acc = Some (str, r) -> exists body, s = body ++ 34%N :: r.
Proof.
  remember (List.length s) as n eqn:Hn. revert s acc Hn.
  induction n as [n IH] using lt_wf_ind. intros s acc Hn H.
  destruct s as [|c r0]; [discriminate|]. cbn [lex_string] in H.
  destruct (N.eqb c 34) eqn:E34.
  { apply N.eqb_eq in E34. injection H as _ <-. subst c. now exists []. }
  assert (Hrec : forall x acc', (List.length x < n)%nat ->
                   lex_string x acc' = Some (str, r) ->
                   exists body, x = body ++ 34%N :: r).
  { intros x acc' Hlt Hx. now apply (IH (List.length x) Hlt x acc'). }
  subst n. cbn [List.length] in Hrec.
  destruct (N.eqb c 92).
  - destruct r0 as [|e r1]; [discriminate|]. cbn [List.length] in Hrec.
    repeat match type of H with
           | (if ?b then _ else _) = _ => destruct b
           end;
      try (apply shape_cons, shape_cons; eapply Hrec; [|exact H]; lia);
      try discriminate.
    destruct r1 as [|h1 [|h2 [|h3 [|h4 r2]]]]; try discriminate.
    destruct (hex_value h1), (hex_value h2), (hex_value h3), (hex_value h4);
      try discriminate.
    do 6 apply shape_cons. eapply Hrec; [|exact H]. cbn [List.length]. lia.
  - destruct (N.ltb c 32); [discriminate|].
    apply shape_cons. eapply Hrec; [|exact H]. lia.
Qed.

Lemma strip_prefix_shape (p s r : jsstring) :
  strip_prefix p s = Some r -> s = p ++ r.
Proof.
  revert s. induction p as [|a p IH]; intros s H.
  - now injection H as ->.
  - destruct s as [|b s]; [discriminate|]. cbn [strip_prefix] in H.
    destruct (N.eqb a b) eqn:E; [|discriminate].
    apply N.eqb_eq in E. subst b. now rewrite (IH _ H).
Qed.

Lemma take_digits_shape (s : jsstring) (ds : list N) (r : jsstring) :
  take_digits s = (ds, r) ->
  (ds = [] /\ r = s) \/ (ds <> [] /\ ends_with_digit s r).
Proof.
  revert ds r. induction s as [|c s IH]; cbn [take_digits]; intros ds r H.
  - injection H as <- <-. now left.
  - destruct (is_digit c) eqn:Ec.
    + destruct (take_digits s) as [ds' r'] eqn:Et. injection H as <- <-.
      right. split; [discriminate|].
      destruct (IH ds' r' eq_refl) as [[-> ->]|[_ H]].
      * now exists [], c.
      * now apply ends_with_digit_cons.
    + injection H as <- <-. now left.
Qed.

Lemma lex_int_shape (s : jsstring) (ds : list N) (r : jsstring) :
  lex_int s = Some (ds, r) -> ends_with_digit s r.
Proof.
  unfold lex_int. destruct s as [|c s0]; [discriminate|].
  destruct (N.eqb c 48) eqn:E0.
  - intros H. injection H as _ <-. apply N.eqb_eq in E0. subst c.
    now exists [], 48%N.
  - destruct (is_digit c) eqn:Ec; [|discriminate].
    intros H. injection H as H.
    destruct (take_digits_shape (c :: s0) _ _ H) as [[-> _]|[_ T]]; [|exact T].
    rewrite Ec in H. destruct (take_digits s0). discriminate.
Qed.

Lemma lex_frac_shape (s : jsstring) (ds : list N) (r : jsstring) :
  lex_frac s = Some (ds, r) -> r = s \/ ends_with_digit s r.
Proof.
  unfold lex_frac. destruct s as [|c s0]; [intros H; injection H; auto|].
  destruct (N.eqb c 46); [|intros H; injection H; auto].
  destruct (take_digits s0) as [[|d ds'] r'] eqn:Et; [discriminate|].
  intros H. injection H as _ <-. right.
  destruct (take_digits_shape _ _ _ Et) as [[T _]|[_ T]]; [discriminate|].
  now apply ends_with_digit_cons.
Qed.

Lemma lex_exp_shape (s : jsstring) (e : Z) (r : jsstring) :
  lex_exp s = Some (e, r) -> r = s \/ ends_with_digit s r.
Proof.
  unfold lex_exp. destruct s as [|c s0]; [intros H; injection H; auto|].
  destruct (N.eqb c 101 || N.eqb c 69); [|intros H; injection H; auto].
  assert (Hsign : forall sign r1,
             (r1 = s0 \/ exists x, s0 = x :: r1) ->
             match take_digits r1 with
             | ([], _) => None
             | (ds, r2) => Some (sign * Z.of_N (digits_value ds), r2)
             end = Some (e, r) ->
             r = c :: s0 \/ ends_with_digit (c :: s0) r).
  { intros sign r1 Hr1 H.
    destruct (take_digits r1) as [[|d ds'] r'] eqn:Et; [discriminate|].
    injection H as _ <-. right.
    destruct (take_digits_shape _ _ _ Et) as [[T _]|[_ T]]; [discriminate|].
    apply ends_with_digit_cons.
    destruct Hr1 as [->|[x ->]]; [exact T|].
    now apply ends_with_digit_cons. }
  destruct s0 as [|x r'].
  - apply (Hsign 1 []). now left.
  - destruct (N.eqb x 45).
    + apply (Hsign (-1) r'). right. now exists x.
    + destruct (N.eqb x 43).
      * apply (Hsign 1 r'). right. now exists x.
      * apply (Hsign 1 (x :: r')). now left.
Qed.

Lemma lex_number_shape (s : jsstring) (tok : token) (r : jsstring) :
  lex_number s = Some (tok, r) ->
  ends_with_digit s r /\ exists neg m e, tok = TNumber neg m e.
Proof.
  unfold lex_number.
  assert (Hbody : forall neg s1,
             match lex_int s1 with
             | None => None
             | Some (ids, s2) =>
                 match lex_frac s2 with
                 | None => None
                 | Some (fds, s3) =>
                     match lex_exp s3 with
                     | None => None
                     | Some (e, s4) =>
                         Some (TNumber neg (digits_value (ids ++ fds))
                                 (e - Z.of_nat (List.length fds)), s4)
                     end
                 end
             end = Some (tok, r) ->
             ends_with_digit s1 r /\ exists neg m e, tok = TNumber neg m e).
  { intros neg s1 H.
    destruct (lex_int s1) as [[ids s2]|] eqn:Ei; [|discriminate].
    destruct (lex_frac s2) as [[fds s3]|] eqn:Ef; [|discriminate].
    destruct (lex_exp s3) as [[e s4]|] eqn:Ee; [|discriminate].
    injection H as <- <-. split; [|now eexists; eexists; eexists].
    apply lex_int_shape in Ei. apply lex_frac_shape in Ef.
    apply lex_exp_shape in Ee.
    assert (H3 : ends_with_digit s1 s3).
    { destruct Ef as [->|Ef]; [exact Ei|].
      now apply (ends_with_digit_trans s1 s2 s3). }
    destruct Ee as [->|Ee]; [exact H3|].
    now apply (ends_with_digit_trans s1 s3 s4). }
  destruct s as [|c s0]; [apply Hbody|].
  destruct (N.eqb c 45); [|apply Hbody].
  intros H. apply Hbody in H. destruct H as [H1 H2].
  split; [now apply ends_with_digit_cons|exact H2].
Qed.

(** A token consumes at least one character; only a closing bracket token
    ends with the character 93, and an opening bracket token needs the
    character 91. *)
Lemma lex_token_shape (s : jsstring) (tok : token) (r : jsstring) :
  lex_token s = Some (tok, r) ->
  exists pre d,
    s = pre ++ d :: r /\
    (d = 93%N -> tok = TRBracket) /\
    (tok = TLBracket -> In 91%N s).
Proof.
  unfold lex_token. destruct s as [|c r0]; [discriminate|].
  assert (Hone : forall t : token,
             (c = 93%N -> t = TRBracket) -> (t = TLBracket -> c = 91%N) ->
             Some (t, r0) = Some (tok, r) ->
             exists pre d,
               c :: r0 = pre ++ d :: r /\
               (d = 93%N -> tok = TRBracket) /\
               (tok = TLBracket -> In 91%N (c :: r0))).
  { intros t H1 H2 H. injection H as <- <-. exists [], c.
    split; [reflexivity|]. split; [exact H1|].
    intros Ht. left. now apply H2. }
  destruct (N.eqb c 91) eqn:E91.
  { apply N.eqb_eq in E91. subst c. apply Hone; [discriminate|reflexivity]. }
  destruct (N.eqb c 93) eqn:E93.
  { apply Hone; [reflexivity|discriminate]. }
  apply N.eqb_neq in E93.
  destruct (N.eqb c 123); [apply Hone; [contradiction|discriminate]|].
  destruct (N.eqb c 125); [apply Hone; [contradiction|discriminate]|].
  destruct (N.eqb c 44); [apply Hone; [contradiction|discriminate]|].
  destruct (N.eqb c 58); [apply Hone; [contradiction|discriminate]|].
  destruct (N.eqb c 34).
  { destruct (lex_string r0 []) as [[str r']|] eqn:Es; [|discriminate].
    intros H. injection H as <- <-.
    destruct (lex_string_shape _ _ _ _ Es) as [body ->].
    exists (c :: body), 34%N. repeat split; discriminate. }
  assert (Hlit : forall (p : jsstring) (d : code_unit) (t : token) r',
             strip_prefix (p ++ [d]) (c :: r0) = Some r' ->
             d <> 93%N -> t <> TLBracket ->
             Some (t, r') = Some (tok, r) ->
             exists pre d,
               c :: r0 = pre ++ d :: r /\
               (d = 93%N -> tok = TRBracket) /\
               (tok = TLBracket -> In 91%N (c :: r0))).
  { intros p d t r' Hp Hd Ht H. injection H as <- <-.
    apply strip_prefix_shape in Hp. rewrite Hp, <- app_assoc.
    exists p, d. repeat split; [contradiction|intros; contradiction]. }
  change (lit "true") with ([116; 114; 117] ++ [101])%N.
  change (lit "false") with ([102; 97; 108; 115] ++ [101])%N.
  change (lit "null") with ([110; 117; 108] ++ [108])%N.
  destruct (strip_prefix ([116; 114; 117] ++ [101])%N (c :: r0)) as [r'|] eqn:Et;
    [eapply Hlit; [exact Et|discriminate|discriminate]|].
  destruct (strip_prefix ([102; 97; 108; 115] ++ [101])%N (c :: r0)) as [r'|] eqn:Ef;
    [eapply Hlit; [exact Ef|discriminate|discriminate]|].
  destruct (strip_prefix ([110; 117; 108] ++ [108])%N (c :: r0)) as [r'|] eqn:En;
    [eapply Hlit; [exact En|discriminate|discriminate]|].
  intros H. apply lex_number_shape in H.
  destruct H as [(pre & d & -> & Hd) (neg & m & e & ->)].
  exists pre, d. repeat split; [|discriminate].
  intros ->. discriminate.
Qed.

Lemma lex_token_shorter (s : jsstring) (tok : token) (r : jsstring) :
  lex_token s = Some (tok, r) -> (List.length r < List.length s)%nat.
Proof.
  intros H. apply lex_token_shape in H. destruct H as (pre & d & -> & _).
  rewrite length_app. cbn [List.length]. lia.
Qed.

(** The lexer never runs out of fuel: more fuel than the text is long
    does not change its answer. *)
Lemma lex_fuel_enough (fuel : nat) (s : jsstring) :
  (List.length s < fuel)%nat -> lex_fuel fuel s = lex s.
Proof.
  unfold lex.
  assert (H : forall f1 f2 s, (List.length s < f1)%nat -> (List.length s < f2)%nat ->
                              lex_fuel f1 s = lex_fuel f2 s).
  { clear. induction f1 as [|f1 IH]; intros f2 s H1 H2; [lia|].
    destruct f2 as [|f2]; [lia|]. cbn [lex_fuel].
    destruct s as [|c r]; [reflexivity|]. cbn [List.length] in *.
    destruct (is_ws c).
    - apply IH; lia.
    - destruct (lex_token (c :: r)) as [[tok r']|] eqn:E; [|reflexivity].
      apply lex_token_shorter in E. cbn [List.length] in E.
      f_equal. apply IH; lia. }
  intros Hlt. apply H; [exact Hlt|lia].
Qed.

(** A text without the character 91 yields no opening bracket token. *)
Lemma lex_fuel_no_open (fuel : nat) (s : jsstring) (ts : list token) :
  lex_fuel fuel s = Some ts -> ~ In 91%N s -> ~ In TLBracket ts.
Proof.
  revert s ts. induction fuel as [|fuel IH]; intros s ts H Hs; [discriminate|].
  cbn [lex_fuel] in H. destruct s as [|c r].
  - injection H as <-. intros [].
  - destruct (is_ws c).
    + apply (IH r ts H). intros Hin. apply Hs. now right.
    + destruct (lex_token (c :: r)) as [[tok r']|] eqn:E; [|discriminate].
      destruct (lex_fuel fuel r') as [ts'|] eqn:E'; [|discriminate].
      injection H as <-.
      destruct (lex_token_shape _ _ _ E) as (pre & d & Hshape & _ & Hopen).
      intros [Hin|Hin].
      * now apply Hs, Hopen.
      * apply (IH r' ts' E'); [|exact Hin].
        intros Hr. apply Hs. rewrite Hshape. apply in_or_app. right. now right.
Qed.

(** A text that ends with the character 93 yields a closing bracket
    token. *)
Lemma lex_fuel_closing (fuel : nat) (s s' : jsstring) (ts : list token) :
  lex_fuel fuel s = Some ts -> s = s' ++ [93%N] -> In TRBracket ts.
Proof.
  revert s s' ts. induction fuel as [|fuel IH]; intros s s' ts H Hs;
    [discriminate|].
  cbn [lex_fuel] in H. destruct s as [|c r].
  - destruct s'; discriminate.
  - destruct (is_ws c) eqn:Ews.
    + destruct s' as [|c' s''].
      * injection Hs as -> _. discriminate.
      * injection Hs as _ Hr. now apply (IH r s'' ts H).
    + destruct (lex_token (c :: r)) as [[tok r']|] eqn:E; [|discriminate].
      destruct (lex_fuel fuel r') as [ts'|] eqn:E'; [|discriminate].
      injection H as <-.
      destruct (lex_token_shape _ _ _ E) as (pre & d & Hshape & Hclose & _).
      destruct (exists_last (l := d :: r')) as (l & x & Hl); [discriminate|].
      rewrite Hs, Hl, app_assoc in Hshape.
      apply app_inj_tail in Hshape. destruct Hshape as [_ Hx]. subst x.
      destruct r' as [|y r''].
      * left. apply Hclose.
        destruct l as [|? [|? ?]]; try discriminate.
        now injection Hl.
      * right. destruct l as [|d' l'].
        -- discriminate.
        -- injection Hl as _ Hl'. now apply (IH (y :: r'') l' ts' E').
Qed.

(** ** The parser: fuel *)

(** A successful parse consumes a prefix of the tokens, and any fuel that
    is at least the length of that prefix gives the same result. *)
Lemma parse_fuel (fuel : nat) :
  (forall ts v r,
      parse_value fuel ts = Some (v, r) ->
      exists pre, ts = pre ++ r /\
        forall f, (List.length pre <= f)%nat -> parse_value f ts = Some (v, r)) /\
  (forall ts acc v r,
      parse_elements fuel ts acc = Some (v, r) ->
      exists pre, ts = pre ++ r /\
        forall f, (List.length pre <= f)%nat ->
                  parse_elements f ts acc = Some (v, r)) /\
  (forall ts acc v r,
      parse_members fuel ts acc = Some (v, r) ->
      exists pre, ts = pre ++ r /\
        forall f, (List.length pre <= f)%nat ->
                  parse_members f ts acc = Some (v, r)).
Proof.
  induction fuel as [|fuel (IHv & IHe & IHm)];
    [repeat split; intros; discriminate|].
  assert (He : forall ts acc v r,
             parse_elements (S fuel) ts acc = Some (v, r) ->
             exists pre, ts = pre ++ r /\
               forall f, (List.length pre <= f)%nat ->
                         parse_elements f ts acc = Some (v, r)).
  { intros ts acc v r H. cbn [parse_elements] in H.
    destruct (parse_value fuel ts) as [[v' rest]|] eqn:Ev; [|discriminate].
    destruct (IHv _ _ _ Ev) as (pre1 & -> & H1).
    destruct rest as [|[] r']; try discriminate.
    - injection H as <- <-. exists (pre1 ++ [TRBracket]). split.
      + now rewrite <- app_assoc.
      + intros f Hf. rewrite length_app in Hf. cbn [List.length] in Hf.
        destruct f as [|f]; [lia|]. cbn [parse_elements].
        rewrite H1 by lia. reflexivity.
    - destruct (IHe _ _ _ _ H) as (pre2 & -> & H2).
      exists (pre1 ++ TComma :: pre2). split.
      + now rewrite <- app_assoc.
      + intros f Hf. rewrite length_app in Hf. cbn [List.length] in Hf.
        destruct f as [|f]; [lia|]. cbn [parse_elements].
        rewrite H1 by lia. apply H2. lia. }
  assert (Hm : forall ts acc v r,
             parse_members (S fuel) ts acc = Some (v, r) ->
             exists pre, ts = pre ++ r /\
               forall f, (List.length pre <= f)%nat ->
                         parse_members f ts acc = Some (v, r)).
  { intros ts acc v r H. cbn [parse_members] in H.
    destruct ts as [|[] [|[] r0]]; try discriminate.
    destruct (parse_value fuel r0) as [[v' rest]|] eqn:Ev; [|discriminate].
    destruct (IHv _ _ _ Ev) as (pre1 & -> & H1).
    destruct rest as [|[] r']; try discriminate.
    - injection H as <- <-.
      exists (TString s :: TColon :: pre1 ++ [TRBrace]). split.
      + cbn [app]. now rewrite <- app_assoc.
      + intros f Hf. cbn [List.length] in Hf. rewrite length_app in Hf.
        cbn [List.length] in Hf.
        destruct f as [|f]; [lia|]. cbn [parse_members].
        rewrite H1 by lia. reflexivity.
    - destruct (IHm _ _ _ _ H) as (pre2 & -> & H2).
      exists (TString s :: TColon :: pre1 ++ TComma :: pre2). split.
      + cbn [app]. now rewrite <- app_assoc.
      + intros f Hf. cbn [List.length] in Hf. rewrite length_app in Hf.
        cbn [List.length] in Hf.
        destruct f as [|f]; [lia|]. cbn [parse_members].
        rewrite H1 by lia. apply H2. lia. }
  split; [|split; [exact He|exact Hm]].
  intros ts v r H. cbn [parse_value] in H.
  assert (Hscalar : forall (t : token) (r0 : list token) (v0 : json),
             (forall f, parse_value (S f) (t :: r0) = Some (v0, r0)) ->
             exists pre, t :: r0 = pre ++ r0 /\
               forall f, (List.length pre <= f)%nat ->
                         parse_value f (t :: r0) = Some (v0, r0)).
  { intros t r0 v0 Ht. exists [t]. split; [reflexivity|].
    intros f Hf. cbn [List.length] in Hf. destruct f as [|f]; [lia|]. apply Ht. }
  destruct ts as [|t0 r0]; [discriminate|].
  destruct t0; try discriminate;
    try (injection H as <- <-; apply Hscalar; reflexivity).
  - (* an array *)
    assert (Hel : parse_elements fuel r0 [] = Some (v, r) ->
                  (forall f, parse_value (S f) (TLBracket :: r0) =
                             parse_elements f r0 []) ->
                  exists pre, TLBracket :: r0 = pre ++ r /\
                    forall f, (List.length pre <= f)%nat ->
                              parse_value f (TLBracket :: r0) = Some (v, r)).
    { intros Hp Hunfold. destruct (IHe _ _ _ _ Hp) as (pre & -> & Hpre).
      exists (TLBracket :: pre). split; [reflexivity|].
      intros f Hf. cbn [List.length] in Hf. destruct f as [|f]; [lia|].
      rewrite Hunfold. apply Hpre. lia. }
    destruct r0 as [|t1 r1]; [now apply Hel|].
    destruct t1; try (now apply Hel).
    injection H as <- <-. exists [TLBracket; TRBracket]. split; [reflexivity|].
    intros f Hf. cbn [List.length] in Hf. destruct f as [|f]; [lia|]. reflexivity.
  - (* an object *)
    assert (Hme : parse_members fuel r0 [] = Some (v, r) ->
                  (forall f, parse_value (S f) (TLBrace :: r0) =
                             parse_members f r0 []) ->
                  exists pre, TLBrace :: r0 = pre ++ r /\
                    forall f, (List.length pre <= f)%nat ->
                              parse_value f (TLBrace :: r0) = Some (v, r)).
    { intros Hp Hunfold. destruct (IHm _ _ _ _ Hp) as (pre & -> & Hpre).
      exists (TLBrace :: pre). split; [reflexivity|].
      intros f Hf. cbn [List.length] in Hf. destruct f as [|f]; [lia|].
      rewrite Hunfold. apply Hpre. lia. }
    destruct r0 as [|t1 r1]; [now apply Hme|].
    destruct t1; try (now apply Hme).
    injection H as <- <-. exists [TLBrace; TRBrace]. split; [reflexivity|].
    intros f Hf. cbn [List.length] in Hf. destruct f as [|f]; [lia|]. reflexivity.
Qed.

(** The fuel [parse] gives the parser is enough: whatever value some
    amount of fuel yields for the whole token list, [parse] yields it. *)
Lemma parse_fuel_enough (text : jsstring) (ts : list token) (fuel : nat) (v : json) :
  lex text = Some ts -> parse_value fuel ts = Some (v, []) ->
  parse text = Some v.
Proof.
  intros Hl Hp. unfold parse. rewrite Hl.
  destruct (proj1 (parse_fuel fuel) _ _ _ Hp) as (pre & Hpre & Hf).
  rewrite app_nil_r in Hpre. subst pre. rewrite Hf by lia. reflexivity.
Qed.

(** ** The parser: tokens without an opening bracket *)

(** Among tokens that hold no opening bracket, a value never consumes a
    closing bracket. *)
Lemma parse_no_open (fuel : nat) :
  (forall ts v r,
      ~ In TLBracket ts -> parse_value fuel ts = Some (v, r) ->
      exists pre, ts = pre ++ r /\ ~ In TRBracket pre) /\
  (forall ts acc v r,
      ~ In TLBracket ts -> parse_members fuel ts acc = Some (v, r) ->
      exists pre, ts = pre ++ r /\ ~ In TRBracket pre).
Proof.
  induction fuel as [|fuel [IHv IHm]]; [split; intros; discriminate|].
  assert (Hm : forall ts acc v r,
             ~ In TLBracket ts -> parse_members (S fuel) ts acc = Some (v, r) ->
             exists pre, ts = pre ++ r /\ ~ In TRBracket pre).
  { intros ts acc v r Hts H. cbn [parse_members] in H.
    destruct ts as [|[] [|[] r0]]; try discriminate.
    destruct (parse_value fuel r0) as [[v' rest]|] eqn:Ev; [|discriminate].
    assert (Hr0 : ~ In TLBracket r0).
    { intros Hin. apply Hts. now right; right. }
    destruct (IHv _ _ _ Hr0 Ev) as (pre1 & -> & Hpre1).
    destruct rest as [|[] r']; try discriminate.
    - injection H as _ <-.
      exists (TString s :: TColon :: pre1 ++ [TRBrace]). split.
      + cbn [app]. now rewrite <- app_assoc.
      + intros [Hin|[Hin|Hin]]; try discriminate.
        apply in_app_or in Hin. destruct Hin as [Hin|[Hin|[]]];
          [contradiction|discriminate].
    - assert (Hr' : ~ In TLBracket r').
      { intros Hin. apply Hr0. apply in_or_app. right. now right. }
      destruct (IHm _ _ _ _ Hr' H) as (pre2 & -> & Hpre2).
      exists (TString s :: TColon :: pre1 ++ TComma :: pre2). split.
      + cbn [app]. now rewrite <- app_assoc.
      + intros [Hin|[Hin|Hin]]; try discriminate.
        apply in_app_or in Hin. destruct Hin as [Hin|[Hin|Hin]];
          [contradiction|discriminate|contradiction]. }
  split; [|exact Hm].
  intros ts v r Hts H. cbn [parse_value] in H.
  assert (Hscalar : forall (t : token) (r0 : list token),
             t <> TRBracket ->
             exists pre, t :: r0 = pre ++ r0 /\ ~ In TRBracket pre).
  { intros t r0 Ht. exists [t]. split; [reflexivity|].
    intros [Hin|[]]. now apply Ht. }
  destruct ts as [|t0 r0]; [discriminate|].
  destruct t0; try discriminate;
    try (injection H as _ <-; apply Hscalar; discriminate).
  - exfalso. apply Hts. now left.
  - assert (Hr0 : ~ In TLBracket r0).
    { intros Hin. apply Hts. now right. }
    assert (Hmem : parse_members fuel r0 [] = Some (v, r) ->
                   exists pre, TLBrace :: r0 = pre ++ r /\ ~ In TRBracket pre).
    { intros Hp. destruct (IHm _ _ _ _ Hr0 Hp) as (pre & -> & Hpre).
      exists (TLBrace :: pre). split; [reflexivity|].
      intros [Hin|Hin]; [discriminate|contradiction]. }
    destruct r0 as [|t1 r1]; [now apply Hmem|].
    destruct t1; try (now apply Hmem).
    injection H as _ <-. exists [TLBrace; TRBrace]. split; [reflexivity|].
    intros [Hin|[Hin|[]]]; discriminate.
Qed.

(** A text whose only bracket characters are closing ones, and which ends
    with one, is not valid JSON. *)
Lemma parse_rejects_unopened (s : jsstring) :
  ~ In 91%N s -> parse (s ++ [93%N]) = None.
Proof.
  intros Hs. unfold parse.
  destruct (lex (s ++ [93%N])) as [ts|] eqn:El; [|reflexivity].
  destruct (parse_value (S (List.length ts)) ts) as [[v [|t r]]|] eqn:Ep;
    try reflexivity.
  exfalso. unfold lex in El.
  assert (Hopen : ~ In TLBracket ts).
  { apply (lex_fuel_no_open _ _ _ El). intros Hin.
    apply in_app_or in Hin. destruct Hin as [Hin|[Hin|[]]];
      [contradiction|discriminate]. }
  pose proof (lex_fuel_closing _ _ s _ El eq_refl) as Hclose.
  destruct (proj1 (parse_no_open _) _ _ _ Hopen Ep) as (pre & Hpre & Hno).
  rewrite app_nil_r in Hpre. subst pre. contradiction.
Qed.

Lemma in_split_last (c : code_unit) (s : jsstring) :
  In c s -> exists before after, s = before ++ c :: after /\ ~ In c after.
Proof.
  induction s as [|x s IH]; intros H; [contradiction|].
  destruct (in_dec N.eq_dec c s) as [Hin|Hnot].
  - destruct (IH Hin) as (b & a & -> & Ha). now exists (x :: b), a.
  - destruct H as [->|H]; [|contradiction]. now exists [], s.
Qed.

Lemma json_text_unopened (before after : jsstring) :
  ~ In 91%N (before ++ 93%N :: after) -> ~ In 93%N after ->
  json_text (before ++ 93%N :: after) = before ++ [93%N].
Proof.
  intros Ho Ha. unfold json_text.
  rewrite (indexOf_absent _ _ Ho), (lastIndexOf_last _ _ _ Ha).
  change (substring (before ++ 93%N :: after) (-1) (JS.length before + 1))
    with (substring (before ++ 93%N :: after) 0 (JS.length before + 1)).
  replace (before ++ 93%N :: after) with ([] ++ (before ++ [93%N]) ++ after)
    by (cbn [app]; now rewrite <- app_assoc).
  replace (JS.length before + 1) with (JS.length [] + JS.length (before ++ [93%N])).
  - apply substring_middle.
  - unfold JS.length. rewrite length_app. cbn [List.length]. lia.
Qed.

(** ** Extraction: what holds of claim C1 *)

(** X17.  When the first opening bracket comes before the last closing bracket,
    extraction parses exactly the span between them, both included,
    whatever surrounds it; it succeeds exactly when that span is valid
    JSON, and what it yields is an array. *)
Lemma extraction_between_brackets (before middle after : jsstring) :
  ~ In 91%N before -> ~ In 93%N after ->
  extract_questions (ContentString (before ++ 91%N :: middle ++ 93%N :: after)) =
    match parse (91%N :: middle ++ [93%N]) with
    | Some questions => Normal questions
    | None => Throw SyntaxError
    end /\
  (forall questions,
      parse (91%N :: middle ++ [93%N]) = Some questions ->
      exists items, questions = JArr items).
Proof.
  intros Hb Ha. split.
  - unfold extract_questions, response_text.
    now rewrite (json_text_between before middle after Hb Ha).
  - intros questions. apply parse_bracketed_is_array.
Qed.

(** X18.  A response text without an opening bracket is always rejected,
    with or without a closing one. *)
Lemma extraction_fails_without_opening (text : jsstring) :
  ~ In 91%N text -> extract_questions (ContentString text) = Throw SyntaxError.
Proof.
  intros Ho. unfold extract_questions, response_text.
  destruct (in_dec N.eq_dec 93%N text) as [Hc|Hc].
  - destruct (in_split_last _ _ Hc) as (b & a & -> & Ha).
    rewrite (json_text_unopened b a Ho Ha).
    rewrite parse_rejects_unopened; [reflexivity|].
    intros Hin. apply Ho. apply in_or_app. now left.
  - now rewrite (json_text_without_brackets text Ho Hc).
Qed.

(** When extraction fails the user is sent the invalid-JSON message, and
    nothing else: no poll, no summary. *)
Lemma rejected_response_reply
    (error_toString : js_error -> jsstring) (world : env)
    (chatId : Z) (p : provider) (temperature : Q) (modelName prompt : jsstring)
    (content : message_content) (e : js_error) (t : list event) :
  llm_invoke world p temperature modelName prompt = inr content ->
  extract_questions content = Throw e ->
  generate error_toString world chatId (p, temperature, modelName) prompt t =
    (Normal tt,
     t ++ [Invoke prompt;
           ConsoleError (lit "Failed to parse JSON from GPT:") None;
           SendMessage chatId invalid_json_text]).
Proof.
  intros Hi He. unfold generate, invoke, bind, lift, ret, emit, try_catch.
  rewrite Hi, He. now rewrite <- !app_assoc.
Qed.

(* ================================================================== *)
(** * Further properties of the handler *)
(* ================================================================== *)

Import Observe.

Section Further.

Variable supportedModels : list jsstring.
Variable toLowerCase : jsstring -> jsstring.
Variable error_toString : js_error -> jsstring.
Variable world : env.

Local Abbreviation process_question := (Bot.process_question error_toString world).
Local Abbreviation process_questions := (Bot.process_questions error_toString world).
Local Abbreviation dispatch := (Bot.dispatch error_toString world).
Local Abbreviation generate := (Bot.generate error_toString world).
Local Abbreviation make_mcq :=
  (Bot.make_mcq supportedModels toLowerCase error_toString world).
Local Abbreviation on_message :=
  (Bot.on_message supportedModels toLowerCase error_toString world).
Local Abbreviation on_message_body :=
  (Bot.on_message_body supportedModels toLowerCase error_toString world).
Local Abbreviation find_model := (Bot.find_model supportedModels toLowerCase).
Local Abbreviation help_text := (Bot.help_text supportedModels).
Local Abbreviation failure_report := (Spec.failure_report error_toString).

Ltac run := unfold bind, lift, ret, emit, try_catch, Bot.sendPoll.

(** ** What a poll can carry *)

Lemma fits_firstn_string (n : nat) (s : jsstring) : fits n (JStr (firstn n s)).
Proof. split; [reflexivity|]. cbn [size]. apply firstn_le_length. Qed.

Lemma fits_firstn_array (n : nat) (l : list json) : fits n (JArr (firstn n l)).
Proof. split; [reflexivity|]. cbn [size]. apply firstn_le_length. Qed.

Lemma slice_option_fits (o o' : json) :
  slice_option o = Normal o' -> fits 100 o'.
Proof.
  destruct o as [| | |s|l|]; unfold slice_option, slice0; intros H;
    try discriminate H.
  - replace o' with (JStr (firstn 100 s)) by congruence.
    apply fits_firstn_string.
  - replace o' with (JArr (firstn 100 l)) by congruence.
    apply fits_firstn_array.
Qed.

Lemma map_slice_fits (l l' : list json) :
  map_completion slice_option l = Normal l' -> Forall (fits 100) l'.
Proof.
  revert l'. induction l as [|o l IH]; cbn [map_completion]; intros l' H.
  - injection H as <-. constructor.
  - destruct (slice_option o) as [o'|e] eqn:Eo; [|discriminate].
    destruct (map_completion slice_option l) as [ys|e]; [|discriminate].
    injection H as <-. constructor; [now apply (slice_option_fits o)|now apply IH].
Qed.

Lemma truncate_options_fits (o : option json) (l : list json) :
  truncate_options o = Normal (Some l) -> Forall (fits 100) l.
Proof.
  destruct o as [[| | | |items|]|]; cbn [truncate_options]; intros H;
    try discriminate.
  destruct (map_completion slice_option items) as [l'|e] eqn:E; [|discriminate].
  injection H as <-. now apply (map_slice_fits items).
Qed.

Lemma poll_question_fits (questionText : option json) (question : json) :
  poll_question questionText = Normal question -> fits 200 question.
Proof.
  assert (Hempty : fits 200 (JStr [])) by (split; [reflexivity|cbn; lia]).
  destruct questionText as [[| | |s|l|]|];
    unfold poll_question, slice0, truthy; intros H; try discriminate H;
    try (replace question with (JStr []) by congruence; exact Hempty).
  - destruct (firstn 200 s) eqn:E.
    + replace question with (JStr []) by congruence. exact Hempty.
    + replace question with (JStr (firstn 200 s)) by congruence.
      apply fits_firstn_string.
  - replace question with (JArr (firstn 200 l)) by congruence.
    apply fits_firstn_array.
Qed.

(** ** One iteration, whatever the record *)

(** One iteration only extends the trace, with at most one poll; what it
    adds is sound and is not about the LLM client. *)
Lemma process_question_sound (chatId : Z) (q : json) (t : list event) :
  exists c new,
    process_question chatId q t = (c, t ++ new) /\
    Forall (sound_reply chatId) new /\
    (List.length (polls new) <= 1)%nat.
Proof.
  assert (Hthrow : forall e : js_error,
             exists c new, (Throw (A := unit) e, t) = (c, t ++ new) /\
               Forall (sound_reply chatId) new /\
               (List.length (polls new) <= 1)%nat).
  { intros e. exists (Throw e), []. rewrite app_nil_r.
    repeat split; [constructor|simpl; lia]. }
  assert (Hreport : forall e : js_error, Forall (sound_reply chatId) (failure_report chatId e)).
  { intros e. repeat constructor. }
  unfold Bot.process_question. run.
  destruct (get q (lit "question")) as [questionText|e]; [|apply Hthrow].
  destruct (get q (lit "options")) as [rawOptions|e]; [|apply Hthrow].
  destruct (truncate_options rawOptions) as [options|e] eqn:Eo; [|apply Hthrow].
  destruct (get q (lit "correctOptionIndex")) as [correctOptionIndex|e];
    [|apply Hthrow].
  destruct (get q (lit "explanation")) as [explanation|e]; [|apply Hthrow].
  destruct (negb (truthy questionText)) eqn:Et; cbn [orb].
  { exists (Normal tt), []. rewrite app_nil_r.
    repeat split; [constructor|simpl; lia]. }
  destruct options as [l|]; cbn [orb].
  2:{ exists (Normal tt), []. rewrite app_nil_r.
      repeat split; [constructor|simpl; lia]. }
  destruct (nullish correctOptionIndex) eqn:En.
  { exists (Normal tt), []. rewrite app_nil_r.
    repeat split; [constructor|simpl; lia]. }
  destruct (poll_question questionText) as [question|e] eqn:Eq.
  - assert (Hpoll : sound_reply chatId
              (SendPoll chatId question (Some l)
                 {| type_ := lit "quiz";
                    correct_option_id := correctOptionIndex;
                    explanation := explanation;
                    is_anonymous := false |})).
    { split; [|reflexivity]. cbn [sound type_ is_anonymous correct_option_id].
      repeat split; try reflexivity.
      - now apply (poll_question_fits questionText).
      - now apply (poll_question_fits questionText).
      - exists l. split; [reflexivity|]. now apply (truncate_options_fits rawOptions).
      - exact En. }
    destruct (sendPoll_outcome world t chatId question (Some l) _) as [e|].
    + eexists. eexists. rewrite <- !app_assoc. split; [reflexivity|].
      split; [|simpl; lia].
      constructor; [exact Hpoll|apply Hreport].
    + eexists. eexists. split; [reflexivity|].
      split; [|simpl; lia]. constructor; [exact Hpoll|constructor].
  - eexists. eexists. rewrite <- !app_assoc. split; [reflexivity|].
    split; [apply Hreport|simpl; lia].
Qed.

Lemma process_questions_sound (chatId : Z) (qs : list json) (t : list event) :
  exists c new,
    process_questions chatId qs t = (c, t ++ new) /\
    Forall (sound_reply chatId) new /\
    (List.length (polls new) <= List.length qs)%nat.
Proof.
  revert t. induction qs as [|q qs IH]; intros t; cbn [Bot.process_questions].
  - exists (Normal tt), []. rewrite app_nil_r.
    repeat split; [constructor|simpl; lia].
  - unfold bind.
    destruct (process_question_sound chatId q t) as (c & new & E & F & L).
    rewrite E. destruct c as [[]|e].
    + destruct (IH (t ++ new)) as (c' & new' & E' & F' & L').
      exists c', (new ++ new'). rewrite E', app_assoc. split; [reflexivity|].
      split; [apply Forall_app; now split|].
      unfold polls in *. rewrite filter_app, length_app. cbn [List.length]. lia.
    + exists (Throw e), new. split; [reflexivity|]. split; [exact F|].
      cbn [List.length]. lia.
Qed.

(** ** The shape of a run *)

Lemma dispatch_shape (chatId : Z) (questions : json) (t : list event) :
  exists c new,
    dispatch chatId questions t = (c, t ++ new) /\
    Forall (sound_reply chatId) new /\
    (c = Normal tt ->
     exists pre, new = pre ++ [SendMessage chatId (summary_text questions)]).
Proof.
  unfold Bot.dispatch. run.
  destruct (iterate questions) as [qs|e].
  - destruct (process_questions_sound chatId qs t) as (c & new & E & F & _).
    rewrite E. destruct c as [[]|e].
    + exists (Normal tt), (new ++ [SendMessage chatId (summary_text questions)]).
      rewrite app_assoc. split; [reflexivity|]. split.
      * apply Forall_app. split; [exact F|]. repeat constructor.
      * intros _. now exists new.
    + exists (Throw e), new. split; [reflexivity|]. split; [exact F|discriminate].
  - exists (Throw e), []. rewrite app_nil_r.
    split; [reflexivity|]. split; [constructor|discriminate].
Qed.

(** The generation stage starts with the invocation and ends with a
    message to the chat, whatever happens in between. *)
Lemma generate_shape
    (chatId : Z) (llm : provider * Q * jsstring) (prompt : jsstring)
    (t : list event) :
  exists rest m,
    generate chatId llm prompt t =
      (Normal tt, t ++ Invoke prompt :: rest ++ [SendMessage chatId m]) /\
    Forall (sound_reply chatId) rest.
Proof.
  destruct llm as [[p temperature] modelName].
  unfold Bot.generate, Bot.invoke. run.
  destruct (llm_invoke world p temperature modelName prompt) as [e|content].
  - exists [ConsoleError (lit "Error creating MCQ via GPT:") (Some e)],
           generation_failed_text.
    rewrite <- !app_assoc. split; [reflexivity|repeat constructor].
  - destruct (extract_questions content) as [questions|e].
    + destruct (dispatch_shape chatId questions (t ++ [Invoke prompt]))
        as (c & new & E & F & L).
      rewrite E. destruct c as [[]|e].
      * destruct (L eq_refl) as [pre ->].
        exists pre, (summary_text questions).
        rewrite <- !app_assoc. split; [reflexivity|].
        apply Forall_app in F. tauto.
      * exists (new ++ [ConsoleError (lit "Error creating MCQ via GPT:") (Some e)]),
               generation_failed_text.
        rewrite <- !app_assoc. split; [reflexivity|].
        apply Forall_app. split; [exact F|repeat constructor].
    + exists [ConsoleError (lit "Failed to parse JSON from GPT:") None],
             invalid_json_text.
      rewrite <- !app_assoc. split; [reflexivity|repeat constructor].
Qed.

(** The four ways the command branch can go. *)
Lemma make_mcq_shape (chatId : Z) (txt : jsstring) (t : list event) :
  (exists e kw,
      make_mcq chatId txt t = (Throw e, t) /\ split 32%N txt = [kw]) \/
  (exists m, make_mcq chatId txt t = (Normal tt, t ++ [SendMessage chatId m])) \/
  (exists p temperature name e,
      make_mcq chatId txt t = (Throw e, t ++ [NewLLM p temperature name]) /\
      llm_construct world p temperature name = Some e) \/
  (exists p temperature name prompt rest m,
      make_mcq chatId txt t =
        (Normal tt,
         t ++ NewLLM p temperature name :: Invoke prompt :: rest
           ++ [SendMessage chatId m]) /\
      Forall (sound_reply chatId) rest).
Proof.
  unfold Bot.make_mcq.
  destruct (split 32%N txt) as [|kw [|numQsStr contentArr]] eqn:Es.
  - now apply split_nonempty in Es.
  - left. eexists. exists kw. split; reflexivity.
  - right.
    destruct (join (lit " ") contentArr) as [|c0 content'];
      [left; eexists; reflexivity|].
    destruct (nth 0 (split 32%N numQsStr) []) as [|m0 modelName'];
      [left; eexists; reflexivity|].
    destruct (find_model (m0 :: modelName')) as [[|p0 parsed']|];
      try (left; eexists; reflexivity).
    right. unfold Bot.new_llm. run.
    destruct (llm_config (p0 :: parsed')) as [p temperature].
    cbv beta iota.
    destruct (llm_construct world p temperature (p0 :: parsed')) as [e|] eqn:Ec.
    + left. exists p, temperature, (p0 :: parsed'), e. split; [reflexivity|exact Ec].
    + right.
      destruct (generate_shape chatId (p, temperature, p0 :: parsed')
                  (build_prompt (c0 :: content'))
                  (t ++ [NewLLM p temperature (p0 :: parsed')]))
        as (rest & m & E & F).
      exists p, temperature, (p0 :: parsed'), (build_prompt (c0 :: content')), rest, m.
      rewrite <- app_assoc in E. split; [exact E|exact F].
Qed.

Lemma on_message_sound (msg : message) (t : list event) :
  exists new,
    on_message msg t = (Normal tt, t ++ new) /\
    Forall (sound (chat_id msg)) new.
Proof.
  assert (Hsr : forall l, Forall (sound_reply (chat_id msg)) l ->
                          Forall (sound (chat_id msg)) l).
  { intros l. apply Forall_impl. now intros a [Ha _]. }
  unfold Bot.on_message, try_catch, Bot.on_message_body.
  destruct (text msg) as [[|c0 txt]|];
    try (exists []; rewrite app_nil_r; split; [reflexivity|constructor]).
  destruct (startsWith trigger (c0 :: txt)).
  - destruct (make_mcq_shape (chat_id msg) (c0 :: txt) t)
      as [(e & kw & E & _)|[(m & E)|[(p & temperature & name & e & E & _)
         |(p & temperature & name & prompt & rest & m & E & F)]]];
      rewrite E; unfold emit.
    + eexists. split; [reflexivity|]. repeat constructor.
    + eexists. split; [reflexivity|]. repeat constructor.
    + eexists. rewrite <- app_assoc. split; [reflexivity|]. repeat constructor.
    + eexists. split; [reflexivity|].
      constructor; [exact I|]. constructor; [exact I|].
      apply Forall_app. split; [now apply Hsr|]. repeat constructor.
  - eexists. split; [reflexivity|]. repeat constructor.
Qed.

(** ** Where the replies go *)

(** X1.  Whatever the message, the LLM and the transport do, every chat
    message and every poll the handler sends goes to the chat the inbound
    message came from. *)
Theorem replies_go_to_the_sender (msg : message) (t : list event) :
  exists new,
    on_message msg t = (Normal tt, t ++ new) /\
    (forall chatId txt, In (SendMessage chatId txt) new -> chatId = chat_id msg) /\
    (forall chatId question options opts,
        In (SendPoll chatId question options opts) new -> chatId = chat_id msg).
Proof.
  destruct (on_message_sound msg t) as (new & E & F).
  exists new. split; [exact E|]. rewrite Forall_forall in F.
  split.
  - intros chatId txt Hin. exact (F _ Hin).
  - intros chatId question options opts Hin. exact (proj1 (F _ Hin)).
Qed.

(** ** What a poll carries *)

(** X2.  Whatever the LLM answers, every poll the handler sends has a
    question that is a string or an array of at most 200 elements, a
    defined list of options each of at most 100 elements, the kind [quiz],
    anonymity off, and a correct option that is neither null nor
    undefined. *)
Theorem every_poll_is_well_formed (msg : message) (t : list event) :
  exists new,
    on_message msg t = (Normal tt, t ++ new) /\
    forall chatId question options opts,
      In (SendPoll chatId question options opts) new ->
      fits 200 question /\
      (exists l, options = Some l /\ Forall (fits 100) l) /\
      type_ opts = lit "quiz" /\
      is_anonymous opts = false /\
      nullish (correct_option_id opts) = false.
Proof.
  destruct (on_message_sound msg t) as (new & E & F).
  exists new. split; [exact E|]. rewrite Forall_forall in F.
  intros chatId question options opts Hin. exact (proj2 (F _ Hin)).
Qed.

(** ** The order of the events *)

Lemma reply_events_of_sound (chatId : Z) (l : list event) :
  Forall (sound_reply chatId) l -> Forall (fun e => is_reply_event e = true) l.
Proof. apply Forall_impl. now intros a [_ Ha]. Qed.

(** X3.  In every run the events about the LLM client come first and are
    at most one construction followed by at most one invocation; nothing
    is invoked without a client, and no poll is sent unless the LLM was
    invoked. *)
Theorem llm_events_come_first_and_once (msg : message) (t : list event) :
  exists pre rest,
    on_message msg t = (Normal tt, t ++ pre ++ rest) /\
    Forall (fun e => is_reply_event e = true) rest /\
    ((pre = [] /\ polls rest = []) \/
     (exists p temperature name,
         pre = [NewLLM p temperature name] /\ polls rest = []) \/
     (exists p temperature name prompt,
         pre = [NewLLM p temperature name; Invoke prompt])).
Proof.
  unfold Bot.on_message, try_catch, Bot.on_message_body.
  assert (Hnone : exists pre rest,
             (Normal tt, t) = (Normal tt, t ++ pre ++ rest) /\
             Forall (fun e => is_reply_event e = true) rest /\
             ((pre = [] /\ polls rest = []) \/
              (exists p temperature name,
                  pre = [NewLLM p temperature name] /\ polls rest = []) \/
              (exists p temperature name prompt,
                  pre = [NewLLM p temperature name; Invoke prompt]))).
  { exists [], []. rewrite app_nil_r. split; [reflexivity|].
    split; [constructor|]. left. now split. }
  destruct (text msg) as [[|c0 txt]|]; try exact Hnone.
  destruct (startsWith trigger (c0 :: txt)).
  - destruct (make_mcq_shape (chat_id msg) (c0 :: txt) t)
      as [(e & kw & E & _)|[(m & E)|[(p & temperature & name & e & E & _)
         |(p & temperature & name & prompt & rest & m & E & F)]]];
      rewrite E; unfold emit.
    + exists [], [top_level_log e]. split; [reflexivity|].
      split; [repeat constructor|]. left. now split.
    + exists [], [SendMessage (chat_id msg) m]. split; [reflexivity|].
      split; [repeat constructor|]. left. now split.
    + exists [NewLLM p temperature name], [top_level_log e].
      rewrite <- app_assoc. split; [reflexivity|].
      split; [repeat constructor|]. right. left.
      exists p, temperature, name. now split.
    + exists [NewLLM p temperature name; Invoke prompt],
             (rest ++ [SendMessage (chat_id msg) m]).
      split; [reflexivity|]. split.
      * apply Forall_app. split; [now apply (reply_events_of_sound (chat_id msg))|].
        repeat constructor.
      * right. right. now exists p, temperature, name, prompt.
  - exists [], [SendMessage (chat_id msg) help_text]. split; [reflexivity|].
    split; [repeat constructor|]. left. now split.
Qed.

(** ** Which messages are answered *)

Lemma split_single (sep : code_unit) (s k : jsstring) :
  split sep s = [k] -> ~ In sep s.
Proof.
  revert k. induction s as [|c s IH]; intros k H; [intros []|].
  cbn [split] in H. destruct (N.eqb c sep) eqn:E.
  - injection H as _ H. now apply split_nonempty in H.
  - destruct (split sep s) as [|h tl] eqn:Es; [now apply split_nonempty in Es|].
    injection H as _ ->. apply N.eqb_neq in E.
    intros [Hc|Hin]; [congruence|]. now apply (IH h).
Qed.

(** X4.  When constructing the client does not fail, every text message
    is answered, except a command text that holds no space: the last thing
    the handler does is send a message to the chat. *)
Theorem every_spaced_text_is_answered
    (msg : message) (txt : jsstring) (t : list event) :
  text msg = Some txt -> txt <> [] ->
  (startsWith trigger txt = true -> In 32%N txt) ->
  (forall p temperature name, llm_construct world p temperature name = None) ->
  exists before reply,
    on_message msg t =
      (Normal tt, t ++ before ++ [SendMessage (chat_id msg) reply]).
Proof.
  intros Ht Hne Hspace Hconstruct.
  unfold Bot.on_message, try_catch, Bot.on_message_body. rewrite Ht.
  destruct txt as [|c0 txt]; [congruence|].
  destruct (startsWith trigger (c0 :: txt)).
  - destruct (make_mcq_shape (chat_id msg) (c0 :: txt) t)
      as [(e & kw & _ & Hs)|[(m & E)|[(p & temperature & name & e & _ & Hc)
         |(p & temperature & name & prompt & rest & m & E & _)]]].
    + exfalso. apply (split_single _ _ _ Hs). now apply Hspace.
    + rewrite E. now exists [], m.
    + rewrite Hconstruct in Hc. discriminate.
    + rewrite E. exists (NewLLM p temperature name :: Invoke prompt :: rest), m.
      reflexivity.
  - now exists [], help_text.
Qed.

(** X5.  A command text that holds no space, the bare trigger or the
    trigger with anything glued to it, is never answered: reading the
    model-name token throws, and only the console line of the top-level
    [catch] is left. *)
Theorem command_without_space_is_unanswered
    (msg : message) (txt : jsstring) (t : list event) :
  text msg = Some txt -> startsWith trigger txt = true -> ~ In 32%N txt ->
  on_message msg t =
    (Normal tt,
     t ++ [top_level_log (TypeError "cannot read properties of undefined")]).
Proof.
  intros Ht Hs Hspace. unfold Bot.on_message, try_catch.
  rewrite (on_message_body_command _ _ _ _ msg txt t Ht Hs).
  unfold Bot.make_mcq. rewrite (split_without_separator _ _ Hspace).
  reflexivity.
Qed.

(** ** A well-formed command *)

Lemma split_app_separator (sep : code_unit) (a b : jsstring) :
  ~ In sep a -> split sep (a ++ sep :: b) = a :: split sep b.
Proof.
  induction a as [|c a IH]; intros H; cbn [app split].
  - now rewrite N.eqb_refl.
  - destruct (N.eqb c sep) eqn:E.
    + apply N.eqb_eq in E. exfalso. apply H. now left.
    + rewrite IH; [reflexivity|]. intros Hin. apply H. now right.
Qed.

Lemma join_cons_head (sep : jsstring) (c : code_unit) (h : jsstring)
                     (tl : list jsstring) :
  join sep ((c :: h) :: tl) = c :: join sep (h :: tl).
Proof. destruct tl; reflexivity. Qed.

(** Splitting at a character and joining with it gives the text back. *)
Lemma join_split (sep : code_unit) (s : jsstring) :
  join [sep] (split sep s) = s.
Proof.
  induction s as [|c s IH]; [reflexivity|]. cbn [split].
  destruct (N.eqb c sep) eqn:E.
  - apply N.eqb_eq in E. subst c.
    destruct (split sep s) as [|h tl] eqn:Es; [now apply split_nonempty in Es|].
    change (join [sep] ([] :: h :: tl)) with (sep :: join [sep] (h :: tl)).
    now rewrite IH.
  - destruct (split sep s) as [|h tl] eqn:Es; [now apply split_nonempty in Es|].
    now rewrite join_cons_head, IH.
Qed.

Lemma startsWith_app_right (p a b : jsstring) :
  startsWith p a = true -> startsWith p (a ++ b) = true.
Proof.
  intros H. apply startsWith_prefix in H. destruct H as [rest ->].
  rewrite <- app_assoc. apply startsWith_app.
Qed.

Section WellFormedCommand.

(** The text [kw token content]: a keyword that starts with the trigger,
    a model-name token that the table resolves to [m], and a content, the
    keyword and the token holding no space. *)
Variable msg : message.
Variables kw token content m : jsstring.
Hypothesis text_is_command : text msg = Some (kw ++ 32%N :: token ++ 32%N :: content).
Hypothesis keyword_starts_with_trigger : startsWith trigger kw = true.
Hypothesis keyword_has_no_space : ~ In 32%N kw.
Hypothesis token_has_no_space : ~ In 32%N token.
Hypothesis token_not_empty : token <> [].
Hypothesis content_not_empty : content <> [].
Hypothesis token_resolves : find_model token = Some m.
Hypothesis model_not_empty : m <> [].

Lemma command_reaches_generation (t : list event) :
  on_message_body msg t =
  (llm <- new_llm world m ;;
   generate (chat_id msg) llm (build_prompt content)) t.
Proof.
  rewrite (on_message_body_command _ _ _ _ msg _ t text_is_command)
    by (now apply startsWith_app_right).
  unfold Bot.make_mcq.
  rewrite (split_app_separator _ kw _ keyword_has_no_space).
  rewrite (split_app_separator _ token _ token_has_no_space).
  rewrite (split_without_separator _ _ token_has_no_space).
  change (lit " ") with [32%N]. rewrite join_split. cbn [nth].
  destruct content as [|c0 content']; [congruence|].
  destruct token as [|t0 token']; [congruence|].
  rewrite token_resolves.
  destruct m as [|m0 m']; [congruence|]. reflexivity.
Qed.

(** X6.  The content of a well-formed command reaches the LLM as the
    user wrote it: the prompt is the template with everything after the
    second space of the message spliced in, inner and trailing spaces
    included, and the client is the one configured for the resolved
    model. *)
Theorem content_reaches_the_prompt_verbatim (t : list event) :
  llm_construct world (fst (llm_config m)) (snd (llm_config m)) m = None ->
  exists rest reply,
    on_message msg t =
      (Normal tt,
       t ++ NewLLM (fst (llm_config m)) (snd (llm_config m)) m
         :: Invoke (prompt_head ++ content ++ prompt_tail)
         :: rest ++ [SendMessage (chat_id msg) reply]).
Proof.
  intros Hc. unfold Bot.on_message, try_catch.
  rewrite command_reaches_generation. unfold Bot.new_llm. run.
  destruct (llm_config m) as [p temperature]. cbn [fst snd] in *. cbv beta iota.
  rewrite Hc.
  destruct (generate_shape (chat_id msg) (p, temperature, m)
              (build_prompt content) (t ++ [NewLLM p temperature m]))
    as (rest & reply & E & _).
  rewrite E. exists rest, reply. now rewrite <- app_assoc.
Qed.

(** X7.  When the LLM invocation fails, the user of a well-formed command
    is sent the generation-failed message and nothing else: no poll and no
    summary. *)
Theorem llm_failure_is_reported (t : list event) (e : js_error) :
  llm_construct world (fst (llm_config m)) (snd (llm_config m)) m = None ->
  llm_invoke world (fst (llm_config m)) (snd (llm_config m)) m
             (build_prompt content) = inl e ->
  on_message msg t =
    (Normal tt,
     t ++ [NewLLM (fst (llm_config m)) (snd (llm_config m)) m;
           Invoke (build_prompt content);
           ConsoleError (lit "Error creating MCQ via GPT:") (Some e);
           SendMessage (chat_id msg) generation_failed_text]).
Proof.
  intros Hc Hi. unfold Bot.on_message, try_catch.
  rewrite command_reaches_generation. unfold Bot.new_llm, Bot.generate, Bot.invoke.
  run. destruct (llm_config m) as [p temperature]. cbn [fst snd] in *.
  cbv beta iota. rewrite Hc. cbv beta iota. rewrite Hi.
  now rewrite <- !app_assoc.
Qed.

(** X8.  When constructing the client fails, the user of a well-formed
    command is sent nothing: the error escapes to the top-level [catch],
    which only writes to the console, and the LLM is not invoked. *)
Theorem client_failure_is_silent (t : list event) (e : js_error) :
  llm_construct world (fst (llm_config m)) (snd (llm_config m)) m = Some e ->
  on_message msg t =
    (Normal tt,
     t ++ [NewLLM (fst (llm_config m)) (snd (llm_config m)) m;
           top_level_log e]).
Proof.
  intros Hc. unfold Bot.on_message, try_catch.
  rewrite command_reaches_generation. unfold Bot.new_llm. run.
  destruct (llm_config m) as [p temperature]. cbn [fst snd] in *.
  cbv beta iota. rewrite Hc. now rewrite <- !app_assoc.
Qed.

End WellFormedCommand.

(** ** A record the loop cannot read *)

Lemma map_slice_unshaped (l : list json) :
  forallb sliceable l = false ->
  exists e, map_completion slice_option l = Throw e.
Proof.
  induction l as [|o l IH]; cbn [forallb map_completion]; intros H;
    [discriminate|].
  destruct (sliceable o) eqn:Eo.
  - destruct (IH H) as [e ->].
    destruct o; try discriminate; eexists; reflexivity.
  - destruct o; try discriminate; eexists; reflexivity.
Qed.

Lemma process_question_unreadable (chatId : Z) (q : json) (t : list event) :
  readable q = false -> exists e, process_question chatId q t = (Throw e, t).
Proof.
  unfold readable. intros H. unfold Bot.process_question. run.
  destruct (is_null q) eqn:En.
  - destruct q; try discriminate. eexists. reflexivity.
  - rewrite !(get_field q _ En). cbn [negb andb] in H.
    unfold options_shaped in H.
    destruct (field q (lit "options")) as [[| | | |l|]|]; try discriminate;
      try (eexists; reflexivity).
    cbn [truncate_options]. destruct (map_slice_unshaped l H) as [e ->].
    eexists. reflexivity.
Qed.

(** X9.  A record that is [null], or whose options are neither absent,
    null, nor an array of strings or arrays, aborts the batch: the records
    before it are processed as usual, the records after it are never
    looked at, no summary is sent, and the user is sent the
    generation-failed message after the polls already sent. *)
Theorem unreadable_record_aborts_the_batch
    (chatId : Z) (p : provider) (temperature : Q) (name prompt : jsstring)
    (content : message_content) (before after : list json) (bad : json)
    (t : list event) :
  llm_invoke world p temperature name prompt = inr content ->
  extract_questions content = Normal (JArr (before ++ bad :: after)) ->
  Forall (fun q => readable q = true) before ->
  readable bad = false ->
  exists e new,
    process_questions chatId before (t ++ [Invoke prompt]) =
      (Normal tt, (t ++ [Invoke prompt]) ++ new) /\
    polls new = map (poll_of chatId) (filter survives before) /\
    generate chatId (p, temperature, name) prompt t =
      (Normal tt,
       t ++ Invoke prompt :: new ++
         [ConsoleError (lit "Error creating MCQ via GPT:") (Some e);
          SendMessage chatId generation_failed_text]).
Proof.
  intros Hi He Hbefore Hbad.
  destruct (process_questions_readable error_toString world chatId before
              (t ++ [Invoke prompt]) Hbefore) as (new & E & P).
  destruct (process_question_unreadable chatId bad
              ((t ++ [Invoke prompt]) ++ new) Hbad) as [e Ebad].
  exists e, new. split; [exact E|]. split; [exact P|].
  unfold Bot.generate, Bot.invoke, Bot.dispatch. run. rewrite Hi, He.
  cbn [iterate].
  pose proof (process_questions_app error_toString world chatId before
                (bad :: after) (t ++ [Invoke prompt])) as Happ.
  unfold bind in Happ. rewrite E in Happ. cbn [Bot.process_questions] in Happ.
  unfold bind in Happ. rewrite Ebad in Happ.
  rewrite Happ. now rewrite <- !app_assoc.
Qed.

(** ** The summary and the polls *)

(** X10.  Whatever the extracted records are, when the loop completes the
    number the summary reports is at least the number of polls that were
    sent: the summary can overstate, never understate. *)
Theorem summary_never_understates
    (chatId : Z) (records : list json) (t t' : list event) :
  dispatch chatId (JArr records) t = (Normal tt, t') ->
  exists new,
    t' = t ++ new ++
           [SendMessage chatId
              (summary_prefix ++ of_nat (List.length records) ++ summary_suffix)] /\
    (List.length (polls new) <= List.length records)%nat.
Proof.
  unfold Bot.dispatch. run. cbn [iterate].
  destruct (process_questions_sound chatId records t) as (c & new & E & _ & L).
  rewrite E. destruct c as [[]|e]; [|discriminate].
  intros H. injection H as <-. exists new. split; [|exact L].
  now rewrite <- app_assoc.
Qed.

(** ** Model resolution *)

Lemma find_first_of_distinct {A B} (f : A -> B) (eqb : B -> B -> bool)
      (Heqb : forall x y, eqb x y = true <-> x = y) (l : list A) (m : A) :
  NoDup (map f l) -> In m l -> find (fun x => eqb (f x) (f m)) l = Some m.
Proof.
  induction l as [|a l IH]; intros Hnd Hin; [contradiction|].
  cbn [map] in Hnd. inversion Hnd as [|? ? Hnotin Hnd']; subst.
  cbn [find]. destruct (eqb (f a) (f m)) eqn:E.
  - apply Heqb in E. destruct Hin as [->|Hin]; [reflexivity|].
    exfalso. apply Hnotin. rewrite E. now apply in_map.
  - destruct Hin as [->|Hin].
    + assert (eqb (f m) (f m) = true) by now apply Heqb. congruence.
    + now apply IH.
Qed.

(** X11.  Resolution depends on the token only through its lower-cased
    form, so two tokens that differ in case resolve alike; and when no two
    identifiers of the table agree up to case, every identifier of the
    table resolves to itself. *)
Theorem resolution_is_case_blind :
  (forall a b, toLowerCase a = toLowerCase b -> find_model a = find_model b) /\
  (NoDup (map toLowerCase supportedModels) ->
   forall m, In m supportedModels -> find_model m = Some m).
Proof.
  split.
  - intros a b H. unfold Bot.find_model. now rewrite H.
  - intros Hnd m Hin. unfold Bot.find_model.
    now apply (find_first_of_distinct toLowerCase jsstring_eqb jsstring_eqb_eq).
Qed.

(** ** A complete record *)

(** X12.  A record with a non-empty string question, an array of string
    options and a correctOptionIndex that is not null leaves exactly one
    poll send: the first 200 characters of the question, the first 100
    characters of each option, the index and the explanation as they are;
    followed by the failure report exactly when the transport rejects it.
    Texts within the limits are sent unchanged. *)
Theorem complete_record_is_sent_once
    (chatId : Z) (members : list (jsstring * json)) (question : jsstring)
    (options : list jsstring) (index : json) (t : list event) :
  lookup (lit "question") members = Some (JStr question) ->
  question <> [] ->
  lookup (lit "options") members = Some (JArr (map JStr options)) ->
  lookup (lit "correctOptionIndex") members = Some index ->
  index <> JNull ->
  let opts := {| type_ := lit "quiz";
                 correct_option_id := Some index;
                 explanation := lookup (lit "explanation") members;
                 is_anonymous := false |} in
  let sent := SendPoll chatId (JStr (firstn 200 question))
                (Some (map (fun o => JStr (firstn 100 o)) options)) opts in
  process_question chatId (JObj members) t =
    (Normal tt,
     t ++ sent ::
       match sendPoll_outcome world t chatId (JStr (firstn 200 question))
               (Some (map (fun o => JStr (firstn 100 o)) options)) opts with
       | None => []
       | Some e => failure_report chatId e
       end) /\
  ((List.length question <= 200)%nat ->
   Forall (fun o => (List.length o <= 100)%nat) options ->
   sent = SendPoll chatId (JStr question) (Some (map JStr options)) opts).
Proof.
  intros Hq Hne Ho Hi Hnull opts sent. split.
  - assert (Hr : readable (JObj members) = true).
    { unfold readable, options_shaped. cbn [is_null negb andb field].
      rewrite Ho. clear. induction options as [|o l IH]; [reflexivity|].
      cbn [map forallb sliceable]. exact IH. }
    assert (Hs : survives (JObj members) = true).
    { unfold survives, missing_data. cbn [field]. rewrite Hq, Ho, Hi.
      destruct question as [|c0 q']; [congruence|].
      destruct index; try reflexivity. congruence. }
    rewrite (process_question_survives error_toString world chatId _ t Hr Hs).
    unfold Spec.attempt, Spec.outcome_of, poll_of, entity_question,
      entity_options, entity_config. cbn [field].
    rewrite Hq, Ho, Hi. cbn [truncated]. rewrite !map_map. cbn [truncated].
    reflexivity.
  - intros Hlq Hlo. unfold sent. rewrite firstn_all2 by exact Hlq.
    f_equal. f_equal. apply map_ext_in. intros o Hin.
    rewrite Forall_forall in Hlo. rewrite firstn_all2; [reflexivity|].
    now apply Hlo.
Qed.

(** ** A question that is not a text *)

(** X19.  A record whose question is present and truthy but is neither a
    string nor an array (a number, [true], an object), with options that
    are an array of strings and an index that is not null, is not sent and
    does not stop the loop: its only trace is the failure report naming the
    [TypeError] of the missing [slice]. *)
Theorem non_text_question_is_reported
    (chatId : Z) (members : list (jsstring * json)) (question : json)
    (options : list jsstring) (index : json) (t : list event) :
  lookup (lit "question") members = Some question ->
  truthy (Some question) = true ->
  sliceable question = false ->
  lookup (lit "options") members = Some (JArr (map JStr options)) ->
  lookup (lit "correctOptionIndex") members = Some index ->
  index <> JNull ->
  process_question chatId (JObj members) t =
    (Normal tt,
     t ++ failure_report chatId
            (TypeError "questionText.slice is not a function")).
Proof.
  intros Hq Ht Hs Ho Hi Hnull.
  unfold Bot.process_question. run. cbn [get].
  rewrite Hq, Ho, Hi. cbn [truncate_options].
  assert (Hmap : map_completion slice_option (map JStr options) =
                 Normal (map (fun o => JStr (slice0 100 o)) options)).
  { clear. induction options as [|o l IH]; [reflexivity|].
    cbn [map map_completion slice_option]. now rewrite IH. }
  rewrite Hmap. rewrite Ht. cbn [negb orb].
  assert (Hn : nullish (Some index) = false)
    by (destruct index; try reflexivity; congruence).
  rewrite Hn.
  assert (Hp : poll_question (Some question) =
               Throw (TypeError "questionText.slice is not a function")).
  { destruct question; try discriminate; reflexivity. }
  rewrite Hp. unfold Spec.failure_report. now rewrite <- !app_assoc.
Qed.

(** ** A parsed value that is not an array *)

Lemma process_questions_strings (chatId : Z) (chunks : list jsstring)
                                (t : list event) :
  process_questions chatId (map JStr chunks) t = (Normal tt, t).
Proof.
  induction chunks as [|c chunks IH]; [reflexivity|].
  cbn [map Bot.process_questions]. unfold bind at 1.
  assert (H : process_question chatId (JStr c) t = (Normal tt, t)) by reflexivity.
  rewrite H. exact IH.
Qed.

(** X20.  When the parsed value is a string, the loop runs over its
    characters, none of which is a record: no poll is sent, and the summary
    reports the length of the string.  When it is a number, a boolean,
    [null] or an object, the loop throws before its first iteration and no
    summary is sent. *)
Theorem parsed_value_that_is_not_an_array (chatId : Z) (t : list event) :
  (forall s,
      dispatch chatId (JStr s) t =
        (Normal tt,
         t ++ [SendMessage chatId
                 (summary_prefix ++ of_nat (List.length s) ++ summary_suffix)])) /\
  (forall questions,
      (forall s, questions <> JStr s) -> (forall l, questions <> JArr l) ->
      dispatch chatId questions t =
        (Throw (TypeError "questions is not iterable"), t)).
Proof.
  split.
  - intros s. unfold Bot.dispatch. unfold bind at 1. unfold lift. cbn [iterate].
    unfold bind at 1. rewrite process_questions_strings. reflexivity.
  - intros questions Hs Hl. unfold Bot.dispatch. run.
    destruct questions; try reflexivity.
    + now destruct (Hs s).
    + now destruct (Hl items).
Qed.

End Further.

(* ================================================================== *)
(** * The collaborators: the LLM client and the transport *)
(* ================================================================== *)

Section Collaborators.

Variable supportedModels : list jsstring.
Variable toLowerCase : jsstring -> jsstring.
Variable error_toString : js_error -> jsstring.

Local Abbreviation on_message :=
  (Bot.on_message supportedModels toLowerCase error_toString).
Local Abbreviation on_message_body :=
  (Bot.on_message_body supportedModels toLowerCase error_toString).
Local Abbreviation find_model := (Bot.find_model supportedModels toLowerCase).

(** ** What a run depends on *)

Section SameTransport.

Variables w w' : env.
Hypothesis same_transport :
  forall t chatId question options opts,
    sendPoll_outcome w' t chatId question options opts =
    sendPoll_outcome w t chatId question options opts.

Lemma process_question_same_transport (chatId : Z) (q : json) (t : list event) :
  Bot.process_question error_toString w' chatId q t =
  Bot.process_question error_toString w chatId q t.
Proof.
  unfold Bot.process_question, bind, lift, ret, try_catch, Bot.sendPoll.
  destruct (get q (lit "question")) as [questionText|e]; [|reflexivity].
  destruct (get q (lit "options")) as [rawOptions|e]; [|reflexivity].
  destruct (truncate_options rawOptions) as [options|e]; [|reflexivity].
  destruct (get q (lit "correctOptionIndex")) as [index|e]; [|reflexivity].
  destruct (get q (lit "explanation")) as [explanation|e]; [|reflexivity].
  destruct (negb (truthy questionText)
            || match options with None => true | Some _ => false end
            || nullish index); [reflexivity|].
  destruct (poll_question questionText) as [question|e]; [|reflexivity].
  now rewrite same_transport.
Qed.

Lemma process_questions_same_transport (chatId : Z) (qs : list json) (t : list event) :
  Bot.process_questions error_toString w' chatId qs t =
  Bot.process_questions error_toString w chatId qs t.
Proof.
  revert t. induction qs as [|q qs IH]; intros t; [reflexivity|].
  cbn [Bot.process_questions]. unfold bind.
  rewrite process_question_same_transport.
  destruct (Bot.process_question error_toString w chatId q t) as [[[]|e] t'];
    [apply IH|reflexivity].
Qed.

Lemma dispatch_same_transport (chatId : Z) (questions : json) (t : list event) :
  Bot.dispatch error_toString w' chatId questions t =
  Bot.dispatch error_toString w chatId questions t.
Proof.
  unfold Bot.dispatch, bind, lift.
  destruct (iterate questions) as [qs|e]; [|reflexivity].
  now rewrite process_questions_same_transport.
Qed.

End SameTransport.

(** The generation stage consults the world only through the client it
    is given and through the transport. *)
Lemma generate_same_client
    (w w' : env) (p : provider) (temperature : Q) (name : jsstring)
    (chatId : Z) (prompt : jsstring) (t : list event) :
  same_client w w' p temperature name ->
  Bot.generate error_toString w' chatId (p, temperature, name) prompt t =
  Bot.generate error_toString w chatId (p, temperature, name) prompt t.
Proof.
  intros (_ & Hi & Ht).
  unfold Bot.generate, Bot.invoke, try_catch, bind, lift, ret, emit.
  rewrite Hi.
  destruct (llm_invoke w p temperature name prompt) as [e|content];
    [reflexivity|].
  destruct (extract_questions content) as [questions|e]; [|reflexivity].
  now rewrite (dispatch_same_transport w w' Ht).
Qed.

Lemma new_llm_then_generate_same_client
    (w w' : env) (m : jsstring) (chatId : Z) (prompt : jsstring)
    (t : list event) :
  same_client w w' (fst (llm_config m)) (snd (llm_config m)) m ->
  (llm <- new_llm w' m ;; Bot.generate error_toString w' chatId llm prompt) t =
  (llm <- new_llm w m ;; Bot.generate error_toString w chatId llm prompt) t.
Proof.
  intros H. unfold Bot.new_llm.
  destruct (llm_config m) as [p temperature]. cbn [fst snd] in H.
  unfold bind, lift, ret, emit. pose proof H as (Hc & _). rewrite Hc.
  destruct (llm_construct w p temperature m) as [e|]; [reflexivity|].
  now apply generate_same_client.
Qed.

Variable world : env.

(** ** Provider and temperature: claim C8 *)

(** C8.  A model name that contains [claude] is routed to the alternate
    provider with temperature 0.7; every other name is routed to the
    default provider, with temperature 1 exactly when it is [o1-preview]
    and 0.7 otherwise.  The handler follows this rule: every client it
    constructs is for an identifier of the table, with the provider and
    temperature so determined; and for every command whose token resolves
    to the model [m], the first thing the handler does is construct the
    client for [m] with that provider and temperature, it constructs no
    other, it invokes the LLM next when the construction succeeds, and the
    whole run is the same in every world that agrees on this one client
    and on the transport, whatever the clients of any other provider,
    temperature or model would answer. *)
Theorem provider_and_temperature :
  (forall name,
      contains (lit "claude") name -> llm_config name = (Anthropic, 7 # 10)) /\
  (forall name,
      ~ contains (lit "claude") name -> name = lit "o1-preview" ->
      llm_config name = (OpenAI, 1%Q)) /\
  (forall name,
      ~ contains (lit "claude") name -> name <> lit "o1-preview" ->
      llm_config name = (OpenAI, 7 # 10)) /\
  (forall msg t c new p temperature name,
      on_message world msg t = (c, t ++ new) ->
      In (NewLLM p temperature name) new ->
      In name supportedModels /\ llm_config name = (p, temperature)) /\
  (forall msg kw token content m t,
      text msg = Some (kw ++ 32%N :: token ++ 32%N :: content) ->
      startsWith trigger kw = true -> ~ In 32%N kw -> ~ In 32%N token ->
      token <> [] -> content <> [] ->
      find_model token = Some m -> m <> [] ->
      (exists c rest,
          on_message world msg t =
            (c, t ++ NewLLM (fst (llm_config m)) (snd (llm_config m)) m :: rest) /\
          Forall (fun e => is_construction e = false) rest /\
          (llm_construct world (fst (llm_config m)) (snd (llm_config m)) m = None ->
           exists rest', rest = Invoke (build_prompt content) :: rest')) /\
      (forall world',
          same_client world world' (fst (llm_config m)) (snd (llm_config m)) m ->
          on_message world' msg t = on_message world msg t)).
Proof.
  split; [|split; [|split; [|split]]].
  - intros name H. apply includes_contains in H.
    unfold llm_config. now rewrite H.
  - intros name H ->. reflexivity.
  - intros name H Hn. unfold llm_config.
    destruct (includes (lit "claude") name) eqn:E.
    + apply includes_contains in E. contradiction.
    + destruct (jsstring_eqb name (lit "o1-preview")) eqn:E'; [|reflexivity].
      apply jsstring_eqb_eq in E'. contradiction.
  - intros msg t c new p temperature name H Hin.
    unfold Bot.on_message, try_catch in H.
    destruct (on_message_body_events
                supportedModels toLowerCase error_toString world msg t)
      as (cb & newb & E & F).
    rewrite E in H.
    assert (Hin' : In (NewLLM p temperature name) newb).
    { destruct cb as [[]|e].
      - injection H as _ H. apply app_inv_head in H. now subst.
      - unfold emit in H. injection H as _ H. rewrite <- app_assoc in H.
        apply app_inv_head in H. subst new.
        apply in_app_or in Hin. destruct Hin as [Hin|[Hin|[]]];
          [exact Hin|discriminate]. }
    rewrite Forall_forall in F.
    destruct (F _ Hin') as [[Hg|(m & Hm & Heq)]|Hh]; try discriminate.
    injection Heq as -> -> ->. split; [exact Hm|].
    now destruct (llm_config m).
  - intros msg kw token content m t Ht Hkw Hnk Hnt Htok Hcont Hfind Hm.
    assert (Hbody : forall w t',
               on_message_body w msg t' =
               (llm <- new_llm w m ;;
                Bot.generate error_toString w (chat_id msg) llm
                  (build_prompt content)) t').
    { intros w t'.
      now apply (command_reaches_generation
                   supportedModels toLowerCase error_toString w msg
                   kw token content m). }
    split.
    + unfold Bot.on_message, try_catch. rewrite Hbody.
      unfold Bot.new_llm, bind, lift, ret, emit.
      destruct (llm_config m) as [p temperature]. cbn [fst snd].
      destruct (llm_construct world p temperature m) as [e|] eqn:Ec.
      * exists (Normal tt),
               [ConsoleError (lit "Error processing message:") (Some e)].
        rewrite <- app_assoc. split; [reflexivity|].
        split; [repeat constructor|discriminate].
      * destruct (generate_shape toLowerCase error_toString world (chat_id msg)
                    (p, temperature, m) (build_prompt content)
                    (t ++ [NewLLM p temperature m]))
          as (rest & reply & E & F).
        rewrite E.
        exists (Normal tt),
               (Invoke (build_prompt content)
                  :: rest ++ [SendMessage (chat_id msg) reply]).
        rewrite <- app_assoc. split; [reflexivity|]. split.
        -- constructor; [reflexivity|]. apply Forall_app. split.
           ++ eapply Forall_impl; [|exact F]. intros a [_ Ha].
              now destruct a.
           ++ repeat constructor.
        -- intros _. eexists. reflexivity.
    + intros world' Hsame. unfold Bot.on_message, try_catch.
      rewrite !Hbody.
      now rewrite (new_llm_then_generate_same_client world world' m).
Qed.

(** ** Containment of errors: claim C9 *)

Lemma unhandled_rejections_app (pre a b : list event) :
  unhandled_rejections world pre (a ++ b) =
  unhandled_rejections world pre a ++ unhandled_rejections world (pre ++ a) b.
Proof.
  revert pre. induction a as [|e a IH]; intros pre; cbn [app unhandled_rejections].
  - now rewrite app_nil_r.
  - rewrite IH, <- !app_assoc. reflexivity.
Qed.

Lemma rejected_last_message
    (pre before : list event) (chatId : Z) (m : jsstring) :
  sendMessage_outcome world (pre ++ before) chatId m <> None ->
  unhandled_rejections world pre (before ++ [SendMessage chatId m]) <> [].
Proof.
  intros H. rewrite unhandled_rejections_app. cbn [unhandled_rejections].
  destruct (sendMessage_outcome world (pre ++ before) chatId m) as [reason|];
    [|congruence].
  intros E. apply app_eq_nil in E. destruct E as [_ E]. discriminate.
Qed.

(** C9, where the handler departs from it.  While the transport rejects
    the messages it is asked to send (the user has blocked the bot, the
    network is down), every text the handler answers leaves an error that
    no [catch] sees.  The body of the top-level [try] completes normally,
    so the [catch] at the top is not entered and nothing is logged there;
    the handler completes; and the promise of a reply it sent is rejected
    with nobody waiting for it, so that the rejection leaves the handler
    unhandled. *)
Theorem rejected_reply_escapes_the_handler
    (msg : message) (txt : jsstring) (t : list event) :
  text msg = Some txt -> txt <> [] ->
  (startsWith trigger txt = true -> In 32%N txt) ->
  (forall p temperature name, llm_construct world p temperature name = None) ->
  (forall pre chatId m, sendMessage_outcome world pre chatId m <> None) ->
  exists new,
    on_message_body world msg t = (Normal tt, t ++ new) /\
    on_message world msg t = (Normal tt, t ++ new) /\
    unhandled_rejections world t new <> [].
Proof.
  intros Ht Hne Hspace Hconstruct Hdown.
  assert (Hback : forall new,
             on_message_body world msg t = (Normal tt, t ++ new) ->
             on_message world msg t = (Normal tt, t ++ new)).
  { intros new E. unfold Bot.on_message, try_catch. now rewrite E. }
  assert (Hsend : forall before m,
             on_message_body world msg t =
               (Normal tt, t ++ before ++ [SendMessage (chat_id msg) m]) ->
             exists new,
               on_message_body world msg t = (Normal tt, t ++ new) /\
               on_message world msg t = (Normal tt, t ++ new) /\
               unhandled_rejections world t new <> []).
  { intros before m E. exists (before ++ [SendMessage (chat_id msg) m]).
    split; [exact E|]. split; [now apply Hback|].
    apply rejected_last_message, Hdown. }
  unfold Bot.on_message_body in *. rewrite Ht in *.
  destruct txt as [|c0 txt]; [congruence|].
  destruct (startsWith trigger (c0 :: txt)).
  - destruct (make_mcq_shape supportedModels toLowerCase error_toString world
                (chat_id msg) (c0 :: txt) t)
      as [(e & kw & _ & Hs)|[(m & E)|[(p & temperature & name & e & _ & Hc)
         |(p & temperature & name & prompt & rest & m & E & _)]]].
    + exfalso. apply (split_single _ _ _ Hs). now apply Hspace.
    + apply (Hsend [] m). exact E.
    + rewrite Hconstruct in Hc. discriminate.
    + apply (Hsend (NewLLM p temperature name :: Invoke prompt :: rest) m).
      exact E.
  - apply (Hsend [] (Bot.help_text supportedModels)). reflexivity.
Qed.

End Collaborators.

(* ================================================================== *)
(** * Properties of the first handler *)
(* ================================================================== *)

Local Abbreviation event1 := BotV1.event.

Section FirstHandler.

Variable big_number_text : bool -> N -> jsstring.
Variable world : BotV1.env.

Local Abbreviation on_message1 := (BotV1.on_message big_number_text world).
Local Abbreviation generate1 := (BotV1.generate world).
Local Abbreviation process_question1 := (BotV1.process_question world).
Local Abbreviation process_questions1 := (BotV1.process_questions world).

Ltac run1 :=
  unfold BotV1.bind, BotV1.lift, BotV1.ret, BotV1.emit, BotV1.try_catch,
    BotV1.sendPoll.

Lemma process_question1_extends (chatId : Z) (q : json) (t : list event1) :
  exists c new, process_question1 chatId q t = (c, t ++ new).
Proof.
  unfold BotV1.process_question. run1.
  assert (Hsame : forall c : completion unit,
             exists c' new, (c, t) = (c', t ++ new)).
  { intros c. exists c, []. now rewrite app_nil_r. }
  destruct (get q (lit "question")) as [questionText|e]; [|apply Hsame].
  destruct (get q (lit "options")) as [options|e]; [|apply Hsame].
  destruct (get q (lit "correctOptionIndex")) as [correctOptionIndex|e];
    [|apply Hsame].
  destruct (negb (truthy questionText) || negb (truthy options)
            || nullish correctOptionIndex); [apply Hsame|].
  destruct (BotV1.answer_text world options correctOptionIndex) as [e|answer];
    [apply Hsame|].
  destruct (BotV1.sendPoll_outcome world t chatId questionText options _);
    eexists; eexists; reflexivity.
Qed.

Lemma process_questions1_extends (chatId : Z) (qs : list json) (t : list event1) :
  exists c new, process_questions1 chatId qs t = (c, t ++ new).
Proof.
  revert t. induction qs as [|q qs IH]; intros t; cbn [BotV1.process_questions].
  - exists (Normal tt), []. now rewrite app_nil_r.
  - unfold BotV1.bind.
    destruct (process_question1_extends chatId q t) as (c & new & E).
    rewrite E. destruct c as [[]|e].
    + destruct (IH (t ++ new)) as (c' & new' & E').
      exists c', (new ++ new'). now rewrite E', app_assoc.
    + now exists (Throw e), new.
Qed.

Lemma process_questions1_app (chatId : Z) (l1 l2 : list json) (t : list event1) :
  process_questions1 chatId (l1 ++ l2) t =
  BotV1.bind (process_questions1 chatId l1)
             (fun _ => process_questions1 chatId l2) t.
Proof.
  revert t. induction l1 as [|q l1 IH]; intros t; cbn [app BotV1.process_questions].
  - reflexivity.
  - unfold BotV1.bind in *.
    destruct (process_question1 chatId q t) as [[[]|e] t']; [apply IH|reflexivity].
Qed.

(** The generation stage of the first handler starts with the invocation
    and ends with a message to the chat. *)
Lemma generate1_shape (chatId : Z) (prompt : jsstring) (t : list event1) :
  exists rest reply,
    generate1 chatId prompt t =
      (Normal tt,
       t ++ BotV1.Invoke prompt :: rest ++ [BotV1.SendMessage chatId reply]).
Proof.
  unfold BotV1.generate, BotV1.invoke. run1.
  destruct (BotV1.llm_invoke world prompt) as [e|response].
  - exists [BotV1.ConsoleError (lit "Error creating MCQ via GPT:") (Some e)],
           generation_failed_text.
    cbn [app]. rewrite <- ?app_assoc. cbn [app]. reflexivity.
  - destruct (BotV1.extract_questions response) as [questions|e].
    + destruct (iterate questions) as [qs|e].
      * destruct (process_questions1_extends chatId qs
                    ((t ++ [BotV1.Invoke prompt])
                       ++ [BotV1.ConsoleLog (lit "response?")]))
          as (c & new & E).
        rewrite E. destruct c as [[]|e].
        -- exists (BotV1.ConsoleLog (lit "response?") :: new),
                  (summary_text questions).
           cbn [app]. rewrite <- ?app_assoc. cbn [app]. reflexivity.
        -- exists (BotV1.ConsoleLog (lit "response?") :: new ++
                     [BotV1.ConsoleError (lit "Error creating MCQ via GPT:") (Some e)]),
                  generation_failed_text.
           cbn [app]. rewrite <- ?app_assoc. cbn [app]. reflexivity.
      * exists [BotV1.ConsoleLog (lit "response?");
                BotV1.ConsoleError (lit "Error creating MCQ via GPT:") (Some e)],
               generation_failed_text.
        cbn [app]. rewrite <- ?app_assoc. cbn [app]. reflexivity.
    + exists [BotV1.ConsoleLog (lit "response?");
              BotV1.ConsoleError (lit "Failed to parse JSON from GPT:") None],
             invalid_json_text.
      cbn [app]. rewrite <- ?app_assoc. cbn [app]. reflexivity.
Qed.

(** X13.  The first handler answers every text message, whatever the text,
    the LLM and the transport do: it completes normally and the last thing
    it does is send a message to the chat. *)
Theorem first_handler_always_answers
    (msg : message) (txt : jsstring) (t : list event1) :
  text msg = Some txt -> txt <> [] ->
  exists before reply,
    on_message1 msg t =
      (Normal tt, t ++ before ++ [BotV1.SendMessage (chat_id msg) reply]).
Proof.
  intros Ht Hne. unfold BotV1.on_message. rewrite Ht.
  destruct txt as [|c0 txt]; [congruence|].
  destruct (startsWith trigger (c0 :: txt)).
  - cbv zeta.
    destruct (join (lit " ") (skipn 2 (split 32%N (c0 :: txt)))) as [|x content].
    + now exists [], missing_content_text.
    + destruct (generate1_shape (chat_id msg)
                  (BotV1.build_prompt big_number_text
                     (BotV1.num_questions (nth_error (split 32%N (c0 :: txt)) 1))
                     (x :: content)) t) as (rest & reply & E).
      rewrite E. eexists (_ :: rest), reply. reflexivity.
  - now exists [], BotV1.help_text.
Qed.

Lemma split_length (sep : code_unit) (s : jsstring) :
  List.length (split sep s) = S (count_occ N.eq_dec s sep).
Proof.
  induction s as [|c s IH]; [reflexivity|]. cbn [split count_occ].
  destruct (N.eqb c sep) eqn:E.
  - apply N.eqb_eq in E. destruct (N.eq_dec c sep); [|contradiction].
    cbn [List.length]. now rewrite IH.
  - apply N.eqb_neq in E. destruct (N.eq_dec c sep); [contradiction|].
    destruct (split sep s) as [|h tl] eqn:Es; [now apply split_nonempty in Es|].
    exact IH.
Qed.

(** X14.  In the first handler a command text with at most one space, the
    bare trigger included, gets the missing-content message and nothing
    else: the missing second token is read through [parseInt], which does
    not throw. *)
Theorem first_handler_asks_for_content
    (msg : message) (txt : jsstring) (t : list event1) :
  text msg = Some txt -> startsWith trigger txt = true ->
  (count_occ N.eq_dec txt 32%N <= 1)%nat ->
  on_message1 msg t =
    (Normal tt, t ++ [BotV1.SendMessage (chat_id msg) missing_content_text]).
Proof.
  intros Ht Hs Hcount. unfold BotV1.on_message. rewrite Ht.
  destruct txt as [|c0 txt]; [discriminate|]. rewrite Hs. cbv zeta.
  pose proof (split_length 32%N (c0 :: txt)) as Hlen.
  destruct (split 32%N (c0 :: txt)) as [|a [|b [|c rest]]];
    cbn [List.length] in Hlen; try reflexivity; lia.
Qed.

(** X15.  The first handler has no [try] around a poll send: when the
    transport rejects the poll of a record that passed the checks, the loop
    stops there with that error, and the records after it are never
    attempted. *)
Theorem first_handler_stops_at_a_rejection
    (chatId : Z) (before after : list json) (q : json) (answer : jsstring)
    (e : js_error) (t t1 : list event1) :
  process_questions1 chatId before t = (Normal tt, t1) ->
  BotV1.passes q = true ->
  BotV1.answer_text world (field q (lit "options"))
                    (field q (lit "correctOptionIndex")) = inr answer ->
  let opts := {| BotV1.type_ := lit "quiz";
                 BotV1.correct_option_id := field q (lit "correctOptionIndex");
                 BotV1.explanation := BotV1.answer_prefix ++ answer;
                 BotV1.is_anonymous := false |} in
  BotV1.sendPoll_outcome world t1 chatId (field q (lit "question"))
                         (field q (lit "options")) opts = Some e ->
  process_questions1 chatId (before ++ q :: after) t =
    (Throw e,
     t1 ++ [BotV1.SendPoll chatId (field q (lit "question"))
              (field q (lit "options")) opts]).
Proof.
  intros Hbefore Hpass Hanswer opts Hreject.
  rewrite process_questions1_app. unfold BotV1.bind at 1. rewrite Hbefore.
  cbn [BotV1.process_questions]. unfold BotV1.bind at 1.
  unfold BotV1.passes in Hpass.
  apply andb_true_iff in Hpass. destruct Hpass as [Hpass Hc].
  apply andb_true_iff in Hpass. destruct Hpass as [Hpass Ho].
  apply andb_true_iff in Hpass. destruct Hpass as [Hn Hq].
  apply negb_true_iff in Hn. apply negb_true_iff in Hc.
  unfold BotV1.process_question. run1.
  rewrite !(get_field q _ Hn), Hq, Ho, Hc. cbn [negb orb].
  rewrite Hanswer. fold opts. now rewrite Hreject.
Qed.

(** ** The number of questions *)

Lemma trim_start_keeps (P : code_unit -> Prop) (s : jsstring) :
  Forall P s -> Forall P (BotV1.trim_start s).
Proof.
  induction 1 as [|c s Hc Hs IH]; cbn [BotV1.trim_start]; [constructor|].
  destruct (BotV1.is_js_whitespace c); [exact IH|now constructor].
Qed.

Lemma take_digits_zeros (s : jsstring) :
  Forall (fun c => is_digit c = true -> c = 48%N) s ->
  Forall (eq 0%N) (fst (take_digits s)).
Proof.
  induction 1 as [|c s Hc Hs IH]; cbn [take_digits]; [constructor|].
  destruct (is_digit c) eqn:E; [|constructor].
  destruct (take_digits s) as [ds r]. cbn [fst] in *.
  constructor; [|exact IH]. now rewrite (Hc eq_refl).
Qed.

Lemma digits_value_zeros (ds : list N) :
  Forall (eq 0%N) ds -> digits_value ds = 0%N.
Proof.
  unfold digits_value. induction 1 as [|d ds Hd Hds IH]; [reflexivity|].
  subst d. cbn [fold_left]. exact IH.
Qed.

(** A token that holds no digit from 1 to 9 gives the default. *)
Lemma num_questions_default (token : jsstring) :
  Forall (fun c => is_digit c = true -> c = 48%N) token ->
  BotV1.num_questions (Some token) = (false, 10%N).
Proof.
  intros H. unfold BotV1.num_questions, BotV1.parseInt10.
  apply (trim_start_keeps _ token) in H.
  destruct (BotV1.trim_start token) as [|c r] eqn:Et.
  - reflexivity.
  - assert (Hrest : forall negative (s2 : jsstring),
               Forall (fun c => is_digit c = true -> c = 48%N) s2 ->
               match
                 match take_digits s2 with
                 | ([], _) => None
                 | (ds, _) => Some (negative, digits_value ds)
                 end
               with
               | None => (false, 10%N)
               | Some (negative0, n) =>
                   if N.eqb n 0 then (false, 10%N) else (negative0, n)
               end = (false, 10%N)).
    { intros negative s2 H2. pose proof (take_digits_zeros s2 H2) as Hz.
      destruct (take_digits s2) as [[|d ds] r2]; [reflexivity|].
      cbn [fst] in Hz. now rewrite (digits_value_zeros _ Hz). }
    inversion H as [|? ? Hc Hr]; subst.
    destruct (N.eqb c 45); [now apply Hrest|].
    destruct (N.eqb c 43); [now apply Hrest|].
    now apply Hrest.
Qed.

(** X16.  In the first handler a command whose second token holds no digit
    from 1 to 9 (a word, an empty token, a zero) asks the LLM for 10
    questions: the prompt is the template with [10] and with the content as
    the user wrote it. *)
Theorem first_handler_defaults_to_ten
    (msg : message) (kw token content : jsstring) (t : list event1) :
  text msg = Some (kw ++ 32%N :: token ++ 32%N :: content) ->
  startsWith trigger kw = true ->
  ~ In 32%N kw -> ~ In 32%N token -> content <> [] ->
  Forall (fun c => is_digit c = true -> c = 48%N) token ->
  exists rest reply,
    on_message1 msg t =
      (Normal tt,
       t ++ BotV1.Invoke
              (BotV1.prompt_head ++ lit "10" ++ BotV1.prompt_middle
                 ++ content ++ BotV1.prompt_tail)
         :: rest ++ [BotV1.SendMessage (chat_id msg) reply]).
Proof.
  intros Ht Hkw Hkw32 Htok32 Hcontent Hdigits.
  unfold BotV1.on_message. rewrite Ht.
  destruct (kw ++ 32%N :: token ++ 32%N :: content) as [|c0 txt] eqn:Etxt.
  { destruct kw; discriminate. }
  rewrite <- Etxt. rewrite (startsWith_app_right _ _ _ Hkw). cbv zeta.
  rewrite (split_app_separator _ kw _ Hkw32).
  rewrite (split_app_separator _ token _ Htok32).
  cbn [nth_error skipn]. change (lit " ") with [32%N]. rewrite join_split.
  rewrite (num_questions_default token Hdigits).
  destruct content as [|x content']; [congruence|].
  destruct (generate1_shape (chat_id msg)
              (BotV1.build_prompt big_number_text (false, 10%N) (x :: content')) t)
    as (rest & reply & E).
  rewrite E. exists rest, reply. reflexivity.
Qed.

End FirstHandler.

(* ================================================================== *)
(** * Runs on concrete inputs *)
(* ================================================================== *)

Import Demo.

(** ** Extraction: claim C1 *)

(** C1, at the inputs where the handler departs from it.  A response with
    an opening bracket and no closing one is not rejected: [lastIndexOf]
    yields -1, [substring] swaps its arguments, and the text before the
    bracket is parsed.  When that text is a JSON string the loop runs over
    its characters, no unparseable-response message is sent, and the
    summary reports as many polls as the string has characters.  A
    response whose last closing bracket precedes its first opening one is
    not rejected either: the text between them is parsed, and when it is a
    number the loop throws and the generic failure message is sent. *)
Theorem unclosed_bracket_is_not_rejected :
  let response := litq "'abc'[" in
  let reversed := lit "]42[" in
  (indexOf 91%N response = 5 /\ lastIndexOf 93%N response = -1) /\
  extract_questions (ContentString response) = Normal (JStr (lit "abc")) /\
  run (scripted (ContentString response) []) (lit "/make_mcq gpt-4o x") =
    (Normal tt,
     [NewLLM OpenAI (7 # 10) (lit "gpt-4o");
      Invoke (build_prompt (lit "x"));
      SendMessage 1 (lit "Done! I have created 3 MCQ question polls.")]) /\
  (indexOf 91%N reversed = 3 /\ lastIndexOf 93%N reversed = 0) /\
  extract_questions (ContentString reversed) = Normal (JNum false 42 0) /\
  run (scripted (ContentString reversed) []) (lit "/make_mcq gpt-4o x") =
    (Normal tt,
     [NewLLM OpenAI (7 # 10) (lit "gpt-4o");
      Invoke (build_prompt (lit "x"));
      ConsoleError (lit "Error creating MCQ via GPT:")
                   (Some (TypeError "questions is not iterable"));
      SendMessage 1 generation_failed_text]).
Proof. vm_compute. repeat split; reflexivity. Qed.

(** The first scenario of the specification: three questions, three polls
    and a summary that reports three. *)
Example three_questions_three_polls :
  let r :=
    run (scripted
           (ContentString
              (litq "[{'question':'Q1?','options':['A','B'],'correctOptionIndex':0,'explanation':'e1'},{'question':'Q2?','options':['C','D'],'correctOptionIndex':1,'explanation':'e2'},{'question':'Q3?','options':['E','F'],'correctOptionIndex':0,'explanation':'e3'}]"))
           [])
        (lit "/make_mcq gpt-4o The water cycle moves water through...") in
  fst r = Normal tt /\
  List.length (polls (snd r)) = 3%nat /\
  messages (snd r) = [lit "Done! I have created 3 MCQ question polls."].
Proof. vm_compute. repeat split; reflexivity. Qed.

(** The third scenario of the specification: prose around the array. *)
Example extraction_ignores_surrounding_prose :
  run (scripted
         (ContentString
            (litq "Sure! Here you go: [{'question':'Q?','options':['A','B'],'correctOptionIndex':0,'explanation':'e'}] Hope that helps!"))
         [])
      (lit "/make_mcq gpt-4o The water cycle") =
    (Normal tt,
     [NewLLM OpenAI (7 # 10) (lit "gpt-4o");
      Invoke (build_prompt (lit "The water cycle"));
      SendPoll 1 (JStr (lit "Q?")) (Some [JStr (lit "A"); JStr (lit "B")])
        {| type_ := lit "quiz";
           correct_option_id := Some (JNum false 0 0);
           explanation := Some (JStr (lit "e"));
           is_anonymous := false |};
      SendMessage 1 (lit "Done! I have created 1 MCQ question polls.")]).
Proof. vm_compute. reflexivity. Qed.

(** The fourth scenario: no bracket at all. *)
Example extraction_fails_without_brackets :
  run (scripted (ContentString (lit "I cannot help with that.")) [])
      (lit "/make_mcq gpt-4o The water cycle") =
    (Normal tt,
     [NewLLM OpenAI (7 # 10) (lit "gpt-4o");
      Invoke (build_prompt (lit "The water cycle"));
      ConsoleError (lit "Failed to parse JSON from GPT:") None;
      SendMessage 1 invalid_json_text]).
Proof. vm_compute. reflexivity. Qed.

(** ** Validation: claim C2 *)

(** C2 fails as stated: a record whose correctOptionIndex is wrong-shaped
    (a string where an integer is expected) is not discarded; it is
    dispatched with the index as it is. *)
Lemma wrong_shaped_index_is_dispatched :
  parse (litq "[{'question':'Q','options':['A','B'],'correctOptionIndex':'zero'}]")
    = Some (JArr [record_with_text_index]) /\
  process_questions show_error (scripted (ContentString []) []) 1
                    [record_with_text_index] [] =
    (Normal tt,
     [SendPoll 1 (JStr (lit "Q")) (Some [JStr (lit "A"); JStr (lit "B")])
        {| type_ := lit "quiz";
           correct_option_id := Some (JStr (lit "zero"));
           explanation := None;
           is_anonymous := false |}]).
Proof. vm_compute. split; reflexivity. Qed.

(** A question that is an array is cut by elements: its one element goes
    out whole, whatever its length. *)
Example array_question_is_cut_by_elements :
  let q := JArr [JStr (lit "a question of any length")] in
  let record :=
    JObj [(lit "question", q);
          (lit "options", JArr [JStr (lit "A"); JStr (lit "B")]);
          (lit "correctOptionIndex", JNum false 0 0)] in
  readable record = true /\ survives record = true /\
  process_questions show_error (scripted (ContentString []) []) 1 [record] [] =
    (Normal tt, [poll_of 1 record]) /\
  entity_question record = q /\
  within_limits (poll_of 1 record).
Proof. vm_compute. repeat split; repeat constructor. Qed.

Lemma validation_is_filtering_map_witness :
  exists new,
    process_questions show_error (scripted (ContentString []) [0%nat]) 1
                      sample_records [] = (Normal tt, [] ++ new) /\
    polls new = map (poll_of 1) (filter survives sample_records) /\
    (List.length (polls new) <= List.length sample_records)%nat /\
    Forall within_limits (polls new) /\
    (forall before q after,
        sample_records = before ++ q :: after -> missing_data q = true ->
        survives q = false /\
        process_questions show_error (scripted (ContentString []) [0%nat]) 1
                          sample_records [] =
        process_questions show_error (scripted (ContentString []) [0%nat]) 1
                          (before ++ after) []).
Proof.
  apply (validation_is_filtering_map
           show_error (scripted (ContentString []) [0%nat]) 1 sample_records []).
  repeat constructor.
Defined.

(** ** Dispatch: claim C3 *)

Lemma dispatch_attempts_every_question_witness :
  let w := scripted (ContentString []) [0%nat] in
  process_questions show_error w 1 validated_records [] =
    (Normal tt, [] ++ attempts show_error w 1 [] validated_records) /\
  polls (attempts show_error w 1 [] validated_records) =
    map (poll_of 1) validated_records /\
  attempts show_error w 1 [] validated_records =
    [poll_of 1 (nth 0 sample_records JNull);
     ConsoleError (lit "Error sending poll:")
       (Some (ExternalError (lit "ETELEGRAM: 400 Bad Request")));
     SendMessage 1 (lit "Oops, something went wrong while sending the poll: Error: ETELEGRAM: 400 Bad Request");
     poll_of 1 (nth 3 sample_records JNull)].
Proof.
  intros w.
  destruct (dispatch_attempts_every_question
              show_error w 1 validated_records [])
    as (H1 & H2 & _).
  - repeat constructor.
  - split; [exact H1|]. split; [exact H2|]. vm_compute. reflexivity.
Defined.

(** ** Summary: claim C4 *)

(** C4 fails as stated: for the response [[{}]] no poll send is attempted,
    yet the summary reports one poll. *)
Lemma summary_counts_skipped_records :
  let r := run (scripted (ContentString (lit "[{}]")) [])
               (lit "/make_mcq gpt-4o x") in
  polls (snd r) = [] /\
  messages (snd r) = [lit "Done! I have created 1 MCQ question polls."].
Proof. vm_compute. split; reflexivity. Qed.

Lemma summary_reports_record_count_witness :
  let w := scripted (ContentString []) [] in
  let summary :=
    SendMessage 1 (summary_prefix ++ of_nat 1 ++ summary_suffix) in
  exists new,
    [] = [] ++ new /\
    dispatch show_error w 1 (JArr [JObj []]) [] =
      (Normal tt, [] ++ new ++ [summary]) /\
    filter is_summary (new ++ [summary]) = [summary].
Proof.
  intros w.
  apply (summary_reports_record_count show_error w 1 [JObj []] [] []).
  reflexivity.
Defined.

(** ** Model resolution: claim C5 *)

(** C5 fails as stated: a command whose token matches no identifier of the
    table and whose content is empty receives the missing-content message,
    not the invalid-model error. *)
Lemma unknown_model_without_content :
  find_model demo_models ascii_toLowerCase (lit "unknownmodel") = None /\
  run (scripted (ContentString []) []) (lit "/make_mcq unknownmodel") =
    (Normal tt, [SendMessage 1 missing_content_text]) /\
  missing_content_text <> invalid_model_text.
Proof. vm_compute. repeat split; try reflexivity. discriminate. Qed.

(** The second scenario of the specification, and a token in capitals. *)
Lemma model_resolution_witness :
  let w := scripted (ContentString []) [] in
  (In (lit "gpt-4o") demo_models /\
   ascii_toLowerCase (lit "gpt-4o") = ascii_toLowerCase (lit "GPT-4O")) /\
  (exists m, find_model demo_models ascii_toLowerCase (lit "GPT-4O") = Some m) /\
  run w (lit "/make_mcq unknownmodel some content") =
    (Normal tt, [] ++ [SendMessage 1 invalid_model_text]).
Proof.
  intros w.
  destruct (model_resolution demo_models ascii_toLowerCase show_error w)
    as (H1 & H2 & H3).
  split; [|split].
  - apply H1. vm_compute. reflexivity.
  - apply H2. exists (lit "gpt-4o"). split; vm_compute; [now left|reflexivity].
  - apply (H3 {| chat_id := 1; text := Some (lit "/make_mcq unknownmodel some content") |}
              (lit "/make_mcq unknownmodel some content")
              (lit "/make_mcq") (lit "unknownmodel")
              [lit "some"; lit "content"] []).
    + reflexivity.
    + vm_compute. reflexivity.
    + vm_compute. reflexivity.
    + vm_compute. discriminate.
    + vm_compute. discriminate.
    + intros m Hin. vm_compute in Hin.
      destruct Hin as [<-|[<-|[<-|[]]]]; vm_compute; discriminate.
Defined.

(** ** Command recognition: claim C6 *)

(** C6 fails as stated: the first space-delimited keyword of this text is
    [/make_mcqs], which is not the trigger, and yet the text is processed
    as the command, and no help reply is sent. *)
Lemma longer_keyword_is_a_command :
  let txt := lit "/make_mcqs gpt-4o x" in
  nth 0 (split 32%N txt) [] = lit "/make_mcqs" /\
  lit "/make_mcqs" <> trigger /\
  run (scripted (ContentString (lit "[]")) []) txt =
    (Normal tt,
     [NewLLM OpenAI (7 # 10) (lit "gpt-4o");
      Invoke (build_prompt (lit "x"));
      SendMessage 1 (lit "Done! I have created 0 MCQ question polls.")]).
Proof. vm_compute. repeat split; try reflexivity. discriminate. Qed.

Lemma command_iff_trigger_prefix_witness :
  let w := scripted (ContentString (lit "[]")) [] in
  run w (lit "hello") = (Normal tt, [] ++ [SendMessage 1 (help_text demo_models)]) /\
  (exists new,
      run w (lit "/make_mcq gpt-4o x") = (Normal tt, [] ++ new) /\
      forall chatId, ~ In (SendMessage chatId (help_text demo_models)) new) /\
  contains (lit "o1-preview") (help_text demo_models).
Proof.
  intros w. split; [|split].
  - refine (proj1 (command_iff_trigger_prefix
                     demo_models ascii_toLowerCase show_error w
                     {| chat_id := 1; text := Some (lit "hello") |}
                     (lit "hello") [] eq_refl _) _).
    + vm_compute. discriminate.
    + vm_compute. reflexivity.
  - refine (proj2 (proj1 (proj2 (command_iff_trigger_prefix
                     demo_models ascii_toLowerCase show_error w
                     {| chat_id := 1; text := Some (lit "/make_mcq gpt-4o x") |}
                     (lit "/make_mcq gpt-4o x") [] eq_refl _)) _)).
    + vm_compute. discriminate.
    + vm_compute. reflexivity.
  - refine (proj2 (proj2 (proj2 (command_iff_trigger_prefix
                     demo_models ascii_toLowerCase show_error w
                     {| chat_id := 1; text := Some (lit "hello") |}
                     (lit "hello") [] eq_refl _))) (lit "o1-preview") _).
    + vm_compute. discriminate.
    + vm_compute. right. now left.
Defined.

(** ** Further properties: instances *)

Import Demo2.

Lemma replies_go_to_the_sender_witness :
  exists new,
    run (scripted null_in_the_middle [0%nat]) (lit "/make_mcq gpt-4o x") =
      (Normal tt, [] ++ new) /\
    (forall chatId txt, In (SendMessage chatId txt) new -> chatId = 1) /\
    (forall chatId question options opts,
        In (SendPoll chatId question options opts) new -> chatId = 1).
Proof.
  exact (replies_go_to_the_sender demo_models ascii_toLowerCase show_error
           (scripted null_in_the_middle [0%nat])
           {| chat_id := 1; text := Some (lit "/make_mcq gpt-4o x") |} []).
Defined.

Lemma every_poll_is_well_formed_witness :
  exists new,
    run (scripted null_in_the_middle []) (lit "/make_mcq gpt-4o x") =
      (Normal tt, [] ++ new) /\
    forall chatId question options opts,
      In (SendPoll chatId question options opts) new ->
      fits 200 question /\
      (exists l, options = Some l /\ Forall (fits 100) l) /\
      type_ opts = lit "quiz" /\
      is_anonymous opts = false /\
      nullish (correct_option_id opts) = false.
Proof.
  exact (every_poll_is_well_formed demo_models ascii_toLowerCase show_error
           (scripted null_in_the_middle [])
           {| chat_id := 1; text := Some (lit "/make_mcq gpt-4o x") |} []).
Defined.

Lemma every_spaced_text_is_answered_witness :
  exists before reply,
    run (scripted null_in_the_middle []) (lit "/make_mcq gpt-4o x") =
      (Normal tt, [] ++ before ++ [SendMessage 1 reply]).
Proof.
  apply (every_spaced_text_is_answered demo_models ascii_toLowerCase show_error
           (scripted null_in_the_middle [])
           {| chat_id := 1; text := Some (lit "/make_mcq gpt-4o x") |}
           (lit "/make_mcq gpt-4o x") []).
  - reflexivity.
  - vm_compute. discriminate.
  - intros _. vm_compute. tauto.
  - reflexivity.
Defined.

Lemma command_without_space_is_unanswered_witness :
  run (scripted null_in_the_middle []) (lit "/make_mcq@quizbot") =
    (Normal tt,
     [] ++ [top_level_log (TypeError "cannot read properties of undefined")]).
Proof.
  apply (command_without_space_is_unanswered demo_models ascii_toLowerCase
           show_error (scripted null_in_the_middle [])
           {| chat_id := 1; text := Some (lit "/make_mcq@quizbot") |}
           (lit "/make_mcq@quizbot") []).
  - reflexivity.
  - vm_compute. reflexivity.
  - vm_compute. intuition discriminate.
Defined.

Ltac spaced_command_hypotheses :=
  first [ reflexivity
        | vm_compute; reflexivity
        | vm_compute; discriminate
        | vm_compute; intuition discriminate ].

Lemma content_reaches_the_prompt_verbatim_witness :
  exists rest reply,
    on_message demo_models ascii_toLowerCase show_error
               (scripted (ContentString (lit "[]")) []) spaced_command [] =
      (Normal tt,
       [] ++ NewLLM OpenAI (7 # 10) (lit "gpt-4o")
          :: Invoke (prompt_head ++ spaced_content ++ prompt_tail)
          :: rest ++ [SendMessage 1 reply]).
Proof.
  apply (content_reaches_the_prompt_verbatim demo_models ascii_toLowerCase
           show_error (scripted (ContentString (lit "[]")) []) spaced_command
           (lit "/make_mcq") (lit "gpt-4o") spaced_content (lit "gpt-4o"));
    spaced_command_hypotheses.
Defined.

Lemma llm_failure_is_reported_witness :
  on_message demo_models ascii_toLowerCase show_error overloaded
             spaced_command [] =
    (Normal tt,
     [] ++ [NewLLM OpenAI (7 # 10) (lit "gpt-4o");
            Invoke (build_prompt spaced_content);
            ConsoleError (lit "Error creating MCQ via GPT:")
              (Some (ExternalError (lit "429 Too Many Requests")));
            SendMessage 1 generation_failed_text]).
Proof.
  apply (llm_failure_is_reported demo_models ascii_toLowerCase show_error
           overloaded spaced_command
           (lit "/make_mcq") (lit "gpt-4o") spaced_content (lit "gpt-4o"));
    spaced_command_hypotheses.
Defined.

Lemma client_failure_is_silent_witness :
  on_message demo_models ascii_toLowerCase show_error keyless
             spaced_command [] =
    (Normal tt,
     [] ++ [NewLLM OpenAI (7 # 10) (lit "gpt-4o");
            top_level_log (ExternalError (lit "API key not found"))]).
Proof.
  apply (client_failure_is_silent demo_models ascii_toLowerCase show_error
           keyless spaced_command
           (lit "/make_mcq") (lit "gpt-4o") spaced_content (lit "gpt-4o"));
    spaced_command_hypotheses.
Defined.

Lemma unreadable_record_aborts_the_batch_witness :
  let w := scripted null_in_the_middle [] in
  exists e new,
    process_questions show_error w 1 [nth 0 sample_records JNull]
                      ([] ++ [Invoke (lit "p")]) =
      (Normal tt, ([] ++ [Invoke (lit "p")]) ++ new) /\
    polls new =
      map (poll_of 1) (filter survives [nth 0 sample_records JNull]) /\
    generate show_error w 1 (OpenAI, 7 # 10, lit "gpt-4o") (lit "p") [] =
      (Normal tt,
       [] ++ Invoke (lit "p") :: new ++
         [ConsoleError (lit "Error creating MCQ via GPT:") (Some e);
          SendMessage 1 generation_failed_text]).
Proof.
  intros w.
  apply (unreadable_record_aborts_the_batch show_error w 1 OpenAI (7 # 10)
           (lit "gpt-4o") (lit "p") null_in_the_middle
           [nth 0 sample_records JNull] [nth 3 sample_records JNull] JNull []).
  - reflexivity.
  - vm_compute. reflexivity.
  - repeat constructor.
  - reflexivity.
Defined.

Lemma summary_never_understates_witness :
  let w := scripted (ContentString []) [] in
  exists new,
    snd (dispatch show_error w 1 (JArr sample_records) []) =
      [] ++ new ++
        [SendMessage 1
           (summary_prefix ++ of_nat (List.length sample_records) ++ summary_suffix)] /\
    (List.length (polls new) <= List.length sample_records)%nat.
Proof.
  intros w.
  apply (summary_never_understates show_error w 1 sample_records []).
  vm_compute. reflexivity.
Defined.

Lemma resolution_is_case_blind_witness :
  find_model demo_models ascii_toLowerCase (lit "O1-Preview") =
    find_model demo_models ascii_toLowerCase (lit "o1-preview") /\
  find_model demo_models ascii_toLowerCase (lit "o1-preview") =
    Some (lit "o1-preview").
Proof.
  destruct (resolution_is_case_blind demo_models ascii_toLowerCase) as [H1 H2].
  split.
  - apply H1. vm_compute. reflexivity.
  - apply H2.
    + vm_compute. repeat constructor; cbn; intuition discriminate.
    + vm_compute. tauto.
Defined.

Lemma complete_record_is_sent_once_witness :
  let w := scripted (ContentString []) [] in
  let opts := {| type_ := lit "quiz";
                 correct_option_id := Some (JNum false 1 0);
                 explanation := lookup (lit "explanation") complete_members;
                 is_anonymous := false |} in
  let sent := SendPoll 1 (JStr (firstn 200 (lit "Q4")))
                (Some (map (fun o => JStr (firstn 100 o)) [lit "C"; lit "D"]))
                opts in
  process_question show_error w 1 (JObj complete_members) [] =
    (Normal tt,
     [] ++ sent ::
       match sendPoll_outcome w [] 1 (JStr (firstn 200 (lit "Q4")))
               (Some (map (fun o => JStr (firstn 100 o)) [lit "C"; lit "D"]))
               opts with
       | None => []
       | Some e => failure_report show_error 1 e
       end) /\
  ((List.length (lit "Q4") <= 200)%nat ->
   Forall (fun o => (List.length o <= 100)%nat) [lit "C"; lit "D"] ->
   sent = SendPoll 1 (JStr (lit "Q4")) (Some (map JStr [lit "C"; lit "D"])) opts).
Proof.
  intros w.
  apply (complete_record_is_sent_once show_error w 1 complete_members
           (lit "Q4") [lit "C"; lit "D"] (JNum false 1 0) []).
  - reflexivity.
  - vm_compute. discriminate.
  - reflexivity.
  - reflexivity.
  - discriminate.
Defined.

Lemma first_handler_always_answers_witness :
  exists before reply,
    BotV1.on_message no_big_number (scripted1 (Some (lit "no json")) [])
                     {| chat_id := 1; text := Some (lit "/make_mcq 3 x") |} [] =
      (Normal tt, [] ++ before ++ [BotV1.SendMessage 1 reply]).
Proof.
  apply (first_handler_always_answers no_big_number
           (scripted1 (Some (lit "no json")) [])
           {| chat_id := 1; text := Some (lit "/make_mcq 3 x") |}
           (lit "/make_mcq 3 x") []).
  - reflexivity.
  - vm_compute. discriminate.
Defined.

Lemma first_handler_asks_for_content_witness :
  BotV1.on_message no_big_number (scripted1 None [])
                   {| chat_id := 1; text := Some (lit "/make_mcq") |} [] =
    (Normal tt, [] ++ [BotV1.SendMessage 1 missing_content_text]).
Proof.
  apply (first_handler_asks_for_content no_big_number (scripted1 None [])
           {| chat_id := 1; text := Some (lit "/make_mcq") |}
           (lit "/make_mcq") []).
  - reflexivity.
  - vm_compute. reflexivity.
  - vm_compute. lia.
Defined.

Lemma first_handler_stops_at_a_rejection_witness :
  let w := scripted1 None [0%nat] in
  let q := JObj complete_members in
  let opts := {| BotV1.type_ := lit "quiz";
                 BotV1.correct_option_id := field q (lit "correctOptionIndex");
                 BotV1.explanation := BotV1.answer_prefix ++ lit "B";
                 BotV1.is_anonymous := false |} in
  BotV1.process_questions w 1 ([] ++ q :: [q; q]) [] =
    (Throw (ExternalError (lit "ETELEGRAM: 400 Bad Request")),
     [] ++ [BotV1.SendPoll 1 (field q (lit "question"))
              (field q (lit "options")) opts]).
Proof.
  intros w q.
  apply (first_handler_stops_at_a_rejection w 1 [] [q; q] q (lit "B")
           (ExternalError (lit "ETELEGRAM: 400 Bad Request")) [] []).
  - reflexivity.
  - vm_compute. reflexivity.
  - reflexivity.
  - vm_compute. reflexivity.
Defined.

Lemma first_handler_defaults_to_ten_witness :
  exists rest reply,
    BotV1.on_message no_big_number (scripted1 (Some (lit "[]")) [])
                     {| chat_id := 1;
                        text := Some (lit "/make_mcq" ++ 32%N :: lit "many"
                                        ++ 32%N :: lit "The water cycle") |} [] =
      (Normal tt,
       [] ++ BotV1.Invoke
               (BotV1.prompt_head ++ lit "10" ++ BotV1.prompt_middle
                  ++ lit "The water cycle" ++ BotV1.prompt_tail)
          :: rest ++ [BotV1.SendMessage 1 reply]).
Proof.
  apply (first_handler_defaults_to_ten no_big_number
           (scripted1 (Some (lit "[]")) [])
           {| chat_id := 1;
              text := Some (lit "/make_mcq" ++ 32%N :: lit "many"
                              ++ 32%N :: lit "The water cycle") |}
           (lit "/make_mcq") (lit "many") (lit "The water cycle") []).
  - reflexivity.
  - vm_compute. reflexivity.
  - vm_compute. intuition discriminate.
  - vm_compute. intuition discriminate.
  - vm_compute. discriminate.
  - vm_compute. repeat constructor; discriminate.
Defined.

Lemma extraction_between_brackets_witness :
  extract_questions
    (ContentString (lit "Sure: " ++ 91%N :: lit "1, 2" ++ 93%N :: lit " Bye!")) =
    match parse (91%N :: lit "1, 2" ++ [93%N]) with
    | Some questions => Normal questions
    | None => Throw SyntaxError
    end /\
  (forall questions,
      parse (91%N :: lit "1, 2" ++ [93%N]) = Some questions ->
      exists items, questions = JArr items).
Proof.
  apply (extraction_between_brackets (lit "Sure: ") (lit "1, 2") (lit " Bye!"));
    vm_compute; intuition discriminate.
Defined.

Lemma extraction_fails_without_opening_witness :
  extract_questions (ContentString (lit "done] and nothing else")) =
    Throw SyntaxError.
Proof.
  apply (extraction_fails_without_opening (lit "done] and nothing else")).
  vm_compute. intuition discriminate.
Defined.

Lemma non_text_question_is_reported_witness :
  process_question show_error (scripted (ContentString []) []) 1
                   (nth 2 sample_records JNull) [] =
    (Normal tt,
     [] ++ failure_report show_error 1
             (TypeError "questionText.slice is not a function")).
Proof.
  apply (non_text_question_is_reported show_error (scripted (ContentString []) [])
           1 _ (JNum false 5 0) [lit "A"; lit "B"] (JNum false 0 0) []).
  - reflexivity.
  - vm_compute. reflexivity.
  - reflexivity.
  - reflexivity.
  - reflexivity.
  - discriminate.
Defined.

Lemma parsed_value_that_is_not_an_array_witness :
  dispatch show_error (scripted (ContentString []) []) 1 (JNum false 42 0) [] =
    (Throw (TypeError "questions is not iterable"), []).
Proof.
  apply (proj2 (parsed_value_that_is_not_an_array show_error
                  (scripted (ContentString []) []) 1 [])); discriminate.
Defined.

(** ** Provider and temperature: claim C8 *)

(** The command is served by the client of the alternate provider: in a
    world where only that client answers, the poll is sent. *)
Example claude_command_is_served_by_anthropic :
  on_message demo_models ascii_toLowerCase show_error
             (only_client Anthropic (7 # 10) (lit "claude-3-5-sonnet-latest")
                          one_question)
             claude_command [] =
    (Normal tt,
     [NewLLM Anthropic (7 # 10) (lit "claude-3-5-sonnet-latest");
      Invoke (build_prompt (lit "x"));
      SendPoll 1 (JStr (lit "Q")) (Some [JStr (lit "A"); JStr (lit "B")])
        {| type_ := lit "quiz";
           correct_option_id := Some (JNum false 1 0);
           explanation := None;
           is_anonymous := false |};
      SendMessage 1 (lit "Done! I have created 1 MCQ question polls.")]).
Proof. vm_compute. reflexivity. Qed.

(** In a world where only the default provider's client answers, the same
    command fails at the invocation. *)
Example claude_command_is_not_served_by_openai :
  on_message demo_models ascii_toLowerCase show_error
             (only_client OpenAI (7 # 10) (lit "claude-3-5-sonnet-latest")
                          one_question)
             claude_command [] =
    (Normal tt,
     [NewLLM Anthropic (7 # 10) (lit "claude-3-5-sonnet-latest");
      Invoke (build_prompt (lit "x"));
      ConsoleError (lit "Error creating MCQ via GPT:")
        (Some (ExternalError (lit "401 Unauthorized")));
      SendMessage 1 generation_failed_text]).
Proof. vm_compute. reflexivity. Qed.

Lemma provider_and_temperature_witness :
  let claude := lit "claude-3-5-sonnet-latest" in
  let w := scripted one_question [] in
  llm_config claude = (Anthropic, 7 # 10) /\
  llm_config (lit "o1-preview") = (OpenAI, 1%Q) /\
  llm_config (lit "gpt-4o") = (OpenAI, 7 # 10) /\
  (In (lit "gpt-4o") demo_models /\ llm_config (lit "gpt-4o") = (OpenAI, 7 # 10)) /\
  (exists c rest,
      on_message demo_models ascii_toLowerCase show_error w claude_command [] =
        (c, [] ++ NewLLM (fst (llm_config claude)) (snd (llm_config claude)) claude
               :: rest) /\
      Forall (fun e => is_construction e = false) rest /\
      (llm_construct w (fst (llm_config claude)) (snd (llm_config claude)) claude
         = None ->
       exists rest', rest = Invoke (build_prompt (lit "x")) :: rest')) /\
  on_message demo_models ascii_toLowerCase show_error
             (only_client Anthropic (7 # 10) claude one_question)
             claude_command [] =
  on_message demo_models ascii_toLowerCase show_error w claude_command [].
Proof.
  intros claude w.
  destruct (provider_and_temperature
              demo_models ascii_toLowerCase show_error w)
    as (H1 & H2 & H3 & H4 & H5).
  assert (Hno : forall name, includes (lit "claude") name = false ->
                             ~ contains (lit "claude") name).
  { intros name E C. apply includes_contains in C. congruence. }
  destruct (H5 claude_command (lit "/make_mcq") (lit "Claude-3-5-Sonnet-Latest")
               (lit "x") claude [])
    as [Hrun Hsame]; [ spaced_command_hypotheses .. | ].
  split; [|split; [|split; [|split; [|split]]]].
  - apply H1. exists [], (lit "-3-5-sonnet-latest"). reflexivity.
  - apply H2; [apply Hno; vm_compute|]; reflexivity.
  - apply H3; [apply Hno; vm_compute; reflexivity|]. vm_compute. discriminate.
  - apply (H4 {| chat_id := 1; text := Some (lit "/make_mcq gpt-4o x") |} []
              (Normal tt)
              [NewLLM OpenAI (7 # 10) (lit "gpt-4o");
               Invoke (build_prompt (lit "x"));
               SendPoll 1 (JStr (lit "Q")) (Some [JStr (lit "A"); JStr (lit "B")])
                 {| type_ := lit "quiz";
                    correct_option_id := Some (JNum false 1 0);
                    explanation := None;
                    is_anonymous := false |};
               SendMessage 1 (lit "Done! I have created 1 MCQ question polls.")]).
    + vm_compute. reflexivity.
    + now left.
  - exact Hrun.
  - apply Hsame. split; [reflexivity|]. split.
    + intros prompt. reflexivity.
    + intros t chatId question options opts. reflexivity.
Defined.

(** ** Containment of errors: claim C9 *)

(** The greeting of a user who has blocked the bot: the handler completes
    with nothing logged, and the rejection of the help reply is left
    unhandled. *)
Example blocked_greeting :
  on_message demo_models ascii_toLowerCase show_error blocked greeting [] =
    (Normal tt, [SendMessage 1 (help_text demo_models)]) /\
  unhandled_rejections blocked [] [SendMessage 1 (help_text demo_models)] =
    [ExternalError (lit "ETELEGRAM: 403 Forbidden: bot was blocked by the user")].
Proof. vm_compute. split; reflexivity. Qed.

Lemma rejected_reply_escapes_the_handler_witness :
  exists new,
    on_message_body demo_models ascii_toLowerCase show_error blocked greeting [] =
      (Normal tt, [] ++ new) /\
    on_message demo_models ascii_toLowerCase show_error blocked greeting [] =
      (Normal tt, [] ++ new) /\
    unhandled_rejections blocked [] new <> [].
Proof.
  apply (rejected_reply_escapes_the_handler
           demo_models ascii_toLowerCase show_error blocked greeting
           (lit "hello") []).
  - reflexivity.
  - vm_compute. discriminate.
  - vm_compute. discriminate.
  - intros p temperature name. reflexivity.
  - intros pre chatId m. vm_compute. discriminate.
Defined.
